(** * PySwiftIDE documentation pipeline: harvest, generate, apply

    A shallow embedding of the three scripts under [PySwiftIDE/scripts]
    ([harvest_python_docs.py], [generate_swift_completions.py] and
    [apply_harvested_docs.py]) together with the properties of the
    region replacement, the docstring cleaner, the signature renderer and
    the Swift emitters.

    Conventions of the embedding.
    - A Python [str] is a list of Unicode code points ([N]).
    - [s.find(sub, start)] returns [option nat]; [None] stands for [-1].
    - A Python exception is a value of [exn]; code that can raise returns
      [result].
    - Of the lines the scripts print, the warnings about regions that
      are not found are kept, in a log; the progress messages are left
      out. *)

From Stdlib Require Import NArith ZArith String Ascii Lia.
From stdpp Require Import base option list gmap.

Set Default Proof Using "Type".

(** ** Python strings *)

Abbreviation char := N (only parsing).
Abbreviation str := (list N) (only parsing).

(** The code points of an ASCII literal of the source. *)
Definition u (s : string) : str :=
  map N_of_ascii (list_ascii_of_string s).
Arguments u s%_string.

Definition LF : char := 10%N.
Definition CR : char := 13%N.
Definition SP : char := 32%N.
Definition DQ : char := 34%N.
Definition SQ : char := 39%N.
Definition BSL : char := 92%N.

(** [s.startswith(sub)] *)
Fixpoint starts_with (sub s : str) : bool :=
  match sub, s with
  | [], _ => true
  | _ :: _, [] => false
  | a :: sub', b :: s' => N.eqb a b && starts_with sub' s'
  end.

(** [s.find(sub)], scanning from the left. *)
Fixpoint find0 (sub s : str) : option nat :=
  if starts_with sub s then Some 0
  else match s with
       | [] => None
       | _ :: r => S <$> find0 sub r
       end.

(** [s.find(sub, start)] for a non-negative [start]. *)
Definition find (s sub : str) (start : nat) : option nat :=
  if decide (start ≤ length s)
  then (λ i, start + i) <$> find0 sub (drop start s)
  else None.

(** [sep.join(l)] *)
Fixpoint join (sep : str) (l : list str) : str :=
  match l with
  | [] => []
  | [x] => x
  | x :: r => x ++ sep ++ join sep r
  end.

(** [s.replace(old, new)]: the non-overlapping occurrences of [old],
    leftmost first.  [skip] counts the characters of a matched occurrence
    that are still to be passed over. *)
Fixpoint replace_from (old new : str) (skip : nat) (s : str) : str :=
  match s with
  | [] => []
  | c :: r =>
    match skip with
    | S k => replace_from old new k r
    | 0 =>
      if starts_with old s
      then new ++ replace_from old new (length old - 1) r
      else c :: replace_from old new 0 r
    end
  end.

Definition replace (s old new : str) : str :=
  match old with
  | [] => new ++ flat_map (λ c, c :: new) s
  | _ :: _ => replace_from old new 0 s
  end.

(** ** Exceptions and standard output *)

Inductive exn : Type :=
| KeyError (key : str)
| IndexError
| ValueError
| TypeError
| AttributeError (name : str).

Abbreviation result := (sum exn) (only parsing).

Definition ok {A} (a : A) : result A := inr a.
Definition raise {A} (e : exn) : result A := inl e.

Definition rbind {A B} (m : result A) (k : A → result B) : result B :=
  match m with
  | inl e => inl e
  | inr a => k a
  end.

Notation "'let!' x ':=' m 'in' k" := (rbind m (λ x, k))
  (at level 10, x name, m at level 100, k at level 200, only parsing).

(** [for x in l: ys.append(f(x))], stopping at the first exception. *)
Fixpoint rmap {A B} (f : A → result B) (l : list A) : result (list B) :=
  match l with
  | [] => ok []
  | x :: r => let! y := f x in let! ys := rmap f r in ok (y :: ys)
  end.

(** A computation that prints: its value and the lines printed. *)
Abbreviation printing A := (A * list str)%type (only parsing).

(** Output and exceptions together: what [main] does. *)
Abbreviation run A := (result A * list str)%type (only parsing).

Definition run_ret {A} (a : A) : run A := (inr a, []).

Definition run_bind {A B} (m : run A) (k : A → run B) : run B :=
  match m with
  | (inl e, out) => (inl e, out)
  | (inr a, out) => let '(r, out') := k a in (r, out ++ out')
  end.

Definition lift_result {A} (r : result A) : run A := (r, []).
Definition lift_printing {A} (p : printing A) : run A := (inr p.1, p.2).

Notation "'run!' x ':=' m 'in' k" := (run_bind m (λ x, k))
  (at level 10, x name, m at level 100, k at level 200, only parsing).

(** ** More of [str] *)

(** [str.isspace] on one character: the whitespace table of CPython. *)
Definition is_space (c : char) : bool :=
  ((9 <=? c) && (c <=? 13) || (28 <=? c) && (c <=? 32)
   || (c =? 133) || (c =? 160) || (c =? 5760)
   || (8192 <=? c) && (c <=? 8202)
   || (c =? 8232) || (c =? 8233) || (c =? 8239) || (c =? 8287)
   || (c =? 12288))%N.

Fixpoint drop_while {A} (f : A → bool) (l : list A) : list A :=
  match l with
  | [] => []
  | x :: r => if f x then drop_while f r else l
  end.

Definition lstrip (s : str) : str := drop_while is_space s.
Definition rstrip (s : str) : str := reverse (drop_while is_space (reverse s)).
(** [s.strip()] *)
Definition strip (s : str) : str := rstrip (lstrip s).

(** [s.split(c)] for a separator of one character. *)
Fixpoint split_char (c : char) (s : str) : list str :=
  match s with
  | [] => [[]]
  | x :: r =>
    if N.eqb x c then [] :: split_char c r
    else match split_char c r with
         | w :: ws => (x :: w) :: ws
         | [] => [[x]]
         end
  end.

(** [s.split()]: the maximal runs of non-whitespace characters. *)
Fixpoint split_ws (s : str) : list str :=
  match s with
  | [] => []
  | c :: r =>
    if is_space c then split_ws r
    else match r with
         | [] => [[c]]
         | d :: _ =>
           if is_space d then [c] :: split_ws r
           else match split_ws r with
                | w :: ws => (c :: w) :: ws
                | [] => [[c]]
                end
         end
  end.

Definition is_empty {A} (l : list A) : bool :=
  match l with [] => true | _ :: _ => false end.

Definition str_eqb (a b : str) : bool := bool_decide (a = b).

(** [s.capitalize()], on the ASCII letters. *)
Definition upper (c : char) : char :=
  if ((97 <=? c) && (c <=? 122))%N then (c - 32)%N else c.
Definition lower (c : char) : char :=
  if ((65 <=? c) && (c <=? 90))%N then (c + 32)%N else c.
Definition capitalize (s : str) : str :=
  match s with
  | [] => []
  | c :: r => upper c :: map lower r
  end.

(** ** [harvest_python_docs.py] *)

Module Harvest.

(** The loop of [clean_docstring] over the lines; each [break] returns. *)
Fixpoint collect (result_lines lines : list str) : list str :=
  match lines with
  | [] => result_lines
  | line :: rest =>
    let stripped := strip line in
    if is_empty stripped && negb (is_empty result_lines) then result_lines
    else
      let result_lines :=
        if negb (is_empty stripped) then result_lines ++ [stripped]
        else result_lines in
      if 300 <? length (join [SP] result_lines) then result_lines
      else collect result_lines rest
  end.

Definition clean_docstring (doc : option str) : str :=
  match doc with
  | None => []
  | Some [] => []
  | Some doc =>
    let lines := split_char LF (strip doc) in
    let lines := drop_while (λ l, is_empty (strip l)) lines in
    let result_lines := collect [] lines in
    let doc_text := join [SP] result_lines in
    let doc_text := replace doc_text [BSL] [BSL; BSL] in
    let doc_text := replace doc_text [DQ] [BSL; DQ] in
    let doc_text := replace doc_text [LF] [SP] in
    let doc_text := replace doc_text [CR] [SP] in
    join [SP] (split_ws doc_text)
  end.

(** What [inspect.signature] reports about one parameter. *)
Inductive param_kind : Type :=
| POSITIONAL_ONLY | POSITIONAL_OR_KEYWORD | VAR_POSITIONAL
| KEYWORD_ONLY | VAR_KEYWORD.

(** A default value: a [str], [None], or any other object.  The code
    compares the default with [inspect.Parameter.empty], which calls the
    [__ne__] of the default and takes the truth value of the answer, and
    puts it into an f-string, which calls its [__format__].  A [str]
    that compares and formats as [str] does, and [None], differ from
    [inspect.Parameter.empty] and are shown as they are; of another
    object the model holds what the two calls give, a value or an
    exception. *)
Inductive pyvalue : Type :=
| PyStr (s : str)
| PyNone
| PyObject (differs : result bool) (shown : result str).

Record parameter : Type := MkParameter {
  p_name : str;
  p_kind : param_kind;
  p_default : option pyvalue   (* [None] is [inspect.Parameter.empty] *)
}.

(** A callable as the harvester sees it: its [__name__], [None] when the
    object has no such attribute, and what [inspect.signature] does on
    it. *)
Record callable : Type := MkCallable {
  f_name : option str;
  f_signature : result (list parameter)
}.

(** [func.__name__] *)
Definition name_of (func : callable) : result str :=
  match f_name func with
  | Some name => ok name
  | None => raise (AttributeError (u "__name__"))
  end.

(** The branches of the loop body below the test of the default. *)
Definition param_str_by_kind (param : parameter) : str :=
  match p_kind param with
  | VAR_POSITIONAL => u "*" ++ p_name param
  | VAR_KEYWORD => u "**" ++ p_name param
  | _ => p_name param
  end.

Definition param_str (param : parameter) : result str :=
  match p_default param with
  | Some (PyStr default_val) =>
      ok (p_name param ++ u "='" ++ default_val ++ u "'")
  | Some PyNone => ok (p_name param ++ u "=None")
  | Some (PyObject differs shown) =>
    let! differs := differs in
    if differs then
      let! shown := shown in
      ok (p_name param ++ u "=" ++ shown)
    else ok (param_str_by_kind param)
  | None => ok (param_str_by_kind param)
  end.

Fixpoint signature_loop (params : list str) (parameters : list parameter)
    : result (list str) :=
  match parameters with
  | [] => ok params
  | param :: rest =>
    if str_eqb (p_name param) (u "self") then signature_loop params rest
    else
      let! param_str := param_str param in
      signature_loop (params ++ [param_str]) rest
  end.

(** The [try] block, and the [except (ValueError, TypeError)] around it.
    [func.__name__] is read at the [return] of either branch. *)
Definition get_function_signature (func : callable) : result (str * list str) :=
  let attempt :=
    let! parameters := f_signature func in
    let! params := signature_loop [] parameters in
    let! name := name_of func in
    ok (name, params) in
  match attempt with
  | inl ValueError | inl TypeError =>
    let! name := name_of func in
    ok (name, [])
  | outcome => outcome
  end.

End Harvest.

(** ** The interchange record [python_docs.json] *)

(** A JSON scalar, for the one key whose value the emitters compare. *)
Inductive json : Type :=
| JNull
| JBool (b : bool)
| JInt (z : Z)
| JStr (s : str).

(** One entry of the record: a dict with the keys the harvester writes,
    any of which can be missing.  The values have the types the
    harvester gives them; ['type'] alone can hold any JSON scalar. *)
Record item : Type := Item {
  i_type : option json;
  i_name : option str;
  i_params : option (list str);
  i_value : option str;
  i_doc : option str
}.

Record harvest_record : Type := HarvestRecord {
  python_version : str;
  builtin_functions : list item;
  type_methods : gmap (list N) (list item);
  math_module : list item
}.

(** [item[key]] *)
Definition getitem {A} (field : option A) (key : str) : result A :=
  match field with
  | Some v => ok v
  | None => raise (KeyError key)
  end.

(** [item.get('type') == tag] *)
Definition type_is (it : item) (tag : str) : bool :=
  match i_type it with
  | Some (JStr s) => str_eqb s tag
  | _ => false
  end.

(** [data['python_version'].split()[0]], which both [main] functions
    print before they do anything else. *)
Definition loaded_version (data : harvest_record) : result str :=
  match split_ws (python_version data) with
  | version :: _ => ok version
  | [] => raise IndexError
  end.

(** ** [generate_swift_completions.py] *)

Module Generate.

Definition quoted (p : str) : str := [DQ] ++ p ++ [DQ].

(** [', '.join(f'"{p}"' for p in params)] *)
Definition params_str (params : list str) : str :=
  join (u ", ") (map quoted params).

Definition constant_literal (name value doc : str) : str :=
  u ".constant(name: " ++ quoted name ++ u ", value: " ++ quoted value
    ++ u ", documentation: " ++ quoted doc ++ u ")".

Definition function_literal (name : str) (params : list str) (doc : str) : str :=
  u ".function(name: " ++ quoted name ++ u ", parameters: ["
    ++ params_str params ++ u "], documentation: " ++ quoted doc ++ u ")".

Definition format_swift_array_item (it : item) (is_constant : bool) : result str :=
  if is_constant then
    let! name := getitem (i_name it) (u "name") in
    let value := default [] (i_value it) in
    let! doc := getitem (i_doc it) (u "doc") in
    ok (constant_literal name value doc)
  else
    let! name := getitem (i_name it) (u "name") in
    let params := default [] (i_params it) in
    let! doc := getitem (i_doc it) (u "doc") in
    ok (function_literal name params doc).

(** The body of the loops: one line of an array. *)
Definition array_line (indent : str) (is_constant : bool) (it : item) : result str :=
  let! text := format_swift_array_item it is_constant in
  ok ((indent ++ text) ++ u ",").

Definition generate_builtin_functions (data : list item) : result str :=
  let lines := [u "    private static let builtinFunctions: [CompletionItem] = ["] in
  let! body := rmap (array_line (u "        ") false) data in
  let lines := lines ++ body in
  let lines := lines ++ [u "    ]"] in
  ok (join [LF] lines).

Definition type_map : gmap (list N) (list N) :=
  list_to_map
    [ (u "str", u "StringMethods"); (u "list", u "ListMethods");
      (u "dict", u "DictMethods"); (u "set", u "SetMethods");
      (u "frozenset", u "FrozensetMethods"); (u "bytes", u "BytesMethods");
      (u "bytearray", u "BytearrayMethods"); (u "tuple", u "TupleMethods") ].

Definition generate_type_methods (type_name : str) (methods : list item) : result str :=
  let struct_name := default (capitalize type_name ++ u "Methods") (type_map !! type_name) in
  let lines :=
    [ u "    /// " ++ capitalize type_name
        ++ u " type methods - for use when type inference determines an object is a "
        ++ type_name;
      u "    struct " ++ struct_name ++ u " {";
      u "        static let methods: [CompletionItem] = [" ] in
  let! body := rmap (array_line (u "            ") false) methods in
  let lines := lines ++ body in
  let lines := lines ++ [u "        ]"] in
  let lines := lines ++ [u "    }"] in
  ok (join [LF] lines).

(** The lines of [generate_math_module] before they are joined. *)
Definition math_module_lines (data : list item) : result (list str) :=
  let lines := [u "    private static let mathModuleCompletions: [CompletionItem] = ["] in
  let constants := filter (λ it, type_is it (u "constant") = true) data in
  let functions := filter (λ it, type_is it (u "function") = true) data in
  let lines :=
    if negb (is_empty constants)
    then lines ++ [u "        // Math module constants"] else lines in
  let! body := rmap (array_line (u "        ") true) constants in
  let lines := lines ++ body in
  let lines :=
    if negb (is_empty functions) && negb (is_empty constants)
    then (lines ++ [[]]) ++ [u "        // Math module functions"] else lines in
  let! body := rmap (array_line (u "        ") false) functions in
  let lines := lines ++ body in
  let lines := lines ++ [u "    ]"] in
  ok lines.

Definition generate_math_module (data : list item) : result str :=
  let! lines := math_module_lines data in
  ok (join [LF] lines).

Definition type_order : list str :=
  [u "str"; u "list"; u "dict"; u "set"; u "frozenset"; u "bytes";
   u "bytearray"; u "tuple"].

(** The loop of [main] over [type_order]. *)
Fixpoint type_methods_loop (tm : gmap (list N) (list item))
    (swift_code : list str) (types : list str) : result (list str) :=
  match types with
  | [] => ok swift_code
  | type_name :: rest =>
    match tm !! type_name with
    | Some methods =>
      let swift_code :=
        swift_code ++ [(u "    // MARK: - " ++ capitalize type_name) ++ u " Methods"] in
      let! block := generate_type_methods type_name methods in
      let swift_code := swift_code ++ [block] in
      let swift_code := swift_code ++ [[]] in
      type_methods_loop tm swift_code rest
    | None => type_methods_loop tm swift_code rest
    end
  end.

(** [main]: the text written to [generated_completions.swift]; [now] is
    what [datetime.now().isoformat()] returns. *)
Definition main (now : str) (data : harvest_record) : result str :=
  let! _version := loaded_version data in
  let swift_code :=
    [ u "// MARK: - Generated Python Completions";
      u "// Generated from Python 3.13 documentation using inspect.getdoc()";
      u "// Generated on: " ++ now;
      [] ] in
  let swift_code := swift_code ++ [u "    // MARK: - Built-in Functions"] in
  let! block := generate_builtin_functions (builtin_functions data) in
  let swift_code := swift_code ++ [block] in
  let swift_code := swift_code ++ [[]] in
  let! swift_code := type_methods_loop (type_methods data) swift_code type_order in
  let swift_code := swift_code ++ [u "    // MARK: - Math Module"] in
  let! block := generate_math_module (math_module data) in
  let swift_code := swift_code ++ [block] in
  let swift_code := swift_code ++ [[]] in
  ok (join [LF] swift_code).

End Generate.

(** ** [apply_harvested_docs.py] *)

Module Apply.

Definition warning_sign : str := [9888%N; 65039%N].

Definition missing_start_msg (start_marker : str) : str :=
  (warning_sign ++ u "  Could not find start marker: ")
    ++ take 50 start_marker ++ u "...".

Definition missing_end_msg (end_marker : str) : str :=
  (warning_sign ++ u "  Could not find end marker: ")
    ++ take 50 end_marker ++ u "...".

Definition replace_section
    (content start_marker end_marker new_content : str) : printing str :=
  match find content start_marker 0 with
  | None => (content, [missing_start_msg start_marker])
  | Some start_idx =>
    match find content end_marker (start_idx + length start_marker) with
    | None => (content, [missing_end_msg end_marker])
    | Some end_idx =>
      (take start_idx content ++ new_content ++ drop end_idx content, [])
    end
  end.

(** The two replacements made on the parameters of [print]. *)
Definition fix_newline (params_str : str) : str :=
  replace (replace params_str (u "end='") (u "end='" ++ [BSL; BSL] ++ u "n"))
          [SQ; DQ] ([SQ; BSL] ++ u "n" ++ [DQ]).

Definition builtin_line (it : item) : result str :=
  let params := default [] (i_params it) in
  let! doc := getitem (i_doc it) (u "doc") in
  let params_str := Generate.params_str params in
  let! name := getitem (i_name it) (u "name") in
  let params_str :=
    if str_eqb name (u "print") then fix_newline params_str else params_str in
  let line :=
    u "        .function(name: " ++ Generate.quoted name ++ u ", parameters: ["
      ++ params_str ++ u "], documentation: " ++ Generate.quoted doc ++ u ")" in
  ok (line ++ u ",").

Definition generate_builtin_functions (data : list item) : result str :=
  let lines := [u "    private static let builtinFunctions: [CompletionItem] = ["] in
  let! body := rmap builtin_line data in
  let lines := lines ++ body in
  let lines := lines ++ [u "    ]"] in
  ok (join [LF] lines).

Definition type_map : gmap (list N) (list N * list N) :=
  list_to_map
    [ (u "str", (u "StringMethods", u "string"));
      (u "list", (u "ListMethods", u "list"));
      (u "dict", (u "DictMethods", u "dict"));
      (u "set", (u "SetMethods", u "set"));
      (u "frozenset", (u "FrozensetMethods", u "frozenset"));
      (u "bytes", (u "BytesMethods", u "bytes"));
      (u "bytearray", (u "BytearrayMethods", u "bytearray"));
      (u "tuple", (u "TupleMethods", u "tuple")) ].

Definition method_line (it : item) : result str :=
  let params := default [] (i_params it) in
  let! doc := getitem (i_doc it) (u "doc") in
  let params_str := Generate.params_str params in
  let! name := getitem (i_name it) (u "name") in
  let line :=
    u "            .function(name: " ++ Generate.quoted name ++ u ", parameters: ["
      ++ params_str ++ u "], documentation: " ++ Generate.quoted doc ++ u ")" in
  ok (line ++ u ",").

Definition generate_type_methods_struct (type_name : str) (methods : list item)
    : result str :=
  let '(struct_name, type_desc) :=
    default (capitalize type_name ++ u "Methods", type_name) (type_map !! type_name) in
  let lines :=
    [ u "    /// " ++ capitalize type_name
        ++ u " type methods - for use when type inference determines an object is a "
        ++ type_desc;
      u "    struct " ++ struct_name ++ u " {";
      u "        static let methods: [CompletionItem] = [" ] in
  let! body := rmap method_line methods in
  let lines := lines ++ body in
  let lines := lines ++ [u "        ]"] in
  let lines := lines ++ [u "    }"] in
  ok (join [LF] lines).

Definition constant_line (it : item) : result str :=
  let! name := getitem (i_name it) (u "name") in
  let value := default [] (i_value it) in
  let! doc := getitem (i_doc it) (u "doc") in
  let line :=
    u "        .constant(name: " ++ Generate.quoted name ++ u ", value: "
      ++ Generate.quoted value ++ u ", documentation: " ++ Generate.quoted doc ++ u ")" in
  ok (line ++ u ",").

Definition function_line (it : item) : result str :=
  let params := default [] (i_params it) in
  let! doc := getitem (i_doc it) (u "doc") in
  let params_str := Generate.params_str params in
  let! name := getitem (i_name it) (u "name") in
  let line :=
    u "        .function(name: " ++ Generate.quoted name ++ u ", parameters: ["
      ++ params_str ++ u "], documentation: " ++ Generate.quoted doc ++ u ")" in
  ok (line ++ u ",").

Definition math_module_lines (data : list item) : result (list str) :=
  let lines := [u "    private static let mathModuleCompletions: [CompletionItem] = ["] in
  let constants := filter (λ it, type_is it (u "constant") = true) data in
  let functions := filter (λ it, type_is it (u "function") = true) data in
  let lines :=
    if negb (is_empty constants)
    then lines ++ [u "        // Math module constants"] else lines in
  let! body := rmap constant_line constants in
  let lines := lines ++ body in
  let lines :=
    if negb (is_empty functions) && negb (is_empty constants)
    then (lines ++ [[]]) ++ [u "        // Math module functions"] else lines in
  let! body := rmap function_line functions in
  let lines := lines ++ body in
  let lines := lines ++ [u "    ]"] in
  ok lines.

Definition generate_math_module (data : list item) : result str :=
  let! lines := math_module_lines data in
  ok (join [LF] lines).

(** *** The regular expression of [main]

    The pattern of [main] is a sequence of literals, [.+] and [.+?] under
    [re.DOTALL]; [re] matches it by backtracking, leftmost start first. *)
Inductive re_item : Type :=
| Lit (s : str)      (* literal text *)
| AnyPlus            (* [.+], greedy *)
| AnyPlusLazy.       (* [.+?] *)

(** One or more characters, as many as the rest [k] allows. *)
Fixpoint any_plus (k : str → option str) (s : str) : option str :=
  match s with
  | [] => None
  | _ :: r =>
    match any_plus k r with
    | Some rest => Some rest
    | None => k r
    end
  end.

(** One or more characters, as few as the rest [k] allows. *)
Fixpoint any_plus_lazy (k : str → option str) (s : str) : option str :=
  match s with
  | [] => None
  | _ :: r =>
    match k r with
    | Some rest => Some rest
    | None => any_plus_lazy k r
    end
  end.

(** [pattern.match(s)]: what is left of [s] after the match. *)
Fixpoint re_match (pattern : list re_item) (s : str) : option str :=
  match pattern with
  | [] => Some s
  | Lit l :: p =>
    if starts_with l s then re_match p (drop (length l) s) else None
  | AnyPlus :: p => any_plus (re_match p) s
  | AnyPlusLazy :: p => any_plus_lazy (re_match p) s
  end.

(** [pattern.search(s)], giving the text matched (here [match.group(1)],
    since group 1 encloses the whole pattern). *)
Fixpoint re_search (pattern : list re_item) (s : str) : option str :=
  match re_match pattern s with
  | Some rest => Some (take (length s - length rest) s)
  | None =>
    match s with
    | [] => None
    | _ :: r => re_search pattern r
    end
  end.

Definition struct_pattern (type_name : str) : str :=
  let struct_pattern :=
    u "struct ("
      ++ (if str_eqb type_name (u "str") then u "String"
          else if bool_decide (type_name ∈ [u "list"; u "dict"; u "set"; u "tuple"])
          then capitalize type_name
          else if str_eqb type_name (u "bytes") then capitalize type_name ++ u "s"
          else capitalize type_name)
      ++ u ")Methods" in
  if str_eqb type_name (u "bytearray") then u "struct BytearrayMethods"
  else struct_pattern.

(** A word spliced into the pattern: of the metacharacters it holds only
    the parentheses of a group, which match no character. *)
Definition re_word (w : str) : list re_item :=
  [Lit (filter (λ c, c ≠ 40%N ∧ c ≠ 41%N) w)].

Definition struct_regex (type_name : str) : list re_item :=
  [Lit (u "    /// "); AnyPlus; Lit (u " type methods"); AnyPlus;
   Lit ([LF] ++ u "    struct ")]
  ++ re_word (default [] (last (split_ws (struct_pattern type_name))))
  ++ [Lit (u " {"); AnyPlusLazy;
      Lit ([LF] ++ u "        ]" ++ [LF] ++ u "    }")].

Definition type_order : list str :=
  [u "str"; u "list"; u "dict"; u "set"; u "bytes"; u "bytearray"; u "tuple"].

(** The loop of [main] over [type_order]. *)
Fixpoint type_methods_loop (tm : gmap (list N) (list item))
    (content : str) (types : list str) : run str :=
  match types with
  | [] => run_ret content
  | type_name :: rest =>
    match tm !! type_name with
    | None => type_methods_loop tm content rest
    | Some methods =>
      run! new_struct := lift_result (generate_type_methods_struct type_name methods) in
      run! content :=
        match re_search (struct_regex type_name) content with
        | Some group1 => run_ret (replace content group1 new_struct)
        | None =>
          lift_printing
            (content,
             [(u "   " ++ warning_sign) ++ u "  Could not find " ++ struct_pattern type_name])
        end in
      type_methods_loop tm content rest
    end
  end.

Definition builtins_start : str :=
  u "    private static let builtinFunctions: [CompletionItem] = [".
Definition builtins_tail : str :=
  [LF] ++ u "    " ++ [LF] ++ u "    // MARK: - Built-in Type Method Definitions".
Definition math_start : str :=
  u "    private static let mathModuleCompletions: [CompletionItem] = [".
Definition math_tail : str :=
  [LF] ++ u "    " ++ [LF] ++ u "    // MARK: - Sequence Operations".

(** The three steps of [main] on the text of [MonacoAnalyzer.swift]. *)
Definition patch (data : harvest_record) (content : str) : run str :=
  run! new_builtins := lift_result (generate_builtin_functions (builtin_functions data)) in
  run! content :=
    lift_printing
      (replace_section content builtins_start (u "    ]" ++ builtins_tail)
                       (new_builtins ++ builtins_tail)) in
  run! content := type_methods_loop (type_methods data) content type_order in
  run! new_math := lift_result (generate_math_module (math_module data)) in
  lift_printing
    (replace_section content math_start (u "    ]" ++ math_tail)
                     (new_math ++ math_tail)).

(** [main]: [Some] of the text written to the file, or [None] when the
    file is left alone.  The log holds the warnings about regions that
    were not found. *)
Definition main (data : harvest_record) (original_content : str) : run (option str) :=
  run! _version := lift_result (loaded_version data) in
  run! content := patch data original_content in
  run_ret (if bool_decide (content ≠ original_content) then Some content else None).

End Apply.

(** ** [harvest_python_docs.py]: building the record *)

Module Harvesting.

(** What the harvester asks of an object of the runtime. *)
Record pyobject : Type := MkObject {
  o_function : Harvest.callable;  (* [obj.__name__] and [inspect.signature(obj)] *)
  o_callable : bool;              (* [callable(obj)] *)
  o_doc : option str;             (* [inspect.getdoc(obj)] *)
  o_str : str                     (* [str(obj)] *)
}.

(** A type or a module: the names [dir] lists and what [getattr] gives
    for a name, [None] when it raises [AttributeError]. *)
Record namespace : Type := MkNamespace {
  ns_dir : list str;
  ns_getattr : str → option pyobject
}.

(** [try: ... = get_function_signature(func)] with a bare [except]:
    whatever [get_function_signature] raises, the name is the one given
    and the parameter list is empty. *)
Definition signature_or (fallback_name : str) (func : pyobject) : str * list str :=
  match Harvest.get_function_signature (o_function func) with
  | inr signature => signature
  | inl _ => (fallback_name, [])
  end.

Definition builtin_names : list str :=
  [ u "abs"; u "all"; u "any"; u "ascii"; u "bin"; u "bool"; u "breakpoint";
    u "bytearray"; u "bytes"; u "callable"; u "chr"; u "classmethod"; u "compile";
    u "complex"; u "delattr"; u "dict"; u "dir"; u "divmod"; u "enumerate";
    u "eval"; u "exec"; u "filter"; u "float"; u "format"; u "frozenset";
    u "getattr"; u "globals"; u "hasattr"; u "hash"; u "help"; u "hex"; u "id";
    u "input"; u "int"; u "isinstance"; u "issubclass"; u "iter"; u "len";
    u "list"; u "locals"; u "map"; u "max"; u "memoryview"; u "min"; u "next";
    u "object"; u "oct"; u "open"; u "ord"; u "pow"; u "print"; u "property";
    u "range"; u "repr"; u "reversed"; u "round"; u "set"; u "setattr"; u "slice";
    u "sorted"; u "staticmethod"; u "str"; u "sum"; u "super"; u "tuple"; u "type";
    u "vars"; u "zip" ].

(** [builtins] is the module of that name: [hasattr] and [getattr] on it
    are a lookup. *)
Definition harvest_builtin_functions (builtins : gmap (list N) pyobject) : list item :=
  foldl (λ functions name,
           match builtins !! name with
           | Some func =>
             let doc := Harvest.clean_docstring (o_doc func) in
             let '(func_name, params) := signature_or name func in
             functions ++ [Item None (Some func_name) (Some params) None (Some doc)]
           | None => functions
           end)
        [] builtin_names.

Definition harvest_type_methods (type_obj : namespace) (type_name : str) : list item :=
  foldl (λ methods name,
           if starts_with (u "_") name then methods
           else match ns_getattr type_obj name with
                | None => methods
                | Some attr =>
                  if o_callable attr then
                    let doc := Harvest.clean_docstring (o_doc attr) in
                    let params := (signature_or name attr).2 in
                    methods ++ [Item None (Some name) (Some params) None (Some doc)]
                  else methods
                end)
        [] (ns_dir type_obj).

(** The loop of [harvest_math_module]; its [getattr] is not guarded. *)
Fixpoint math_loop (math : namespace) (items : list item) (names : list str)
    : result (list item) :=
  match names with
  | [] => ok items
  | name :: rest =>
    if starts_with (u "_") name then math_loop math items rest
    else match ns_getattr math name with
         | None => raise (AttributeError name)
         | Some attr =>
           let doc := Harvest.clean_docstring (o_doc attr) in
           if o_callable attr then
             let params := (signature_or name attr).2 in
             math_loop math
               (items ++ [Item (Some (JStr (u "function"))) (Some (u "math." ++ name))
                               (Some params) None (Some doc)])
               rest
           else
             math_loop math
               (items ++ [Item (Some (JStr (u "constant"))) (Some (u "math." ++ name))
                               None (Some (o_str attr)) (Some doc)])
               rest
         end
  end.

Definition harvest_math_module (math : namespace) : result (list item) :=
  math_loop math [] (ns_dir math).

(** [generate_swift_completion_array(items, indent)] *)
Definition completion_line (indent_str : str) (it : item) : result str :=
  match i_value it with
  | Some _ =>
    let! name := getitem (i_name it) (u "name") in
    let! value := getitem (i_value it) (u "value") in
    let! doc := getitem (i_doc it) (u "doc") in
    ok (indent_str ++ u ".constant(name: " ++ [DQ] ++ name ++ [DQ] ++ u ", value: "
          ++ [DQ] ++ value ++ [DQ] ++ u ", documentation: " ++ [DQ] ++ doc ++ [DQ]
          ++ u "),")
  | None =>
    let params_str := Generate.params_str (default [] (i_params it)) in
    let! name := getitem (i_name it) (u "name") in
    let! doc := getitem (i_doc it) (u "doc") in
    ok (indent_str ++ u ".function(name: " ++ [DQ] ++ name ++ [DQ]
          ++ u ", parameters: [" ++ params_str ++ u "], documentation: "
          ++ [DQ] ++ doc ++ [DQ] ++ u "),")
  end.

Definition generate_swift_completion_array (items : list item) (indent : nat)
    : result str :=
  let indent_str := replicate indent SP in
  let! lines := rmap (completion_line indent_str) items in
  ok (join [LF] lines).

(** The runtime [main] looks at: [sys.version], the module [builtins],
    the built-in type of a given name, and the module [math]. *)
Record runtime : Type := MkRuntime {
  sys_version : str;
  builtins : gmap (list N) pyobject;
  builtin_type : str → namespace;
  math : namespace
}.

(** [main]: the record that is written to [python_docs.json].  The
    samples [main] prints afterwards are left out. *)
Definition main (rt : runtime) : result harvest_record :=
  let builtin_functions := harvest_builtin_functions (builtins rt) in
  let type_data : gmap (list N) (list item) :=
    list_to_map
      (map (λ type_name,
              (type_name, harvest_type_methods (builtin_type rt type_name) type_name))
           [u "str"; u "list"; u "dict"; u "set"; u "frozenset"; u "bytes";
            u "bytearray"; u "tuple"]) in
  match harvest_math_module (math rt) with
  | inl e => inl e
  | inr math_items =>
    inr (HarvestRecord (sys_version rt) builtin_functions type_data math_items)
  end.

End Harvesting.

(** ** Vocabulary of the statements *)

(** [sub] occurs in [s] at index [i]. *)
Definition occurs_at (sub s : str) (i : nat) : Prop :=
  ∃ pre post, s = pre ++ sub ++ post ∧ length pre = i.

(** [i] is the first index at or after [start] where [sub] occurs. *)
Definition first_occurrence (sub s : str) (start i : nat) : Prop :=
  start ≤ i ∧ occurs_at sub s i ∧ ∀ j, start ≤ j → j < i → ¬ occurs_at sub s j.

(** [sub] does not occur in [s] at or after [start]. *)
Definition absent_from (sub s : str) (start : nat) : Prop :=
  ∀ j, start ≤ j → ¬ occurs_at sub s j.

(** The two consistent conventions for a region between the start marker
    at [i] and the end marker at [j]: both markers kept, or both markers
    replaced. *)
Definition replaced_exclusive (content start_marker new_content : str) (i j : nat) : str :=
  take (i + length start_marker) content ++ new_content ++ drop j content.

Definition replaced_inclusive (content end_marker new_content : str) (i j : nat) : str :=
  take i content ++ new_content ++ drop (j + length end_marker) content.

(** ** Sample inputs *)

Module Sample.

(** [{name: "abs", params: ["x"], doc: ...}] *)
Definition abs_item : item :=
  Item None (Some (u "abs")) (Some [u "x"]) None
       (Some (u "Return the absolute value of the argument.")).

(** [{type: "constant", name: "math.pi", value: "3.141592653589793", doc: ...}] *)
Definition pi_item : item :=
  Item (Some (JStr (u "constant"))) (Some (u "math.pi")) None
       (Some (u "3.141592653589793")) (Some (u "The mathematical constant pi.")).

(** [{type: "function", name: "math.sin", params: ["x"], doc: ...}] *)
Definition sin_item : item :=
  Item (Some (JStr (u "function"))) (Some (u "math.sin")) (Some [u "x"]) None
       (Some (u "Return the sine of x (measured in radians).")).

(** [{name: "upper", params: ["self"]...}] as harvested for [str]. *)
Definition upper_item : item :=
  Item None (Some (u "upper")) (Some []) None
       (Some (u "Return a copy of the string converted to uppercase.")).

(** [{type: "class", name: "math.Real"}]: another kind tag, and no doc. *)
Definition class_item : item :=
  Item (Some (JStr (u "class"))) (Some (u "math.Real")) None None None.

(** [{name: "math.tau", value: "6.28", doc: ...}]: no kind tag at all. *)
Definition untagged_item : item :=
  Item None (Some (u "math.tau")) None (Some (u "6.283185307179586"))
       (Some (u "The mathematical constant tau.")).

(** [{type: 1, name: "math.e", doc: ...}]: a kind tag that is not a string. *)
Definition numbered_item : item :=
  Item (Some (JInt 1)) (Some (u "math.e")) None None (Some (u "Euler.")).

Definition mixed_module : list item :=
  [sin_item; class_item; pi_item; untagged_item; numbered_item].

Definition record : harvest_record :=
  HarvestRecord (u "3.13.0 (main)") [abs_item]
                (<[u "str" := [upper_item]]> ∅) [sin_item; pi_item].

(** A target file with the regions of [main], all of them empty, and
    hand-written text around them. *)
Definition swift_file : str :=
  u "struct MonacoAnalyzer {" ++ [LF]
  ++ Apply.builtins_start ++ [LF]
  ++ u "    ]" ++ Apply.builtins_tail ++ [LF]
  ++ u "    /// Str type methods - written by hand" ++ [LF]
  ++ u "    struct StringMethods {" ++ [LF]
  ++ u "        static let methods: [CompletionItem] = [" ++ [LF]
  ++ u "        ]" ++ [LF]
  ++ u "    }" ++ [LF]
  ++ Apply.math_start ++ [LF]
  ++ u "    ]" ++ Apply.math_tail ++ [LF]
  ++ u "}" ++ [LF].

(** A small file around the markers [BEGIN-BUILTINS] and [END-BUILTINS]. *)
Definition marked_text : str :=
  u "let a = 1; BEGIN-BUILTINS old entries END-BUILTINS let b = 2;".

End Sample.

(** ** Vocabulary for [clean_docstring] *)

Fixpoint take_while {A} (f : A → bool) (l : list A) : list A :=
  match l with
  | [] => []
  | x :: r => if f x then x :: take_while f r else []
  end.

(** A line with nothing but whitespace. *)
Definition blank (line : str) : bool := is_empty (strip line).

(** The stripped lines of the first paragraph of a docstring: the lines
    from the first non-blank one up to the next blank one. *)
Definition first_paragraph (doc : str) : list str :=
  map strip
      (take_while (λ l, negb (blank l))
                  (drop_while blank (split_char LF (strip doc)))).

(** What the four replacements do to one character. *)
Definition escape_char (c : char) : str :=
  if (c =? BSL)%N then [BSL; BSL]
  else if (c =? DQ)%N then [BSL; DQ]
  else if ((c =? LF) || (c =? CR))%N then [SP]
  else [c].

Definition escape (s : str) : str := flat_map escape_char s.

(** Whitespace-normalized text: words without whitespace, none of them
    empty, with single spaces between them. *)
Definition whitespace_normalized (s : str) : Prop :=
  ∃ words : list str,
    s = join [SP] words
    ∧ Forall (λ w, w ≠ [] ∧ Forall (λ c, is_space c = false) w) words.

(** The body of a string literal, read from the left: a backslash takes
    the next character with it, which must be a backslash or a double
    quote; outside such a pair there is no double quote, no newline and no
    carriage return.  [pending] tells that the previous character was an
    escaping backslash. *)
Fixpoint escaped_from (pending : bool) (s : str) : bool :=
  match s with
  | [] => negb pending
  | c :: r =>
    if pending then ((c =? BSL) || (c =? DQ))%N && escaped_from false r
    else if (c =? BSL)%N then escaped_from true r
    else negb ((c =? DQ) || (c =? LF) || (c =? CR))%N && escaped_from false r
  end.

Definition escaped (s : str) : bool := escaped_from false s.

(** ** Vocabulary for [get_function_signature] *)

(** Whether the loop sees a default on a parameter: the outcome of
    [param.default != inspect.Parameter.empty]. *)
Definition default_seen (p : Harvest.parameter) : result bool :=
  match Harvest.p_default p with
  | None => ok false
  | Some (Harvest.PyObject differs _) => differs
  | Some _ => ok true
  end.

(** The rendering rules for one parameter.  A parameter on which a
    default is seen is rendered by the rule of its default, a parameter
    without one by its kind. *)
Inductive renders : Harvest.parameter → str → Prop :=
| renders_str_default name kind value :
    renders (Harvest.MkParameter name kind (Some (Harvest.PyStr value)))
            (name ++ u "='" ++ value ++ u "'")
| renders_none_default name kind :
    renders (Harvest.MkParameter name kind (Some Harvest.PyNone))
            (name ++ u "=None")
| renders_other_default name kind shown :
    renders (Harvest.MkParameter name kind
               (Some (Harvest.PyObject (ok true) (ok shown))))
            (name ++ u "=" ++ shown)
| renders_var_positional p :
    default_seen p = ok false → Harvest.p_kind p = Harvest.VAR_POSITIONAL →
    renders p (u "*" ++ Harvest.p_name p)
| renders_var_keyword p :
    default_seen p = ok false → Harvest.p_kind p = Harvest.VAR_KEYWORD →
    renders p (u "**" ++ Harvest.p_name p)
| renders_bare p :
    default_seen p = ok false →
    Harvest.p_kind p ≠ Harvest.VAR_POSITIONAL → Harvest.p_kind p ≠ Harvest.VAR_KEYWORD →
    renders p (Harvest.p_name p).

(** A parameter whose default cannot be rendered: comparing it with
    [inspect.Parameter.empty] raises, or formatting it does. *)
Inductive fails : Harvest.parameter → exn → Prop :=
| fails_comparing name kind e shown :
    fails (Harvest.MkParameter name kind (Some (Harvest.PyObject (raise e) shown))) e
| fails_formatting name kind e :
    fails (Harvest.MkParameter name kind
             (Some (Harvest.PyObject (ok true) (raise e)))) e.

(** The first parameter of the list that fails, and its exception. *)
Definition first_failure (parameters : list Harvest.parameter) (e : exn) : Prop :=
  ∃ before p after rendered,
    parameters = before ++ p :: after ∧ Forall2 renders before rendered ∧ fails p e.

(** The exceptions [get_function_signature] catches. *)
Definition caught (e : exn) : bool :=
  match e with
  | ValueError | TypeError => true
  | _ => false
  end.

(** Dropping the implicit receiver when it leads the signature, and
    nothing else. *)
Definition drop_leading_receiver (parameters : list Harvest.parameter)
    : list Harvest.parameter :=
  match parameters with
  | p :: rest => if str_eqb (Harvest.p_name p) (u "self") then rest else parameters
  | [] => []
  end.

Module SampleSignature.

(** [def method(self, a, b='x', *args, c=None, d=3, **kw)] *)
Definition method : Harvest.callable :=
  Harvest.MkCallable (Some (u "method"))
    (inr [ Harvest.MkParameter (u "self") Harvest.POSITIONAL_OR_KEYWORD None;
           Harvest.MkParameter (u "a") Harvest.POSITIONAL_OR_KEYWORD None;
           Harvest.MkParameter (u "b") Harvest.POSITIONAL_OR_KEYWORD
                               (Some (Harvest.PyStr (u "x")));
           Harvest.MkParameter (u "args") Harvest.VAR_POSITIONAL None;
           Harvest.MkParameter (u "c") Harvest.KEYWORD_ONLY (Some Harvest.PyNone);
           Harvest.MkParameter (u "d") Harvest.KEYWORD_ONLY
                               (Some (Harvest.PyObject (ok true) (ok (u "3"))));
           Harvest.MkParameter (u "kw") Harvest.VAR_KEYWORD None ]).

(** [def visit(node, self)]: a plain function whose second parameter
    happens to be called [self]. *)
Definition visit_parameters : list Harvest.parameter :=
  [ Harvest.MkParameter (u "node") Harvest.POSITIONAL_OR_KEYWORD None;
    Harvest.MkParameter (u "self") Harvest.POSITIONAL_OR_KEYWORD None ].

Definition visit : Harvest.callable :=
  Harvest.MkCallable (Some (u "visit")) (inr visit_parameters).

(** An object like the built-in [help]: an instance with a [__call__],
    whose signature, [*args] and [**kwds], can be read and which has no
    [__name__]. *)
Definition helper : Harvest.callable :=
  Harvest.MkCallable None
    (inr [ Harvest.MkParameter (u "args") Harvest.VAR_POSITIONAL None;
           Harvest.MkParameter (u "kwds") Harvest.VAR_KEYWORD None ]).

End SampleSignature.

(** ** Vocabulary for the emitters *)

(** An item the emitters can render: it has a name and a documentation. *)
Definition renderable (it : item) : bool :=
  match i_name it, i_doc it with
  | Some _, Some _ => true
  | _, _ => false
  end.

Definition is_constant (it : item) : bool := type_is it (u "constant").
Definition is_function (it : item) : bool := type_is it (u "function").
Definition known_kind (it : item) : bool := is_constant it || is_function it.

(** A record with a version and whose items can all be rendered, as far
    as the emitter of [generate_swift_completions.py] looks at them. *)
Definition renderable_record (data : harvest_record) : bool :=
  negb (is_empty (split_ws (python_version data)))
  && forallb renderable (builtin_functions data)
  && forallb (λ type_name,
                match type_methods data !! type_name with
                | Some methods => forallb renderable methods
                | None => true
                end) Generate.type_order
  && forallb (λ it, negb (known_kind it) || renderable it) (math_module data).

(** A run that ends without an exception. *)
Definition returns_normally {A} (m : run A) : Prop :=
  ∃ a out, m = (inr a, out).

(** The kind of entry a line of an array holds, if any. *)
Inductive entry_kind : Type := ConstantEntry | FunctionEntry.

Definition entry_of_line (line : str) : option entry_kind :=
  if starts_with (u "        .constant(") line then Some ConstantEntry
  else if starts_with (u "        .function(") line then Some FunctionEntry
  else None.

(** The emitted text as the specification of the emitter describes it,
    group by group; the properties below compare it with what the
    functions of [Generate] and [Apply] compute. *)
Module Emitted.

Definition function_entry (it : item) : str :=
  Generate.function_literal (default [] (i_name it)) (default [] (i_params it))
                            (default [] (i_doc it)).

Definition constant_entry (it : item) : str :=
  Generate.constant_literal (default [] (i_name it)) (default [] (i_value it))
                            (default [] (i_doc it)).

Definition line (indent entry : str) : str := indent ++ entry ++ u ",".

Definition header (now : str) : list str :=
  [ u "// MARK: - Generated Python Completions";
    u "// Generated from Python 3.13 documentation using inspect.getdoc()";
    u "// Generated on: " ++ now;
    [] ].

(** Group 1: the built-in functions. *)
Definition builtin_block (items : list item) : str :=
  join [LF]
       ([u "    private static let builtinFunctions: [CompletionItem] = ["]
        ++ map (λ it, line (u "        ") (function_entry it)) items
        ++ [u "    ]"]).

Definition builtin_group (data : harvest_record) : list str :=
  [u "    // MARK: - Built-in Functions"; builtin_block (builtin_functions data); []].

(** Group 2: one block for each type of [type_order] the record has. *)
Definition type_block (type_name : str) (methods : list item) : str :=
  join [LF]
       ([ u "    /// " ++ capitalize type_name
            ++ u " type methods - for use when type inference determines an object is a "
            ++ type_name;
          u "    struct "
            ++ default (capitalize type_name ++ u "Methods") (Generate.type_map !! type_name)
            ++ u " {";
          u "        static let methods: [CompletionItem] = [" ]
        ++ map (λ it, line (u "            ") (function_entry it)) methods
        ++ [u "        ]"; u "    }"]).

Definition type_groups (data : harvest_record) : list str :=
  flat_map (λ type_name,
              match type_methods data !! type_name with
              | Some methods =>
                [ u "    // MARK: - " ++ capitalize type_name ++ u " Methods";
                  type_block type_name methods; [] ]
              | None => []
              end)
           Generate.type_order.

(** Groups 3 and 4: the constants of the module, then its functions, in
    one array. *)
Definition constants_group (items : list item) : list str :=
  let constants := filter (λ it, is_constant it = true) items in
  (if is_empty constants then [] else [u "        // Math module constants"])
  ++ map (λ it, line (u "        ") (constant_entry it)) constants.

Definition functions_group (items : list item) : list str :=
  let constants := filter (λ it, is_constant it = true) items in
  let functions := filter (λ it, is_function it = true) items in
  (if is_empty functions || is_empty constants then []
   else [[]; u "        // Math module functions"])
  ++ map (λ it, line (u "        ") (function_entry it)) functions.

Definition module_lines (items : list item) : list str :=
  [u "    private static let mathModuleCompletions: [CompletionItem] = ["]
  ++ constants_group items ++ functions_group items ++ [u "    ]"].

Definition module_group (data : harvest_record) : list str :=
  [u "    // MARK: - Math Module"; join [LF] (module_lines (math_module data)); []].

End Emitted.

(** ** Vocabulary for the override of [print] *)

(** The item of [print] as the harvester writes it: the default of [end]
    is a newline character. *)
Definition print_item : item :=
  Item None (Some (u "print"))
       (Some [u "*args"; u "sep=' '"; u "end='" ++ [LF] ++ u "'"; u "file=None";
              u "flush=False"])
       None
       (Some (u "Prints the values to a stream, or to sys.stdout by default.")).

(** The override as a table keyed by the name of the item: for [print],
    a newline character inside a parameter becomes [token]; the
    parameters of every other item stay as they are. *)
Definition override_table (token : str) : list (str * (list str → list str)) :=
  [(u "print", map (λ p, replace p [LF] token))].

Definition lookup_override (token name : str) : list str → list str :=
  match list_find (λ entry, entry.1 = name) (override_table token) with
  | Some (_, (_, adjust)) => adjust
  | None => id
  end.

Definition builtin_line_by_lookup (token : str) (it : item) : result str :=
  let! name := getitem (i_name it) (u "name") in
  let! doc := getitem (i_doc it) (u "doc") in
  let params := lookup_override token name (default [] (i_params it)) in
  ok (Emitted.line (u "        ") (Generate.function_literal name params doc)).

(** The number of newline characters of a text. *)
Fixpoint line_feeds (s : str) : nat :=
  match s with
  | [] => 0
  | c :: r => (if (c =? LF)%N then 1 else 0) + line_feeds r
  end.

(** ** Reading an emitted entry back *)

(** A text that can stand between double quotes: read from the left, a
    backslash takes the next character with it, and there is no double
    quote outside such a pair. *)
Fixpoint literal_safe_from (pending : bool) (s : str) : bool :=
  match s with
  | [] => negb pending
  | c :: r =>
    if pending then literal_safe_from false r
    else if (c =? DQ)%N then false
    else literal_safe_from (c =? BSL)%N r
  end.

Definition literal_safe (s : str) : bool := literal_safe_from false s.

Module Reparse.

Inductive parsed : Type :=
| ParsedFunction (name : str) (parameter_count : nat) (documentation : str)
| ParsedConstant (name value documentation : str).

(** Modelled from the spec: the reader of an emitted entry, which the
    scripts do not contain.  [literal_body_from] reads the body of a
    string literal up to its closing double quote and returns the body
    and what follows the quote. *)
Fixpoint literal_body_from (pending : bool) (s : str) : option (str * str) :=
  match s with
  | [] => None
  | c :: r =>
    if pending then prod_map (cons c) id <$> literal_body_from false r
    else if (c =? DQ)%N then Some ([], r)
    else prod_map (cons c) id <$> literal_body_from (c =? BSL)%N r
  end.

Definition literal_body (s : str) : option (str * str) := literal_body_from false s.

Definition expect (literal s : str) : option str :=
  if starts_with literal s then Some (drop (length literal) s) else None.

(** Modelled from the spec: the quoted strings of a bracketed list,
    counted, up to the closing bracket. *)
Fixpoint quoted_list (fuel : nat) (s : str) : option (nat * str) :=
  match fuel with
  | 0 => None
  | S fuel =>
    s ← expect [DQ] s;
    '(_, s) ← literal_body s;
    match expect (u "]") s with
    | Some rest => Some (1, rest)
    | None =>
      s ← expect (u ", ") s;
      prod_map S id <$> quoted_list fuel s
    end
  end.

Definition parameter_list (s : str) : option (nat * str) :=
  match expect (u "]") s with
  | Some rest => Some (0, rest)
  | None => quoted_list (length s) s
  end.

(** Modelled from the spec: reading one literal construction expression
    back into the name, the kind, the number of parameters and the
    documentation. *)
Definition entry (s : str) : option parsed :=
  match expect (u ".function(name: " ++ [DQ]) s with
  | Some s =>
    '(name, s) ← literal_body s;
    s ← expect (u ", parameters: [") s;
    '(count, s) ← parameter_list s;
    s ← expect (u ", documentation: " ++ [DQ]) s;
    '(doc, s) ← literal_body s;
    if str_eqb s (u ")") then Some (ParsedFunction name count doc) else None
  | None =>
    s ← expect (u ".constant(name: " ++ [DQ]) s;
    '(name, s) ← literal_body s;
    s ← expect (u ", value: " ++ [DQ]) s;
    '(value, s) ← literal_body s;
    s ← expect (u ", documentation: " ++ [DQ]) s;
    '(doc, s) ← literal_body s;
    if str_eqb s (u ")") then Some (ParsedConstant name value doc) else None
  end.

(** A line of an array: indentation, an entry and a comma. *)
Definition line (s : str) : option parsed :=
  match reverse (drop_while (λ c, (c =? SP)%N) s) with
  | c :: r => if (c =? 44)%N then entry (reverse r) else None
  | [] => None
  end.

End Reparse.

(** The fields of an item as the model holds them: in the function form,
    which all built-in functions and type methods have and which the tag
    ['function'] names in the module, and in the constant form, which the
    tag ['constant'] names. *)
Definition function_form (it : item) : Reparse.parsed :=
  Reparse.ParsedFunction (default [] (i_name it)) (length (default [] (i_params it)))
                         (default [] (i_doc it)).

Definition constant_form (it : item) : Reparse.parsed :=
  Reparse.ParsedConstant (default [] (i_name it)) (default [] (i_value it))
                         (default [] (i_doc it)).

(** An item whose fields can stand between double quotes, in either
    form; in the module the tag says which form is meant, and an item
    with another tag is not emitted. *)
Definition quotable_function (it : item) : bool :=
  renderable it
  && literal_safe (default [] (i_name it)) && literal_safe (default [] (i_doc it))
  && forallb literal_safe (default [] (i_params it)).

Definition quotable_constant (it : item) : bool :=
  renderable it
  && literal_safe (default [] (i_name it)) && literal_safe (default [] (i_doc it))
  && literal_safe (default [] (i_value it)).

Definition quotable_member (it : item) : bool :=
  if is_constant it then quotable_constant it
  else if is_function it then quotable_function it
  else true.

Module SampleRoundTrip.

(** A function [f] with one parameter [a], whose default is the text
    made of a single quote, a double quote, a comma, a space, a double
    quote, [b=] and a single quote. *)
Definition one_parameter : Harvest.callable :=
  Harvest.MkCallable (Some (u "f"))
    (inr [ Harvest.MkParameter (u "a") Harvest.POSITIONAL_OR_KEYWORD
             (Some (Harvest.PyStr (u "'" ++ [DQ] ++ u ", " ++ [DQ] ++ u "b='"))) ]).

(** [def f(a='', b='')]: two parameters with the empty string as
    default. *)
Definition two_parameters : Harvest.callable :=
  Harvest.MkCallable (Some (u "f"))
    (inr [ Harvest.MkParameter (u "a") Harvest.POSITIONAL_OR_KEYWORD
             (Some (Harvest.PyStr []));
           Harvest.MkParameter (u "b") Harvest.POSITIONAL_OR_KEYWORD
             (Some (Harvest.PyStr [])) ]).

(** The item a harvester writes for a callable with the documentation
    [doc]. *)
Definition harvested (func : Harvest.callable) : item :=
  match Harvest.get_function_signature func with
  | inr (name, params) => Item None (Some name) (Some params) None (Some (u "doc"))
  | inl _ => Item None (Some (u "f")) (Some []) None (Some (u "doc"))
  end.

End SampleRoundTrip.

(** ** Vocabulary for the regular expression *)

(** The texts a pattern matches. *)
Inductive re_matches : list Apply.re_item → str → Prop :=
| re_matches_end : re_matches [] []
| re_matches_literal l p m :
    re_matches p m → re_matches (Apply.Lit l :: p) (l ++ m)
| re_matches_any x p m :
    x ≠ [] → re_matches p m → re_matches (Apply.AnyPlus :: p) (x ++ m)
| re_matches_any_lazy x p m :
    x ≠ [] → re_matches p m → re_matches (Apply.AnyPlusLazy :: p) (x ++ m).

(** The name of the struct the pattern of [main] looks for. *)
Definition searched_struct_name (type_name : str) : str :=
  filter (λ c, c ≠ 40%N ∧ c ≠ 41%N)
         (default [] (last (split_ws (Apply.struct_pattern type_name)))).

(** ** Sample runtime *)

Module SampleRuntime.

Definition function_object (name : str) (parameters : result (list Harvest.parameter))
    (doc : option str) : Harvesting.pyobject :=
  Harvesting.MkObject (Harvest.MkCallable (Some name) parameters) true doc
                      (u "<built-in function>").

Definition constant_object (shown : str) (doc : option str) : Harvesting.pyobject :=
  Harvesting.MkObject (Harvest.MkCallable None (inl TypeError)) false doc shown.

Definition abs_object : Harvesting.pyobject :=
  function_object (u "abs")
    (inr [Harvest.MkParameter (u "x") Harvest.POSITIONAL_ONLY None])
    (Some (u "Return the absolute value of the argument.")).

(** The built-in [help]: it can be called and its signature can be read,
    and it has no [__name__]. *)
Definition help_object : Harvesting.pyobject :=
  Harvesting.MkObject SampleSignature.helper true
                      (Some (u "Define the builtin 'help'.")) (u "Type help()").

(** A callable whose signature cannot be read. *)
Definition max_object : Harvesting.pyobject :=
  function_object (u "max") (inl ValueError)
    (Some (u "max(iterable, *[, default=obj, key=func]) -> value")).

Definition upper_object : Harvesting.pyobject :=
  function_object (u "upper")
    (inr [Harvest.MkParameter (u "self") Harvest.POSITIONAL_ONLY None])
    (Some (u "Return a copy of the string converted to uppercase.")).

Definition str_type : Harvesting.namespace :=
  Harvesting.MkNamespace [u "__add__"; u "__doc__"; u "upper"]
    (λ name, if str_eqb name (u "upper") then Some upper_object
             else if str_eqb name (u "__add__") then Some upper_object
             else None).

Definition empty_type : Harvesting.namespace := Harvesting.MkNamespace [] (λ _, None).

(** A namespace with one public attribute, a callable without
    [__name__]. *)
Definition nameless_holder : Harvesting.namespace :=
  Harvesting.MkNamespace [u "apply"]
    (λ name, if str_eqb name (u "apply") then Some help_object else None).

Definition math_module : Harvesting.namespace :=
  Harvesting.MkNamespace [u "__name__"; u "pi"; u "sin"]
    (λ name, if str_eqb name (u "pi")
             then Some (constant_object (u "3.141592653589793") (Some (u "Convert.")))
             else if str_eqb name (u "sin")
             then Some (function_object (u "sin")
                          (inr [Harvest.MkParameter (u "x") Harvest.POSITIONAL_ONLY None])
                          (Some (u "Return the sine of x (measured in radians).")))
             else None).

Definition runtime : Harvesting.runtime :=
  Harvesting.MkRuntime (u "3.13.0 (main, Oct  7 2024)")
    (<[u "abs" := abs_object]> (<[u "help" := help_object]> (<[u "max" := max_object]> ∅)))
    (λ type_name, if str_eqb type_name (u "str") then str_type else empty_type)
    math_module.

End SampleRuntime.

(** ** Vocabulary for the harvester *)

(** A name that does not begin with an underscore. *)
Definition public (name : str) : bool := negb (starts_with (u "_") name).

(** The item the harvester writes for a built-in function found under
    [name], for the method [name] and for the member [name] of [math].
    Name and parameters are the ones [get_function_signature] returns;
    when it raises, be it for an exception of [inspect.signature] that it
    does not catch or for a callable without [__name__], the name is the
    one the harvester looked up and the parameter list is empty. *)
Definition harvested_builtin (name : str) (func : Harvesting.pyobject) (it : item) : Prop :=
  i_type it = None ∧ i_value it = None
  ∧ i_doc it = Some (Harvest.clean_docstring (Harvesting.o_doc func))
  ∧ match Harvest.get_function_signature (Harvesting.o_function func) with
    | inr (func_name, params) => i_name it = Some func_name ∧ i_params it = Some params
    | inl _ => i_name it = Some name ∧ i_params it = Some []
    end.

Definition harvested_params (attr : Harvesting.pyobject) : list str :=
  match Harvest.get_function_signature (Harvesting.o_function attr) with
  | inr (_, params) => params
  | inl _ => []
  end.

Definition harvested_method (name : str) (attr : Harvesting.pyobject) (it : item) : Prop :=
  it = Item None (Some name) (Some (harvested_params attr)) None
            (Some (Harvest.clean_docstring (Harvesting.o_doc attr))).

Definition harvested_member (name : str) (attr : Harvesting.pyobject) (it : item) : Prop :=
  i_name it = Some (u "math." ++ name)
  ∧ i_doc it = Some (Harvest.clean_docstring (Harvesting.o_doc attr))
  ∧ if Harvesting.o_callable attr
    then is_function it = true ∧ i_params it = Some (harvested_params attr)
         ∧ i_value it = None
    else is_constant it = true ∧ i_value it = Some (Harvesting.o_str attr)
         ∧ i_params it = None.

(** A public name of a type whose attribute is there and can be called. *)
Definition public_callable (type_obj : Harvesting.namespace) (name : str) : bool :=
  public name
  && from_option Harvesting.o_callable false (Harvesting.ns_getattr type_obj name).

(** ** Sample struct regions *)

Module SampleStructs.

(** The text before the first doc comment. *)
Definition head : str := u "enum PythonCompletions {" ++ [LF].

(** A hand-written struct that stands before the one looked for: its doc
    comment is the first of the file. *)
Definition int_part : str :=
  [LF] ++ u "    struct IntMethods {" ++ [LF] ++ u "        static let methods = ["
  ++ [LF] ++ u "        ]" ++ [LF] ++ u "    }" ++ [LF] ++ u "    /// String type methods".

(** The body of the struct looked for. *)
Definition string_body : str :=
  [LF] ++ u "        static let methods = [" ++ [LF] ++ u "            old entry,".

Definition tail : str := [LF] ++ u "}" ++ [LF].

(** A file with the struct of [bytes] under the name the other structs
    suggest. *)
Definition bytes_file : str :=
  head ++ u "    /// Bytes type methods" ++ [LF] ++ u "    struct BytesMethods {"
  ++ string_body ++ [LF] ++ u "        ]" ++ [LF] ++ u "    }" ++ tail.

End SampleStructs.

(** * Properties *)

(** ** Searching in a [str] *)

Lemma starts_with_spec (sub s : str) :
  starts_with sub s = true ↔ ∃ post, s = sub ++ post.
Proof.
  revert s. induction sub as [|a sub IH]; intros s; simpl.
  - split; [intros _; by exists s | done].
  - destruct s as [|b s]; simpl.
    + split; [done | intros [post H]; discriminate].
    + rewrite andb_true_iff, N.eqb_eq, IH. split.
      * intros [-> [post ->]]. by exists post.
      * intros [post H]. injection H as -> ->. eauto.
Qed.

Lemma starts_with_app (sub post : str) : starts_with sub (sub ++ post) = true.
Proof. apply starts_with_spec. by exists post. Qed.

Lemma occurs_at_drop (sub s : str) (i : nat) :
  occurs_at sub s i ↔ i ≤ length s ∧ starts_with sub (drop i s) = true.
Proof.
  unfold occurs_at. rewrite starts_with_spec. split.
  - intros (pre & post & -> & <-). split.
    + rewrite length_app. lia.
    + exists post. by rewrite drop_app_length.
  - intros [Hi [post Hpost]]. exists (take i s), post. split.
    + by rewrite <- Hpost, take_drop.
    + rewrite length_take. lia.
Qed.

Lemma occurs_at_cons (sub : str) (c : char) (s : str) (i : nat) :
  occurs_at sub (c :: s) (S i) ↔ occurs_at sub s i.
Proof. rewrite !occurs_at_drop. simpl. split; intros [? ?]; split; auto; lia. Qed.

Lemma find0_Some (sub s : str) (i : nat) :
  find0 sub s = Some i ↔ first_occurrence sub s 0 i.
Proof.
  unfold first_occurrence. revert i. induction s as [|c s IH]; intros i.
  - simpl. destruct (starts_with sub []) eqn:E.
    + split.
      * intros [= <-]. split; [lia|]. split; [|intros; lia].
        apply occurs_at_drop. simpl. auto.
      * intros (_ & Ho & _). apply occurs_at_drop in Ho as [Hle _].
        simpl in Hle. f_equal. lia.
    + split; [done|]. intros (_ & Ho & _).
      apply occurs_at_drop in Ho as [Hle Hs]. simpl in Hle.
      assert (i = 0) as -> by lia. simpl in Hs. congruence.
  - simpl. destruct (starts_with sub (c :: s)) eqn:E.
    + split.
      * intros [= <-]. split; [lia|]. split; [|intros; lia].
        apply occurs_at_drop. simpl. split; [lia | done].
      * intros (_ & Ho & Hmin). destruct i as [|i]; [done|].
        exfalso. apply (Hmin 0); [lia | lia |].
        apply occurs_at_drop. simpl. split; [lia | done].
    + rewrite fmap_Some. split.
      * intros (k & F & ->). apply IH in F as (_ & Ho & Hmin). split; [lia|].
        split; [by apply occurs_at_cons|].
        intros [|j] _ Hj.
        -- rewrite occurs_at_drop. simpl. intros [_ ?]. congruence.
        -- rewrite occurs_at_cons. apply Hmin; lia.
      * intros (_ & Ho & Hmin). destruct i as [|i].
        -- apply occurs_at_drop in Ho as [_ Ho]. simpl in Ho. congruence.
        -- exists i. split; [|done]. apply IH.
           split; [lia|]. split; [by apply (proj1 (occurs_at_cons sub c s i))|].
           intros j _ Hj Hoj. apply (Hmin (S j)); [lia | lia |].
           by apply (proj2 (occurs_at_cons sub c s j)).
Qed.

Lemma find0_None (sub s : str) :
  find0 sub s = None ↔ absent_from sub s 0.
Proof.
  unfold absent_from. induction s as [|c s IH]; simpl.
  - destruct (starts_with sub []) eqn:E.
    + split; [done|]. intros H. exfalso. apply (H 0); [lia|].
      apply occurs_at_drop. simpl. auto.
    + split; [|done]. intros _ j _ Ho.
      apply occurs_at_drop in Ho as [Hle Hs]. simpl in Hle.
      assert (j = 0) as -> by lia. simpl in Hs. congruence.
  - destruct (starts_with sub (c :: s)) eqn:E.
    + split; [done|]. intros H. exfalso. apply (H 0); [lia|].
      apply occurs_at_drop. simpl. split; [lia | done].
    + rewrite fmap_None, IH. split.
      * intros H [|j] _.
        -- rewrite occurs_at_drop. simpl. intros [_ ?]. congruence.
        -- rewrite occurs_at_cons. apply H. lia.
      * intros H j _ Ho. apply (H (S j)); [lia|].
        by apply (proj2 (occurs_at_cons sub c s j)).
Qed.

Lemma occurs_at_shift (sub s : str) (k i : nat) :
  k ≤ length s → occurs_at sub (drop k s) i ↔ occurs_at sub s (k + i).
Proof.
  intros Hk. rewrite !occurs_at_drop, drop_drop, length_drop.
  split; intros [? ?]; split; auto; lia.
Qed.

Lemma find_Some (s sub : str) (start i : nat) :
  find s sub start = Some i ↔ start ≤ length s ∧ first_occurrence sub s start i.
Proof.
  unfold find. destruct (decide (start ≤ length s)) as [Hle|Hgt].
  - rewrite fmap_Some. split.
    + intros (k & Hk & ->). split; [done|].
      apply find0_Some in Hk as (_ & Ho & Hmin).
      split; [lia|]. split; [by apply occurs_at_shift|].
      intros j Hj1 Hj2 Hoj. apply (Hmin (j - start)); [lia | lia |].
      apply occurs_at_shift; [done|]. by replace (start + (j - start)) with j by lia.
    + intros (_ & Hs & Ho & Hmin). exists (i - start). split; [|lia].
      apply find0_Some. split; [lia|]. split.
      * apply occurs_at_shift; [done|]. by replace (start + (i - start)) with i by lia.
      * intros j _ Hj Hoj. apply (Hmin (start + j)); [lia | lia |].
        by apply occurs_at_shift.
  - split; [done | intros [? _]; lia].
Qed.

Lemma find_None (s sub : str) (start : nat) :
  find s sub start = None ↔ absent_from sub s start.
Proof.
  unfold find, absent_from. destruct (decide (start ≤ length s)) as [Hle|Hgt].
  - rewrite fmap_None, find0_None. unfold absent_from. split.
    + intros H j Hj Ho. apply (H (j - start)); [lia|].
      apply occurs_at_shift; [done|]. by replace (start + (j - start)) with j by lia.
    + intros H j _ Ho. apply (H (start + j)); [lia|]. by apply occurs_at_shift.
  - split; [|done]. intros _ j Hj Ho. apply occurs_at_drop in Ho as [? _]. lia.
Qed.

(** ** [replace_section] *)

(** When both markers are found, the text before the start marker and the
    text from the end marker on are kept and the snippet stands between
    them. *)
Lemma replace_section_found (content start_marker end_marker new_content : str)
    (i j : nat) :
  first_occurrence start_marker content 0 i →
  first_occurrence end_marker content (i + length start_marker) j →
  Apply.replace_section content start_marker end_marker new_content
  = (take i content ++ new_content ++ drop j content, []).
Proof.
  intros Hi Hj. unfold Apply.replace_section.
  assert (find content start_marker 0 = Some i) as ->.
  { apply find_Some. split; [lia | done]. }
  assert (find content end_marker (i + length start_marker) = Some j) as ->; [|done].
  apply find_Some. split; [|done].
  destruct Hi as (_ & (pre & post & -> & <-) & _). rewrite !length_app. lia.
Qed.

(** The text kept behind the snippet begins with the end marker itself. *)
Lemma replace_section_keeps_end_marker
    (content start_marker end_marker new_content : str) (i j : nat) :
  first_occurrence start_marker content 0 i →
  first_occurrence end_marker content (i + length start_marker) j →
  ∃ rest,
    drop j content = end_marker ++ rest
    ∧ Apply.replace_section content start_marker end_marker new_content
      = (take i content ++ new_content ++ end_marker ++ rest, []).
Proof.
  intros Hi Hj. rewrite (replace_section_found _ _ _ _ i j Hi Hj).
  destruct Hj as (_ & Ho & _). apply occurs_at_drop in Ho as [_ Ho].
  apply starts_with_spec in Ho as [rest Hrest]. exists rest. by rewrite Hrest.
Qed.

(** Claim C1.  On a text that holds [BEGIN-BUILTINS] and later [END-BUILTINS],
    [replace_section] keeps the text before the start marker and the text
    from the end marker on, and puts the snippet between them: the start
    marker is replaced and the end marker is kept.  The result is neither
    the one with both markers kept nor the one with both markers
    replaced. *)
Theorem replace_section_marker_conventions :
  let content := Sample.marked_text in
  let result :=
    (Apply.replace_section content (u "BEGIN-BUILTINS") (u "END-BUILTINS") (u "NEW")).1 in
  first_occurrence (u "BEGIN-BUILTINS") content 0 11
  ∧ first_occurrence (u "END-BUILTINS") content (11 + length (u "BEGIN-BUILTINS")) 38
  ∧ result = u "let a = 1; NEWEND-BUILTINS let b = 2;"
  ∧ replaced_exclusive content (u "BEGIN-BUILTINS") (u "NEW") 11 38
    = u "let a = 1; BEGIN-BUILTINSNEWEND-BUILTINS let b = 2;"
  ∧ replaced_inclusive content (u "END-BUILTINS") (u "NEW") 11 38
    = u "let a = 1; NEW let b = 2;"
  ∧ result ≠ replaced_exclusive content (u "BEGIN-BUILTINS") (u "NEW") 11 38
  ∧ result ≠ replaced_inclusive content (u "END-BUILTINS") (u "NEW") 11 38.
Proof.
  cbv zeta. split; [|split]; [| |split; [|split; [|split; [|split]]]].
  - apply find_Some. vm_compute. reflexivity.
  - apply find_Some. vm_compute. reflexivity.
  - vm_compute. reflexivity.
  - vm_compute. reflexivity.
  - vm_compute. reflexivity.
  - vm_compute. discriminate.
  - vm_compute. discriminate.
Qed.

(** Claim C3.  Running [main] on the sample file writes a patched text; running
    it again with the same record on that patched text writes once more,
    a text that is longer by the two end markers: each run leaves one
    more copy of every end marker behind the snippet. *)
Theorem main_second_run_writes_again :
  ∃ once twice : str,
    Apply.main Sample.record Sample.swift_file = (inr (Some once), [])
    ∧ Apply.main Sample.record once = (inr (Some twice), [])
    ∧ twice ≠ once
    ∧ length twice
      = length once + length (u "    ]" ++ Apply.builtins_tail)
        + length (u "    ]" ++ Apply.math_tail).
Proof.
  eexists _, _. split; [vm_compute; reflexivity|].
  split; [vm_compute; reflexivity|].
  split; [|vm_compute; reflexivity].
  intros H. apply (f_equal length) in H. vm_compute in H. discriminate.
Qed.

(** ** [replace], [join], [split] *)

Lemma replace_single (s : str) (c : char) (new : str) :
  replace s [c] new = flat_map (λ x, if (x =? c)%N then new else [x]) s.
Proof.
  unfold replace. induction s as [|x s IH]; [done|].
  cbn [replace_from starts_with flat_map length]. rewrite andb_true_r.
  rewrite (N.eqb_sym c x). destruct (x =? c)%N; simpl; by rewrite IH.
Qed.

Lemma flat_map_flat_map {A B C} (f : A → list B) (g : B → list C) (l : list A) :
  flat_map g (flat_map f l) = flat_map (λ x, flat_map g (f x)) l.
Proof.
  induction l as [|x l IH]; [done|]. simpl. by rewrite flat_map_app, IH.
Qed.

Lemma escape_replaces (s : str) :
  replace (replace (replace (replace s [BSL] [BSL; BSL]) [DQ] [BSL; DQ]) [LF] [SP])
          [CR] [SP]
  = escape s.
Proof.
  rewrite !replace_single, !flat_map_flat_map. unfold escape.
  apply flat_map_ext. intros c. unfold escape_char.
  destruct (N.eqb_spec c BSL) as [->|H1]; [reflexivity|].
  destruct (N.eqb_spec c DQ) as [->|H2]; [reflexivity|].
  cbn [flat_map app]. rewrite !app_nil_r.
  destruct (N.eqb_spec c DQ); [done|]. cbn [flat_map app].
  destruct (N.eqb_spec c LF) as [->|H3]; [reflexivity|].
  cbn [flat_map app orb]. destruct (N.eqb_spec c CR); reflexivity.
Qed.

Lemma drop_while_idem {A} (f : A → bool) (l : list A) :
  drop_while f (drop_while f l) = drop_while f l.
Proof.
  induction l as [|x l IH]; [done|]. simpl.
  destruct (f x) eqn:E; [done|]. simpl. by rewrite E.
Qed.

(** ** [clean_docstring] *)

Section collect.
Local Abbreviation nonblank := (λ l : list N, negb (blank l)).

Lemma collect_nonempty (lines acc : list str) :
  acc ≠ [] → length (join [SP] acc) ≤ 300 →
  ∃ n, Harvest.collect acc lines = acc ++ take n (map strip (take_while nonblank lines))
       ∧ n ≤ length (map strip (take_while nonblank lines))
       ∧ (n = length (map strip (take_while nonblank lines))
          ∨ 300 < length (join [SP] (acc ++ take n (map strip (take_while nonblank lines)))))
       ∧ ∀ m, m < n →
           length (join [SP] (acc ++ take m (map strip (take_while nonblank lines)))) ≤ 300.
Proof.
  revert acc. induction lines as [|line rest IH]; intros acc Hne Hlen.
  - exists 0. simpl. rewrite app_nil_r. split; [done|]. split; [simpl; lia|]. split; [by left|]. intros; lia.
  - simpl. change (blank line) with (is_empty (strip line)).
    destruct (strip line) as [|c stripped] eqn:Es.
    + destruct acc as [|a acc]; [done|]. simpl.
      exists 0. simpl. rewrite app_nil_r. split; [done|]. split; [simpl; lia|]. split; [by left|]. intros; lia.
    + cbn [is_empty negb andb map].
      destruct (300 <? length (join [SP] (acc ++ [c :: stripped]))) eqn:E300.
      * apply Nat.ltb_lt in E300. exists 1. rewrite Es. cbn [firstn length].
        split; [done|]. split; [lia|]. split; [by right|].
        intros m Hm. assert (m = 0) as -> by lia. simpl. by rewrite app_nil_r.
      * apply Nat.ltb_ge in E300.
        destruct (IH (acc ++ [c :: stripped])) as (n & Hc & Hn & Hend & Hprev);
          [by destruct acc | done |].
        exists (S n). rewrite Es. cbn [firstn length].
        rewrite Hc, <- !app_assoc. cbn [app]. split; [done|]. split; [lia|]. split.
        -- destruct Hend as [-> | Hend]; [by left | right].
           by rewrite <- app_assoc in Hend.
        -- intros [|m] Hm; simpl; [by rewrite app_nil_r|].
           specialize (Hprev m ltac:(lia)). by rewrite <- app_assoc in Hprev.
Qed.

Lemma collect_nil (lines : list str) :
  let para := map strip (take_while nonblank (drop_while blank lines)) in
  ∃ n, Harvest.collect [] lines = take n para
       ∧ n ≤ length para
       ∧ (n = length para ∨ 300 < length (join [SP] (take n para)))
       ∧ ∀ m, m < n → length (join [SP] (take m para)) ≤ 300.
Proof.
  cbv zeta. induction lines as [|line rest IH].
  - exists 0. simpl. split; [done|]. split; [simpl; lia|]. split; [by left|]. intros; lia.
  - simpl. change (blank line) with (is_empty (strip line)).
    destruct (strip line) as [|c stripped] eqn:Es.
    + simpl. apply IH.
    + cbn [is_empty negb andb app take_while map].
      change (blank line) with (is_empty (strip line)). rewrite Es.
      cbn [is_empty negb map join].
      destruct (300 <? length (c :: stripped)) eqn:E300.
      * apply Nat.ltb_lt in E300. exists 1. rewrite Es. cbn [firstn length join].
        split; [done|]. split; [lia|]. split; [by right|].
        intros m Hm. assert (m = 0) as -> by lia. simpl. lia.
      * apply Nat.ltb_ge in E300.
        destruct (collect_nonempty rest [c :: stripped]) as (n & Hc & Hn & Hend & Hprev);
          [done | done |].
        exists (S n). rewrite Es. cbn [firstn length].
        rewrite Hc. split; [done|]. split; [lia|]. split.
        -- destruct Hend as [-> | Hend]; [by left | by right].
        -- intros [|m] Hm; [simpl; lia|]. apply (Hprev m). lia.
Qed.
End collect.

Lemma join_cons_cons (sep : str) (c : char) (w : str) (ws : list str) :
  join sep ((c :: w) :: ws) = c :: join sep (w :: ws).
Proof. by destruct ws. Qed.

Lemma split_ws_head (d : char) (r : str) :
  is_space d = false → ∃ w ws, split_ws (d :: r) = w :: ws.
Proof.
  intros Hd. simpl. rewrite Hd. destruct r as [|e r]; [eauto|].
  destruct (is_space e); [eauto|]. destruct (split_ws (e :: r)); eauto.
Qed.

(** One step of [' '.join(s.split())]. *)
Lemma normalize_cons (c : char) (r : str) :
  join [SP] (split_ws (c :: r))
  = if is_space c then join [SP] (split_ws r)
    else c :: match r with
              | [] => []
              | d :: _ =>
                if is_space d
                then if is_empty (split_ws r) then [] else SP :: join [SP] (split_ws r)
                else join [SP] (split_ws r)
              end.
Proof.
  cbn [split_ws]. destruct (is_space c); [done|].
  destruct r as [|d r]; [done|].
  destruct (is_space d) eqn:Hd.
  - destruct (split_ws (d :: r)); done.
  - destruct (split_ws_head d r Hd) as (w & ws & ->). apply join_cons_cons.
Qed.

Lemma split_ws_words (s : str) :
  Forall (λ w, w ≠ [] ∧ Forall (λ c, is_space c = false) w) (split_ws s).
Proof.
  induction s as [|c r IH]; [constructor|].
  cbn [split_ws]. destruct (is_space c) eqn:Hc; [done|].
  destruct r as [|d r]; [repeat constructor; done|].
  destruct (is_space d) eqn:Hd.
  - constructor; [|done]. split; [done|]. by repeat constructor.
  - destruct (split_ws (d :: r)) as [|w ws]; [repeat constructor; done|].
    inversion IH as [|? ? [_ Hw] Hws]; subst.
    constructor; [|done]. split; [done|]. by constructor.
Qed.

Lemma clean_docstring_unfold (doc : str) :
  Harvest.clean_docstring (Some doc)
  = join [SP] (split_ws (escape (join [SP]
      (Harvest.collect [] (drop_while blank (split_char LF (strip doc))))))).
Proof.
  destruct doc as [|c doc]; [reflexivity|].
  unfold Harvest.clean_docstring. cbv zeta. by rewrite escape_replaces.
Qed.

(** Claim C4.  The documentation is the escaped, whitespace-normalized text of
    the first [n] stripped lines of the first paragraph of the docstring.
    Lines are taken until the paragraph ends or until the lines taken,
    joined by spaces, are longer than 300 characters; every shorter run
    of lines is at most 300 characters long when joined.  The result is
    made of non-empty words without whitespace, separated by single
    spaces.  There is no bound on its length. *)
Theorem clean_docstring_first_paragraph (docstring : option str) :
  let doc := default [] docstring in
  ∃ n, n ≤ length (first_paragraph doc)
    ∧ Harvest.clean_docstring docstring
      = join [SP] (split_ws (escape (join [SP] (take n (first_paragraph doc)))))
    ∧ (n = length (first_paragraph doc)
       ∨ 300 < length (join [SP] (take n (first_paragraph doc))))
    ∧ Forall (λ m, length (join [SP] (take m (first_paragraph doc))) ≤ 300) (seq 0 n)
    ∧ whitespace_normalized (Harvest.clean_docstring docstring).
Proof.
  cbv zeta.
  replace (Harvest.clean_docstring docstring)
    with (Harvest.clean_docstring (Some (default [] docstring)))
    by (by destruct docstring).
  generalize (default [] docstring). clear docstring. intros doc.
  rewrite clean_docstring_unfold.
  destruct (collect_nil (drop_while blank (split_char LF (strip doc))))
    as (n & Hc & Hn & Hend & Hprev).
  rewrite drop_while_idem in Hc, Hn, Hend, Hprev.
  exists n. unfold first_paragraph. rewrite Hc.
  split; [done|]. split; [done|]. split; [done|]. split.
  - apply Forall_forall. intros m Hm. apply Hprev.
    apply elem_of_seq in Hm. lia.
  - eexists. split; [done|]. apply split_ws_words.
Qed.

(** A docstring of one line of 301 letters comes back whole. *)
Lemma clean_docstring_over_300 :
  ¬ (length (Harvest.clean_docstring (Some (replicate 301 97%N))) ≤ 300).
Proof. vm_compute. lia. Qed.

(** ** Escaping *)

Lemma escaped_from_escape (s rest : str) :
  escaped_from false (escape s ++ rest) = escaped_from false rest.
Proof.
  unfold escape. induction s as [|c s IH]; [done|].
  cbn [flat_map]. rewrite <- app_assoc. unfold escape_char at 1.
  destruct (N.eqb_spec c BSL) as [->|H1]; [exact IH|].
  destruct (N.eqb_spec c DQ) as [->|H2]; [exact IH|].
  destruct (N.eqb_spec c LF) as [->|H3]; [exact IH|].
  destruct (N.eqb_spec c CR) as [->|H4]; [exact IH|].
  cbn [orb app escaped_from].
  apply N.eqb_neq in H1, H2, H3, H4. by rewrite H1, H2, H3, H4.
Qed.

Lemma not_space_escaping (c : char) :
  ((c =? BSL) || (c =? DQ))%N = true → is_space c = false.
Proof.
  intros H. apply orb_true_iff in H as [H|H]; apply N.eqb_eq in H; by subst.
Qed.

Lemma escaped_from_normalize (s : str) (pending : bool) :
  escaped_from pending s = true →
  escaped_from pending (join [SP] (split_ws s)) = true.
Proof.
  revert pending. induction s as [|c r IH]; intros pending H; [done|].
  rewrite normalize_cons. cbn [escaped_from] in H.
  destruct pending.
  - apply andb_true_iff in H as [Hc Hr].
    rewrite (not_space_escaping c Hc). cbn [escaped_from]. rewrite Hc. cbn [andb].
    destruct r as [|d r]; [done|].
    destruct (is_space d); [|by apply IH].
    destruct (is_empty (split_ws (d :: r))); [done|]. by apply IH.
  - destruct (N.eqb_spec c BSL) as [->|Hb].
    + change (is_space BSL) with false. cbn [escaped_from N.eqb Pos.eqb BSL].
      destruct r as [|d r]; [done|]. cbn [escaped_from] in H.
      apply andb_true_iff in H as [Hd Hr].
      rewrite (not_space_escaping d Hd). apply (IH true). cbn [escaped_from].
      by rewrite Hd, Hr.
    + apply andb_true_iff in H as [Hc Hr].
      destruct (is_space c); [by apply IH|].
      cbn [escaped_from]. apply N.eqb_neq in Hb. rewrite Hb, Hc. cbn [andb].
      destruct r as [|d r]; [done|].
      destruct (is_space d); [|by apply IH].
      destruct (is_empty (split_ws (d :: r))); [done|]. by apply IH.
Qed.

Lemma escaped_from_no_line_break (s : str) (pending : bool) :
  escaped_from pending s = true → (LF ∉ s) ∧ (CR ∉ s).
Proof.
  revert pending. induction s as [|c r IH]; intros pending H.
  - split; apply not_elem_of_nil.
  - cbn [escaped_from] in H. rewrite !not_elem_of_cons. destruct pending.
    + apply andb_true_iff in H as [Hc Hr]. destruct (IH _ Hr).
      apply orb_true_iff in Hc as [Hc|Hc]; apply N.eqb_eq in Hc; subst; done.
    + destruct (N.eqb_spec c BSL) as [->|Hb].
      * destruct (IH _ H). done.
      * apply andb_true_iff in H as [Hc Hr]. destruct (IH _ Hr).
        apply negb_true_iff, orb_false_iff in Hc as [Hc Hcr].
        apply orb_false_iff in Hc as [_ Hlf].
        apply N.eqb_neq in Hlf, Hcr. done.
Qed.

Lemma escaped_from_quote (s : str) (pending : bool) (i : nat) :
  escaped_from pending s = true → s !! i = Some DQ →
  (pending = true ∧ i = 0) ∨ ∃ j, i = S j ∧ s !! j = Some BSL.
Proof.
  revert pending i. induction s as [|c r IH]; intros pending i H Hi; [done|].
  cbn [escaped_from] in H. destruct pending.
  - apply andb_true_iff in H as [_ Hr]. destruct i as [|i]; [by left|]. right.
    destruct (IH _ _ Hr Hi) as [[? _] | (j & -> & Hj)]; [done|]. by exists (S j).
  - destruct (N.eqb_spec c BSL) as [->|Hb].
    + destruct i as [|i]; [done|]. right.
      destruct (IH _ _ H Hi) as [[_ ->] | (j & -> & Hj)]; [by exists 0|]. by exists (S j).
    + apply andb_true_iff in H as [Hc Hr]. destruct i as [|i].
      * injection Hi as ->. done.
      * right. destruct (IH _ _ Hr Hi) as [[? _] | (j & -> & Hj)]; [done|].
        by exists (S j).
Qed.

Lemma escaped_from_backslash (s : str) (pending : bool) (i : nat) :
  escaped_from pending s = true → s !! i = Some BSL →
  (pending = true ∧ i = 0)
  ∨ (∃ j, i = S j ∧ s !! j = Some BSL)
  ∨ s !! (S i) = Some BSL ∨ s !! (S i) = Some DQ.
Proof.
  revert pending i. induction s as [|c r IH]; intros pending i H Hi; [done|].
  cbn [escaped_from] in H. destruct pending.
  - apply andb_true_iff in H as [_ Hr]. destruct i as [|i]; [by left|]. right.
    destruct (IH _ _ Hr Hi) as [[? _] | [(j & -> & Hj) | Hnext]]; [done | |].
    + left. by exists (S j).
    + by right.
  - destruct (N.eqb_spec c BSL) as [->|Hb].
    + destruct i as [|i].
      * right. right. destruct r as [|d r]; [done|]. cbn [escaped_from] in H.
        apply andb_true_iff in H as [Hd _].
        apply orb_true_iff in Hd as [Hd|Hd]; apply N.eqb_eq in Hd; subst; auto.
      * right. destruct (IH _ _ H Hi) as [[_ ->] | [(j & -> & Hj) | Hnext]].
        -- left. by exists 0.
        -- left. by exists (S j).
        -- by right.
    + apply andb_true_iff in H as [Hc Hr]. destruct i as [|i].
      * injection Hi as ->. done.
      * right. destruct (IH _ _ Hr Hi) as [[? _] | [(j & -> & Hj) | Hnext]]; [done | |].
        -- left. by exists (S j).
        -- by right.
Qed.

(** Claim C5.  The text [clean_docstring] returns reads as the body of a string
    literal: it holds no newline and no carriage return, every backslash
    in it either escapes the backslash or double quote that follows it or
    is itself escaped by the backslash before it, and every double quote
    has a backslash before it. *)
Theorem clean_docstring_escaped (doc : option str) :
  escaped (Harvest.clean_docstring doc) = true
  ∧ (LF ∉ Harvest.clean_docstring doc)
  ∧ (CR ∉ Harvest.clean_docstring doc)
  ∧ (∀ i, Harvest.clean_docstring doc !! i = Some DQ →
          ∃ j, i = S j ∧ Harvest.clean_docstring doc !! j = Some BSL)
  ∧ (∀ i, Harvest.clean_docstring doc !! i = Some BSL →
          (∃ j, i = S j ∧ Harvest.clean_docstring doc !! j = Some BSL)
          ∨ Harvest.clean_docstring doc !! (S i) = Some BSL
          ∨ Harvest.clean_docstring doc !! (S i) = Some DQ).
Proof.
  assert (escaped (Harvest.clean_docstring doc) = true) as He.
  { destruct doc as [doc|]; [|done]. rewrite clean_docstring_unfold.
    apply escaped_from_normalize.
    rewrite <- (app_nil_r (escape _)). by rewrite escaped_from_escape. }
  split; [done|]. destruct (escaped_from_no_line_break _ _ He) as [Hlf Hcr].
  split; [done|]. split; [done|]. split.
  - intros i Hi. by destruct (escaped_from_quote _ _ _ He Hi) as [[? _]|?].
  - intros i Hi. by destruct (escaped_from_backslash _ _ _ He Hi) as [[? _]|?].
Qed.

(** In the documentation of a docstring that quotes a word after four
    characters, the first double quote stands at index 5, behind a
    backslash. *)
Lemma clean_docstring_escaped_witness :
  ∃ j, 5 = S j
       ∧ Harvest.clean_docstring (Some (u "say " ++ [DQ] ++ u "hi" ++ [DQ])) !! j
         = Some BSL.
Proof.
  apply (proj1 (proj2 (proj2 (proj2
           (clean_docstring_escaped (Some (u "say " ++ [DQ] ++ u "hi" ++ [DQ]))))))).
  vm_compute. reflexivity.
Defined.

(** ** [get_function_signature] *)

Lemma param_str_renders (p : Harvest.parameter) (rendered : str) :
  Harvest.param_str p = ok rendered ↔ renders p rendered.
Proof.
  split.
  - destruct p as [name kind [[value| |[e|[|]] [e'|shown]]|]];
      unfold Harvest.param_str, Harvest.param_str_by_kind, ok; cbn;
      intros [= <-]; try (by constructor);
      destruct kind; by constructor.
  - unfold Harvest.param_str, Harvest.param_str_by_kind, default_seen.
    destruct 1 as [| | |p Hd Hk|p Hd Hk|p Hd Hk1 Hk2]; cbn; try done;
      destruct p as [name kind [[value| |[e|[|]] shown]|]]; cbn in *;
      try discriminate; try (by rewrite Hk); by destruct kind.
Qed.

Lemma param_str_fails (p : Harvest.parameter) (e : exn) :
  Harvest.param_str p = raise e ↔ fails p e.
Proof.
  split.
  - destruct p as [name kind [[value| |[e'|[|]] [e''|shown]]|]];
      unfold Harvest.param_str, ok, raise; cbn; intros [= <-]; constructor.
  - by destruct 1.
Qed.

Lemma param_str_outcome (p : Harvest.parameter) :
  (∃ rendered, renders p rendered) ∨ (∃ e, fails p e).
Proof.
  destruct (Harvest.param_str p) as [e|rendered] eqn:E.
  - right. exists e. by apply param_str_fails.
  - left. exists rendered. by apply param_str_renders.
Qed.

Lemma signature_loop_renders (parameters : list Harvest.parameter)
    (acc rendered : list str) :
  Forall2 renders (filter (λ p, Harvest.p_name p ≠ u "self") parameters) rendered →
  Harvest.signature_loop acc parameters = ok (acc ++ rendered).
Proof.
  revert acc rendered. induction parameters as [|p ps IH]; intros acc rendered H.
  - apply Forall2_nil_inv_l in H as ->. by rewrite app_nil_r.
  - cbn [Harvest.signature_loop]. unfold str_eqb. rewrite filter_cons in H.
    destruct (decide (Harvest.p_name p = u "self")) as [Heq|Hne].
    + rewrite bool_decide_eq_true_2 by done. rewrite decide_False in H by auto.
      by apply IH.
    + rewrite bool_decide_eq_false_2 by done. rewrite decide_True in H by done.
      apply Forall2_cons_inv_l in H as (r & rs & Hr & Hrs & ->).
      apply param_str_renders in Hr. rewrite Hr. unfold ok. cbn [rbind].
      rewrite (IH _ rs Hrs). by rewrite <- app_assoc.
Qed.

Lemma signature_loop_fails (parameters : list Harvest.parameter) (acc : list str)
    (e : exn) :
  first_failure (filter (λ p, Harvest.p_name p ≠ u "self") parameters) e →
  Harvest.signature_loop acc parameters = raise e.
Proof.
  revert acc. induction parameters as [|p ps IH];
    intros acc (before & q & after & rendered & Hsplit & Hbefore & Hq).
  - by destruct before.
  - cbn [Harvest.signature_loop]. unfold str_eqb. rewrite filter_cons in Hsplit.
    destruct (decide (Harvest.p_name p = u "self")) as [Heq|Hne].
    + rewrite bool_decide_eq_true_2 by done. rewrite decide_False in Hsplit by auto.
      apply IH. by exists before, q, after, rendered.
    + rewrite bool_decide_eq_false_2 by done. rewrite decide_True in Hsplit by done.
      destruct before as [|b before].
      * injection Hsplit as -> _. apply param_str_fails in Hq. by rewrite Hq.
      * injection Hsplit as -> Hsplit.
        apply Forall2_cons_inv_l in Hbefore as (r & rs & Hr & Hrs & ->).
        apply param_str_renders in Hr. rewrite Hr. unfold ok. cbn [rbind].
        apply IH. by exists before, q, after, rs.
Qed.

Lemma signature_loop_outcome (parameters : list Harvest.parameter) :
  (∃ rendered, Forall2 renders parameters rendered) ∨ (∃ e, first_failure parameters e).
Proof.
  induction parameters as [|p ps IH]; [left; by exists []|].
  destruct (param_str_outcome p) as [[r Hr]|[e He]].
  - destruct IH as [[rs Hrs]|(e & before & q & after & rendered & -> & Hb & Hq)].
    + left. exists (r :: rs). by constructor.
    + right. exists e, (p :: before), q, after, (r :: rendered).
      split; [done|]. split; [by constructor | done].
  - right. exists e, [], p, ps, []. split; [done|]. split; [constructor | done].
Qed.

(** Claim C6.  [get_function_signature] on a callable whose signature can
    be read: the parameters called [self] are left out, wherever they
    stand, and the others are rendered in signature order, [name='value']
    for a string default, [name=None] for a [None] default,
    [name=<formatted default>] for any other default that is seen,
    [*name] and [**name] for the variadic parameters and the bare name
    otherwise; the result is the [__name__] of the callable with this
    list.  When reading the signature, or comparing or formatting a
    default, raises [ValueError] or [TypeError], the result is the
    [__name__] with the empty list; any other exception leaves the
    function.  In all cases a callable without [__name__] makes the
    function raise [AttributeError], although its signature can be
    read. *)
Theorem get_function_signature_rendering (func : Harvest.callable) :
  let named (params : list str) : result (str * list str) :=
    match Harvest.f_name func with
    | Some name => ok (name, params)
    | None => raise (AttributeError (u "__name__"))
    end in
  match Harvest.f_signature func with
  | inr parameters =>
    let kept := filter (λ p, Harvest.p_name p ≠ u "self") parameters in
    (∀ rendered, Forall2 renders kept rendered →
       Harvest.get_function_signature func = named rendered)
    ∧ (∀ e, first_failure kept e →
         Harvest.get_function_signature func = if caught e then named [] else raise e)
    ∧ ((∃ rendered, Forall2 renders kept rendered) ∨ (∃ e, first_failure kept e))
  | inl e =>
    Harvest.get_function_signature func = if caught e then named [] else raise e
  end.
Proof.
  cbv zeta. unfold Harvest.get_function_signature, Harvest.name_of.
  destruct (Harvest.f_signature func) as [e|parameters].
  - by destruct e, (Harvest.f_name func).
  - split; [|split].
    + intros rendered H. unfold ok at 1. cbn [rbind].
      rewrite (signature_loop_renders _ [] rendered H).
      by destruct (Harvest.f_name func).
    + intros e H. unfold ok at 1. cbn [rbind].
      rewrite (signature_loop_fails _ [] e H).
      by destruct e, (Harvest.f_name func).
    + apply signature_loop_outcome.
Qed.

(** The signature of the sample method is rendered under its name. *)
Lemma get_function_signature_rendering_witness :
  Harvest.get_function_signature SampleSignature.method
  = ok (u "method", [u "a"; u "b='x'"; u "*args"; u "c=None"; u "d=3"; u "**kw"]).
Proof.
  apply (proj1 (get_function_signature_rendering SampleSignature.method)).
  unfold SampleSignature.method. cbn [Harvest.f_signature].
  rewrite !filter_cons, filter_nil.
  rewrite decide_False by (intros H; apply H; reflexivity).
  rewrite !decide_True by (vm_compute; discriminate).
  repeat (constructor; [apply param_str_renders; vm_compute; reflexivity|]).
  constructor.
Defined.

(** Two callables on which the rendering differs from dropping the leading receiver of a readable signature: a parameter called [self] in second place is dropped although no receiver leads the signature, and an object without [__name__], like the built-in [help], makes the function raise although its signature is read and its parameters can be rendered. *)
Lemma get_function_signature_divergences :
  (Harvest.get_function_signature SampleSignature.visit = ok (u "visit", [u "node"])
   ∧ Forall2 renders (drop_leading_receiver SampleSignature.visit_parameters)
             [u "node"; u "self"]
   ∧ Harvest.get_function_signature SampleSignature.visit
     ≠ ok (u "visit", [u "node"; u "self"]))
  ∧ (Harvest.f_signature SampleSignature.helper
     = inr [ Harvest.MkParameter (u "args") Harvest.VAR_POSITIONAL None;
             Harvest.MkParameter (u "kwds") Harvest.VAR_KEYWORD None ]
     ∧ Forall2 renders
               [ Harvest.MkParameter (u "args") Harvest.VAR_POSITIONAL None;
                 Harvest.MkParameter (u "kwds") Harvest.VAR_KEYWORD None ]
               [u "*args"; u "**kwds"]
     ∧ Harvest.get_function_signature SampleSignature.helper
       = raise (AttributeError (u "__name__"))).
Proof.
  split; [split; [|split] | split; [|split]].
  - vm_compute. reflexivity.
  - repeat (constructor; [by apply renders_bare|]). constructor.
  - vm_compute. discriminate.
  - reflexivity.
  - constructor; [by apply renders_var_positional|].
    constructor; [by apply renders_var_keyword|]. constructor.
  - vm_compute. reflexivity.
Qed.

(** ** The emitters *)

Lemma forallb_Forall_true {A} (f : A → bool) (l : list A) :
  forallb f l = true ↔ Forall (λ x, f x = true) l.
Proof.
  induction l as [|x l IH]; simpl.
  - split; [constructor | done].
  - rewrite andb_true_iff, IH, Forall_cons. done.
Qed.

Lemma rmap_ok {A B} (f : A → result B) (g : A → B) (l : list A) :
  Forall (λ x, f x = ok (g x)) l → rmap f l = ok (map g l).
Proof.
  induction 1 as [|x l Hx _ IH]; [done|]. simpl. rewrite Hx. simpl. by rewrite IH.
Qed.

Lemma rmap_ext {A B} (f g : A → result B) (l : list A) :
  Forall (λ x, f x = g x) l → rmap f l = rmap g l.
Proof.
  induction 1 as [|x l Hx _ IH]; [done|]. simpl. by rewrite Hx, IH.
Qed.

Lemma format_function_renderable (it : item) :
  renderable it = true →
  Generate.format_swift_array_item it false = ok (Emitted.function_entry it).
Proof.
  unfold renderable, Generate.format_swift_array_item, Emitted.function_entry.
  by destruct (i_name it), (i_doc it).
Qed.

Lemma format_constant_renderable (it : item) :
  renderable it = true →
  Generate.format_swift_array_item it true = ok (Emitted.constant_entry it).
Proof.
  unfold renderable, Generate.format_swift_array_item, Emitted.constant_entry.
  by destruct (i_name it), (i_doc it).
Qed.

Lemma array_line_renderable (indent : str) (it : item) :
  renderable it = true →
  Generate.array_line indent false it = ok (Emitted.line indent (Emitted.function_entry it))
  ∧ Generate.array_line indent true it = ok (Emitted.line indent (Emitted.constant_entry it)).
Proof.
  intros H. unfold Generate.array_line, Emitted.line.
  rewrite format_function_renderable, format_constant_renderable by done.
  unfold ok. cbn [rbind]. by rewrite <- !app_assoc.
Qed.

Lemma rmap_array_line (indent : str) (items : list item) :
  forallb renderable items = true →
  rmap (Generate.array_line indent false) items
  = ok (map (λ it, Emitted.line indent (Emitted.function_entry it)) items)
  ∧ rmap (Generate.array_line indent true) items
    = ok (map (λ it, Emitted.line indent (Emitted.constant_entry it)) items).
Proof.
  intros H. apply forallb_Forall_true in H.
  split; apply rmap_ok; eapply Forall_impl; try exact H;
    intros it Hit; by apply array_line_renderable.
Qed.

Lemma generate_builtin_functions_renderable (items : list item) :
  forallb renderable items = true →
  Generate.generate_builtin_functions items = ok (Emitted.builtin_block items).
Proof.
  intros H. unfold Generate.generate_builtin_functions, Emitted.builtin_block.
  rewrite (proj1 (rmap_array_line _ _ H)). unfold ok. cbn [rbind].
  by rewrite <- !app_assoc.
Qed.

Lemma generate_type_methods_renderable (type_name : str) (methods : list item) :
  forallb renderable methods = true →
  Generate.generate_type_methods type_name methods
  = ok (Emitted.type_block type_name methods).
Proof.
  intros H. unfold Generate.generate_type_methods, Emitted.type_block.
  rewrite (proj1 (rmap_array_line _ _ H)). unfold ok. cbn [rbind].
  by rewrite <- !app_assoc.
Qed.

Lemma forallb_filter_known (kind : item → bool) (items : list item) :
  (∀ it, kind it = true → known_kind it = true) →
  forallb (λ it, negb (known_kind it) || renderable it) items = true →
  forallb renderable (filter (λ it, kind it = true) items) = true.
Proof.
  intros Hk H. apply forallb_Forall_true in H. apply forallb_Forall_true.
  induction H as [|it items Hit _ IH]; [done|].
  rewrite filter_cons. destruct (decide (kind it = true)) as [Hc|Hc]; [|done].
  constructor; [|done]. rewrite (Hk it Hc) in Hit. done.
Qed.

Lemma math_module_lines_renderable (items : list item) :
  forallb (λ it, negb (known_kind it) || renderable it) items = true →
  Generate.math_module_lines items = ok (Emitted.module_lines items).
Proof.
  intros H. unfold Generate.math_module_lines, Emitted.module_lines,
    Emitted.constants_group, Emitted.functions_group. cbv zeta.
  change (λ it : item, type_is it (u "constant") = true)
    with (λ it : item, is_constant it = true).
  change (λ it : item, type_is it (u "function") = true)
    with (λ it : item, is_function it = true).
  rewrite (proj2 (rmap_array_line _ _
             (forallb_filter_known is_constant items
                (λ it Hc, orb_true_intro _ _ (or_introl Hc)) H))).
  rewrite (proj1 (rmap_array_line _ _
             (forallb_filter_known is_function items
                (λ it Hc, orb_true_intro _ _ (or_intror Hc)) H))).
  unfold ok. cbn [rbind]. f_equal.
  destruct (filter (λ it, is_constant it = true) items);
    destruct (filter (λ it, is_function it = true) items);
    cbn [is_empty negb andb orb]; by rewrite <- ?app_assoc.
Qed.

Lemma type_methods_loop_renderable (data : harvest_record) (types swift_code : list str) :
  forallb (λ type_name,
             match type_methods data !! type_name with
             | Some methods => forallb renderable methods
             | None => true
             end) types = true →
  Generate.type_methods_loop (type_methods data) swift_code types
  = ok (swift_code
        ++ flat_map (λ type_name,
              match type_methods data !! type_name with
              | Some methods =>
                [ u "    // MARK: - " ++ capitalize type_name ++ u " Methods";
                  Emitted.type_block type_name methods; [] ]
              | None => []
              end) types).
Proof.
  revert swift_code. induction types as [|t types IH]; intros swift_code H.
  - simpl. by rewrite app_nil_r.
  - cbn [forallb] in H. apply andb_true_iff in H as [Ht H].
    cbn [Generate.type_methods_loop flat_map].
    destruct (type_methods data !! t) as [methods|].
    + rewrite generate_type_methods_renderable by done. unfold ok. cbn [rbind].
      rewrite IH by done. unfold ok. by rewrite <- !app_assoc.
    + by rewrite IH.
Qed.

Lemma main_renderable (now : str) (data : harvest_record) :
  renderable_record data = true →
  Generate.main now data
  = ok (join [LF] (Emitted.header now ++ Emitted.builtin_group data
                   ++ Emitted.type_groups data ++ Emitted.module_group data)).
Proof.
  unfold renderable_record. rewrite !andb_true_iff. intros [[[Hv Hb] Ht] Hm].
  unfold Generate.main, Generate.generate_math_module, loaded_version. cbv zeta.
  destruct (split_ws (python_version data)); [done|]. unfold ok at 1. cbn [rbind].
  rewrite generate_builtin_functions_renderable by done. unfold ok at 1. cbn [rbind].
  rewrite type_methods_loop_renderable by done. unfold ok at 1. cbn [rbind].
  rewrite math_module_lines_renderable by done. unfold ok at 1 2. cbn [rbind].
  unfold ok. f_equal. f_equal.
  unfold Emitted.header, Emitted.builtin_group, Emitted.type_groups, Emitted.module_group.
  by rewrite <- !app_assoc.
Qed.

Lemma entry_of_constant_line (it : item) :
  entry_of_line (Emitted.line (u "        ") (Emitted.constant_entry it))
  = Some ConstantEntry.
Proof. reflexivity. Qed.

Lemma entry_of_function_line (it : item) :
  entry_of_line (Emitted.line (u "        ") (Emitted.function_entry it))
  = Some FunctionEntry.
Proof. reflexivity. Qed.

Lemma constants_group_entries (items : list item) :
  Forall (λ l, entry_of_line l ≠ Some FunctionEntry) (Emitted.constants_group items).
Proof.
  unfold Emitted.constants_group. cbv zeta. apply Forall_app. split.
  - destruct (is_empty _); repeat constructor. vm_compute. discriminate.
  - apply Forall_fmap, Forall_forall. intros it _. simpl.
    rewrite entry_of_constant_line. discriminate.
Qed.

Lemma functions_group_entries (items : list item) :
  Forall (λ l, entry_of_line l ≠ Some ConstantEntry) (Emitted.functions_group items).
Proof.
  unfold Emitted.functions_group. cbv zeta. apply Forall_app. split.
  - destruct (_ || _); repeat constructor; vm_compute; discriminate.
  - apply Forall_fmap, Forall_forall. intros it _. simpl.
    rewrite entry_of_function_line. discriminate.
Qed.

Lemma rmap_inv {A B} (f : A → result B) (l : list A) (ys : list B) :
  rmap f l = ok ys → Forall2 (λ x y, f x = ok y) l ys.
Proof.
  revert ys. induction l as [|x l IH]; intros ys H; simpl in H.
  - injection H as <-. constructor.
  - destruct (f x) as [e|y] eqn:Ex; [done|]. simpl in H.
    destruct (rmap f l) as [e|ys'] eqn:El; [done|]. simpl in H.
    injection H as <-. constructor; [done | by apply IH].
Qed.

Lemma array_line_ok (indent : str) (is_constant : bool) (it : item) (line : str) :
  Generate.array_line indent is_constant it = ok line → renderable it = true.
Proof.
  unfold Generate.array_line, Generate.format_swift_array_item, renderable.
  by destruct is_constant, (i_name it), (i_doc it).
Qed.

Lemma rmap_array_line_ok (indent : str) (is_constant : bool) (items : list item)
    (lines : list str) :
  rmap (Generate.array_line indent is_constant) items = ok lines →
  forallb renderable items = true.
Proof.
  intros H. apply rmap_inv in H. apply forallb_Forall_true.
  induction H as [|it line items lines Hit _ IH]; constructor; [|done].
  by eapply array_line_ok.
Qed.

Lemma math_module_lines_ok (items : list item) (lines : list str) :
  Generate.math_module_lines items = ok lines →
  forallb (λ it, negb (known_kind it) || renderable it) items = true.
Proof.
  unfold Generate.math_module_lines. cbv zeta. intros H.
  destruct (rmap _ (filter (λ it, type_is it (u "constant") = true) items))
    as [e|cl] eqn:Ec; [done|].
  destruct (rmap _ (filter (λ it, type_is it (u "function") = true) items))
    as [e|fl] eqn:Ef; [done|].
  apply rmap_array_line_ok, forallb_Forall_true in Ec, Ef.
  rewrite Forall_forall in Ec, Ef.
  apply forallb_Forall_true, Forall_forall. intros it Hit.
  unfold known_kind, is_constant, is_function.
  destruct (type_is it (u "constant")) eqn:Hc.
  - rewrite Ec; [done|]. by apply list_elem_of_filter.
  - destruct (type_is it (u "function")) eqn:Hf; [|done].
    rewrite Ef; [done|]. by apply list_elem_of_filter.
Qed.

Lemma type_methods_loop_ok (tm : gmap (list N) (list item))
    (types swift_code out : list str) :
  Generate.type_methods_loop tm swift_code types = ok out →
  forallb (λ type_name,
             match tm !! type_name with
             | Some methods => forallb renderable methods
             | None => true
             end) types = true.
Proof.
  revert swift_code. induction types as [|t types IH]; intros swift_code H; [done|].
  cbn [Generate.type_methods_loop forallb] in *.
  destruct (tm !! t) as [methods|]; [|by eapply IH].
  unfold Generate.generate_type_methods in H. cbv zeta in H.
  destruct (rmap _ methods) as [e|body] eqn:Em; [done|].
  apply rmap_array_line_ok in Em. rewrite Em. cbn [andb].
  unfold ok in H. cbn [rbind] in H. by eapply IH.
Qed.

Lemma main_ok_renderable (now : str) (data : harvest_record) (out : str) :
  Generate.main now data = ok out → renderable_record data = true.
Proof.
  unfold Generate.main, renderable_record, loaded_version. cbv zeta. intros H.
  destruct (split_ws (python_version data)); [done|]. unfold ok at 1 in H.
  cbn [rbind] in H.
  unfold Generate.generate_builtin_functions in H. cbv zeta in H.
  destruct (rmap _ (builtin_functions data)) as [e|body] eqn:Eb; [done|].
  apply rmap_array_line_ok in Eb. rewrite Eb. unfold ok at 1 in H. cbn [rbind] in H.
  destruct (Generate.type_methods_loop _ _ _) as [e|code] eqn:Et; [done|].
  apply type_methods_loop_ok in Et. rewrite Et. cbn [rbind] in H.
  unfold Generate.generate_math_module in H.
  destruct (Generate.math_module_lines _) as [e|lines] eqn:Em; [done|].
  apply math_module_lines_ok in Em. by rewrite Em.
Qed.

(** Claim C7.  For a record whose items have a name and a documentation,
    [main] writes, after the header, the group of the built-in functions,
    then the blocks of the types the record has, in the order of
    [type_order], then the module block.  The module block lists the
    constants in the order of the record, then the functions in the order
    of the record: it splits into a first part without any function entry
    and a second part without any constant entry.  [main] writes nothing
    for any other record. *)
Theorem emission_order (now : str) (data : harvest_record) :
  (∀ out, Generate.main now data = ok out → renderable_record data = true)
  ∧ (renderable_record data = true →
  Generate.main now data
  = ok (join [LF] (Emitted.header now ++ Emitted.builtin_group data
                   ++ Emitted.type_groups data ++ Emitted.module_group data))
  ∧ Generate.math_module_lines (math_module data)
    = ok (([u "    private static let mathModuleCompletions: [CompletionItem] = ["]
           ++ Emitted.constants_group (math_module data))
          ++ (Emitted.functions_group (math_module data) ++ [u "    ]"]))
  ∧ Forall (λ l, entry_of_line l ≠ Some FunctionEntry)
           ([u "    private static let mathModuleCompletions: [CompletionItem] = ["]
            ++ Emitted.constants_group (math_module data))
  ∧ Forall (λ l, entry_of_line l ≠ Some ConstantEntry)
           (Emitted.functions_group (math_module data) ++ [u "    ]"])).
Proof.
  split; [intros out; apply main_ok_renderable|].
  intros H. split; [by apply main_renderable|]. split; [|split].
  - unfold renderable_record in H. apply andb_true_iff in H as [_ Hm].
    rewrite math_module_lines_renderable by done.
    unfold Emitted.module_lines. by rewrite <- !app_assoc.
  - apply Forall_app. split; [|apply constants_group_entries].
    repeat constructor. vm_compute. discriminate.
  - apply Forall_app. split; [apply functions_group_entries|].
    repeat constructor. vm_compute. discriminate.
Qed.

(** The sample record is emitted group by group. *)
Lemma emission_order_witness :
  Generate.main (u "2025-01-01T00:00:00") Sample.record
  = ok (join [LF] (Emitted.header (u "2025-01-01T00:00:00")
                   ++ Emitted.builtin_group Sample.record
                   ++ Emitted.type_groups Sample.record
                   ++ Emitted.module_group Sample.record)).
Proof.
  apply (proj2 (emission_order (u "2025-01-01T00:00:00") Sample.record)).
  vm_compute. reflexivity.
Defined.

Example module_block_sample :
  Generate.math_module_lines [Sample.sin_item; Sample.pi_item]
  = ok [ u "    private static let mathModuleCompletions: [CompletionItem] = [";
         u "        // Math module constants";
         (u "        .constant(name: " ++ [DQ] ++ u "math.pi" ++ [DQ] ++ u ", value: "
            ++ [DQ] ++ u "3.141592653589793" ++ [DQ] ++ u ", documentation: "
            ++ [DQ] ++ u "The mathematical constant pi." ++ [DQ] ++ u "),");
         [];
         u "        // Math module functions";
         (u "        .function(name: " ++ [DQ] ++ u "math.sin" ++ [DQ]
            ++ u ", parameters: [" ++ [DQ] ++ u "x" ++ [DQ] ++ u "], documentation: "
            ++ [DQ] ++ u "Return the sine of x (measured in radians)." ++ [DQ] ++ u "),");
         u "    ]" ].
Proof. vm_compute. reflexivity. Qed.

(** ** The module block and the kind tag *)

Lemma filter_filter_implied {A} (P Q : A → Prop)
    `{∀ x, Decision (P x)} `{∀ x, Decision (Q x)} (l : list A) :
  (∀ x, P x → Q x) → filter P (filter Q l) = filter P l.
Proof.
  intros HPQ. induction l as [|x l IH]; [done|].
  rewrite !filter_cons. destruct (decide (Q x)) as [HQ|HQ].
  - rewrite filter_cons. destruct (decide (P x)); by rewrite IH.
  - rewrite decide_False by auto. done.
Qed.

Lemma filter_known_constant (data : list item) :
  filter (λ it, type_is it (u "constant") = true)
         (filter (λ it, known_kind it = true) data)
  = filter (λ it, type_is it (u "constant") = true) data.
Proof.
  apply filter_filter_implied. intros it H. unfold known_kind, is_constant.
  by rewrite H.
Qed.

Lemma filter_known_function (data : list item) :
  filter (λ it, type_is it (u "function") = true)
         (filter (λ it, known_kind it = true) data)
  = filter (λ it, type_is it (u "function") = true) data.
Proof.
  apply filter_filter_implied. intros it H. unfold known_kind, is_function.
  rewrite H. apply orb_true_r.
Qed.

Lemma apply_constant_line (it : item) :
  Apply.constant_line it = Generate.array_line (u "        ") true it.
Proof.
  unfold Apply.constant_line, Generate.array_line, Generate.format_swift_array_item,
    Generate.constant_literal.
  destruct (i_name it), (i_doc it); try done;
    unfold ok; cbn [getitem rbind ok]; by rewrite <- !app_assoc.
Qed.

Lemma apply_function_line (it : item) :
  renderable it = true →
  Apply.function_line it = ok (Emitted.line (u "        ") (Emitted.function_entry it)).
Proof.
  unfold renderable, Apply.function_line, Emitted.line, Emitted.function_entry,
    Generate.function_literal.
  destruct (i_name it), (i_doc it); try done; intros _;
    unfold ok; cbn [getitem rbind ok default]; by rewrite <- !app_assoc.
Qed.

Lemma apply_math_module_lines_renderable (items : list item) :
  forallb (λ it, negb (known_kind it) || renderable it) items = true →
  Apply.math_module_lines items = ok (Emitted.module_lines items).
Proof.
  intros H. rewrite <- (math_module_lines_renderable items H).
  unfold Apply.math_module_lines, Generate.math_module_lines. cbv zeta.
  rewrite (rmap_ext Apply.constant_line (Generate.array_line (u "        ") true)).
  2:{ apply Forall_forall. intros it _. apply apply_constant_line. }
  rewrite (rmap_ext Apply.function_line (Generate.array_line (u "        ") false)); [done|].
  pose proof (forallb_filter_known is_function items
                (λ it Hc, orb_true_intro _ _ (or_intror Hc)) H) as Hf.
  apply forallb_Forall_true in Hf. eapply Forall_impl; [exact Hf|].
  intros it Hit. cbv beta in Hit.
  rewrite apply_function_line by done.
  by rewrite (proj1 (array_line_renderable _ it Hit)).
Qed.

Lemma kinds_disjoint (it : item) : is_constant it = true → is_function it = false.
Proof.
  unfold is_constant, is_function, type_is, str_eqb.
  destruct (i_type it) as [[| | |s]|]; try done.
  intros H. apply bool_decide_eq_true in H as ->. done.
Qed.

Lemma filter_entries_map {A} (f : A → str) (l : list A) :
  (∀ x, is_Some (entry_of_line (f x))) →
  filter (λ line, is_Some (entry_of_line line)) (map f l) = map f l.
Proof.
  intros Hf. induction l as [|x l IH]; [done|].
  cbn [map]. rewrite filter_cons, decide_True by apply Hf. by rewrite IH.
Qed.

Lemma module_lines_entries (data : list item) :
  filter (λ line, is_Some (entry_of_line line)) (Emitted.module_lines data)
  = map (λ it, Emitted.line (u "        ") (Emitted.constant_entry it))
        (filter (λ it, is_constant it = true) data)
    ++ map (λ it, Emitted.line (u "        ") (Emitted.function_entry it))
           (filter (λ it, is_function it = true) data).
Proof.
  unfold Emitted.module_lines, Emitted.constants_group, Emitted.functions_group.
  cbv zeta. rewrite !filter_app.
  rewrite !filter_entries_map
    by (intros it; rewrite ?entry_of_constant_line, ?entry_of_function_line; eauto).
  assert (∀ (b : bool) (ls : list str),
            Forall (λ l, entry_of_line l = None) ls →
            filter (λ line, is_Some (entry_of_line line)) (if b then [] else ls) = [])
    as Hnone.
  { intros b ls Hls. destruct b; [done|]. induction Hls as [|l ls Hl _ IH]; [done|].
    rewrite filter_cons, decide_False; [done|]. rewrite Hl. by intros [? ?]. }
  rewrite !Hnone by (repeat constructor).
  rewrite !filter_cons, !decide_False, !filter_nil, ?app_nil_r; [done | |];
    vm_compute; by intros [? ?].
Qed.

Lemma known_kind_count (data : list item) :
  length (filter (λ it, is_constant it = true) data)
  + length (filter (λ it, is_function it = true) data)
  = length (filter (λ it, known_kind it = true) data).
Proof.
  induction data as [|it data IH]; [done|]. rewrite !filter_cons.
  destruct (decide (is_constant it = true)) as [Hc|Hc];
    destruct (decide (is_function it = true)) as [Hf|Hf];
    destruct (decide (known_kind it = true)) as [Hk|Hk];
    simpl; try lia; exfalso.
  - rewrite (kinds_disjoint it Hc) in Hf. done.
  - rewrite (kinds_disjoint it Hc) in Hf. done.
  - apply Hk. unfold known_kind. by rewrite Hc.
  - apply Hk. unfold known_kind. rewrite Hf. apply orb_true_r.
  - unfold known_kind in Hk. apply orb_true_iff in Hk as [?|?]; done.
Qed.

(** Claim C10.  Both module-block emitters look only at the items whose
    ['type'] is the string ['constant'] or ['function']: the result, be
    it a text or an exception, is the same when all other items are taken
    out of the list first.  When the items of these two kinds have a name
    and a documentation, the block is emitted, and its entries are the
    constants followed by the functions, one entry for each such item and
    none for any other. *)
Theorem module_block_known_kinds (data : list item) :
  Generate.generate_math_module data
  = Generate.generate_math_module (filter (λ it, known_kind it = true) data)
  ∧ Apply.generate_math_module data
    = Apply.generate_math_module (filter (λ it, known_kind it = true) data)
  ∧ (forallb (λ it, negb (known_kind it) || renderable it) data = true →
     Generate.generate_math_module data = ok (join [LF] (Emitted.module_lines data))
     ∧ Apply.generate_math_module data = ok (join [LF] (Emitted.module_lines data)))
  ∧ filter (λ line, is_Some (entry_of_line line)) (Emitted.module_lines data)
    = map (λ it, Emitted.line (u "        ") (Emitted.constant_entry it))
          (filter (λ it, is_constant it = true) data)
      ++ map (λ it, Emitted.line (u "        ") (Emitted.function_entry it))
             (filter (λ it, is_function it = true) data)
  ∧ length (filter (λ line, is_Some (entry_of_line line)) (Emitted.module_lines data))
    = length (filter (λ it, known_kind it = true) data).
Proof.
  split; [|split; [|split; [|split]]].
  - unfold Generate.generate_math_module, Generate.math_module_lines. cbv zeta.
    by rewrite filter_known_constant, filter_known_function.
  - unfold Apply.generate_math_module, Apply.math_module_lines. cbv zeta.
    by rewrite filter_known_constant, filter_known_function.
  - intros H. unfold Generate.generate_math_module, Apply.generate_math_module.
    by rewrite math_module_lines_renderable, apply_math_module_lines_renderable.
  - apply module_lines_entries.
  - rewrite module_lines_entries, length_app, !length_map. apply known_kind_count.
Qed.

(** A module list with three items of other kinds among a function and a constant. *)
Lemma module_block_known_kinds_witness :
  Generate.generate_math_module Sample.mixed_module
  = ok (join [LF] (Emitted.module_lines Sample.mixed_module))
  ∧ Apply.generate_math_module Sample.mixed_module
    = ok (join [LF] (Emitted.module_lines Sample.mixed_module)).
Proof.
  apply (proj1 (proj2 (proj2 (module_block_known_kinds Sample.mixed_module)))).
  vm_compute. reflexivity.
Defined.

Example module_block_mixed :
  Apply.math_module_lines Sample.mixed_module
  = Apply.math_module_lines [Sample.sin_item; Sample.pi_item]
  ∧ Generate.math_module_lines Sample.mixed_module
    = Generate.math_module_lines [Sample.sin_item; Sample.pi_item]
  ∧ Generate.generate_math_module [Sample.class_item]
    = ok (u "    private static let mathModuleCompletions: [CompletionItem] = ["
          ++ [LF] ++ u "    ]").
Proof. vm_compute. auto. Qed.

(** ** The override of [print] *)

Lemma replace_absent (s old new : str) :
  old ≠ [] → absent_from old s 0 → replace s old new = s.
Proof.
  intros Hold Ha. apply find0_None in Ha. destruct old as [|a old]; [done|].
  unfold replace. induction s as [|c r IH]; [done|].
  cbn [find0] in Ha. cbn [replace_from].
  destruct (starts_with (a :: old) (c :: r)); [done|].
  apply fmap_None in Ha. by rewrite IH.
Qed.

Lemma builtin_line_other_name (it : item) (name : str) :
  i_name it = Some name → name ≠ u "print" →
  Apply.builtin_line it = Generate.array_line (u "        ") false it.
Proof.
  intros Hn Hp.
  unfold Apply.builtin_line, Generate.array_line, Generate.format_swift_array_item,
    Generate.function_literal, str_eqb.
  rewrite Hn. destruct (i_doc it); [|done].
  unfold ok. cbn [getitem rbind ok]. rewrite bool_decide_eq_false_2 by done.
  by rewrite <- !app_assoc.
Qed.

Lemma builtin_line_print_untouched (it : item) :
  i_name it = Some (u "print") →
  absent_from (u "end='") (Generate.params_str (default [] (i_params it))) 0 →
  absent_from [SQ; DQ] (Generate.params_str (default [] (i_params it))) 0 →
  Apply.builtin_line it = Generate.array_line (u "        ") false it.
Proof.
  intros Hn He Hq.
  unfold Apply.builtin_line, Generate.array_line, Generate.format_swift_array_item,
    Generate.function_literal, str_eqb, Apply.fix_newline.
  rewrite Hn. destruct (i_doc it); [|done].
  unfold ok. cbn [getitem rbind ok]. rewrite bool_decide_eq_true_2 by done.
  rewrite (replace_absent _ (u "end='")) by done.
  rewrite (replace_absent _ [SQ; DQ]) by done.
  by rewrite <- !app_assoc.
Qed.

Lemma line_feeds_app (a b : str) : line_feeds (a ++ b) = line_feeds a + line_feeds b.
Proof. induction a as [|c a IH]; [done|]. cbn [app line_feeds]. rewrite IH. lia. Qed.

Lemma line_feeds_replace_from (old new : str) :
  old ≠ [] → line_feeds old = 0 → line_feeds new = 0 →
  ∀ s skip, line_feeds (replace_from old new skip s) = line_feeds (drop skip s).
Proof.
  intros Hne Hold Hnew. induction s as [|c r IH]; intros skip.
  - by destruct skip.
  - destruct skip as [|skip]; cbn [replace_from drop]; [|apply IH].
    destruct (starts_with old (c :: r)) eqn:E.
    + rewrite line_feeds_app, Hnew, IH. apply starts_with_spec in E as [post E].
      destruct old as [|o old]; [done|]. injection E as -> ->.
      replace (length (o :: old) - 1) with (length old) by (simpl; lia).
      rewrite drop_app_length.
      change (line_feeds (o :: old ++ post)) with (line_feeds ((o :: old) ++ post)).
      rewrite line_feeds_app, Hold. done.
    + cbn [line_feeds]. by rewrite IH.
Qed.

Lemma line_feeds_replace (s old new : str) :
  old ≠ [] → line_feeds old = 0 → line_feeds new = 0 →
  line_feeds (replace s old new) = line_feeds s.
Proof.
  intros Hne Hold Hnew. destruct old as [|o old]; [done|]. unfold replace.
  by rewrite line_feeds_replace_from.
Qed.

Lemma line_feeds_fix_newline (params_str : str) :
  line_feeds (Apply.fix_newline params_str) = line_feeds params_str.
Proof. unfold Apply.fix_newline. by rewrite !line_feeds_replace. Qed.

Lemma line_feeds_replaced (s token : str) :
  line_feeds token = 0 → line_feeds (replace s [LF] token) = 0.
Proof.
  intros Ht. unfold replace. induction s as [|c r IH]; [done|].
  cbn [replace_from starts_with length Nat.sub].
  destruct (N.eqb_spec LF c) as [<-|Hc].
  - cbn [andb]. destruct r; cbn [starts_with] in *; by rewrite line_feeds_app, Ht, IH.
  - cbn [andb line_feeds]. rewrite IH. destruct (N.eqb_spec c LF); [congruence | done].
Qed.

Lemma line_feeds_join (sep : str) (l : list str) :
  line_feeds sep = 0 → Forall (λ x, line_feeds x = 0) l → line_feeds (join sep l) = 0.
Proof.
  intros Hsep. induction 1 as [|x l Hx Hl IH]; [done|].
  destruct l as [|y l]; [done|].
  change (join sep (x :: y :: l)) with (x ++ sep ++ join sep (y :: l)).
  rewrite !line_feeds_app, Hx, Hsep, IH. done.
Qed.

Lemma line_feeds_lookup (token : str) (params : list str) :
  line_feeds token = 0 →
  line_feeds (Generate.params_str (lookup_override token (u "print") params)) = 0.
Proof.
  intros Ht. change (lookup_override token (u "print"))
    with (map (λ p : str, replace p [LF] token)).
  unfold Generate.params_str. apply line_feeds_join; [reflexivity|].
  apply Forall_forall. intros q Hq.
  apply list_elem_of_fmap in Hq as (q' & -> & Hq).
  apply list_elem_of_fmap in Hq as (p & -> & _).
  unfold Generate.quoted. rewrite !line_feeds_app, line_feeds_replaced by done.
  reflexivity.
Qed.

(** Claim C8.  The override is selected by the name of the item: an item
    with another name than [print] is rendered by the plain rule.  On an
    item named [print] the override takes no newline character away: the
    emitted line holds as many as the plain rendering.  On the item the
    harvester writes for [print] the emitted line still holds the newline
    character of [end], behind two backslashes and an [n], and the
    parameter [sep] has a backslash and an [n] appended; no table keyed
    by the name that puts a token without newline character in the place
    of the newline gives this line. *)
Theorem print_override_keeps_line_feed :
  (∀ it name, i_name it = Some name → name ≠ u "print" →
     Apply.builtin_line it = Generate.array_line (u "        ") false it)
  ∧ (∀ it line, i_name it = Some (u "print") → Apply.builtin_line it = ok line →
       ∃ plain, Generate.array_line (u "        ") false it = ok plain
         ∧ line_feeds line = line_feeds plain)
  ∧ Apply.builtin_line print_item
    = ok (u "        .function(name: " ++ [DQ] ++ u "print" ++ [DQ] ++ u ", parameters: ["
          ++ [DQ] ++ u "*args" ++ [DQ] ++ u ", "
          ++ [DQ] ++ u "sep=' '" ++ [BSL] ++ u "n" ++ [DQ] ++ u ", "
          ++ [DQ] ++ u "end='" ++ [BSL; BSL] ++ u "n" ++ [LF] ++ u "'" ++ [BSL] ++ u "n"
          ++ [DQ] ++ u ", "
          ++ [DQ] ++ u "file=None" ++ [DQ] ++ u ", "
          ++ [DQ] ++ u "flush=False" ++ [DQ]
          ++ u "], documentation: " ++ [DQ]
          ++ u "Prints the values to a stream, or to sys.stdout by default."
          ++ [DQ] ++ u "),")
  ∧ (∀ token, line_feeds token = 0 →
       ∃ expected, builtin_line_by_lookup token print_item = ok expected
         ∧ line_feeds expected = 0
         ∧ Apply.builtin_line print_item ≠ ok expected).
Proof.
  split; [|split; [|split]].
  - intros it name. apply builtin_line_other_name.
  - intros it line Hn.
    unfold Apply.builtin_line, Generate.array_line, Generate.format_swift_array_item,
      Generate.function_literal, str_eqb.
    rewrite Hn. destruct (i_doc it) as [doc|]; [|done].
    unfold ok. cbn [getitem rbind ok]. rewrite bool_decide_eq_true_2 by done.
    intros H. apply (inj inr) in H. subst line. eexists. split; [done|].
    unfold Generate.quoted. rewrite !line_feeds_app, line_feeds_fix_newline.
    repeat match goal with
           | |- context [line_feeds (u ?x)] =>
             let v := eval vm_compute in (line_feeds (u x)) in
             change (line_feeds (u x)) with v
           end.
    lia.
  - vm_compute. reflexivity.
  - intros token Ht. eexists. split; [reflexivity|].
    assert (line_feeds
              (Emitted.line (u "        ")
                 (Generate.function_literal (u "print")
                    (lookup_override token (u "print")
                       (default [] (i_params print_item)))
                    (u "Prints the values to a stream, or to sys.stdout by default.")))
            = 0) as Hzero.
    { unfold Emitted.line, Generate.function_literal.
      rewrite !line_feeds_app, line_feeds_lookup by done. reflexivity. }
    split; [exact Hzero|].
    intros H. apply (f_equal (λ r : exn + list N,
                                match r with inr s => line_feeds s | inl _ => 0 end)) in H.
    cbv beta iota in H. unfold ok in H. rewrite Hzero in H. vm_compute in H. discriminate.
Qed.

(** ** Reading entries back *)

Lemma escaped_literal_safe (s : str) (pending : bool) :
  escaped_from pending s = true → literal_safe_from pending s = true.
Proof.
  revert pending. induction s as [|c r IH]; intros pending H; [done|].
  cbn [escaped_from literal_safe_from] in *. destruct pending.
  - apply andb_true_iff in H as [_ H]. by apply IH.
  - destruct (N.eqb_spec c BSL) as [->|Hb].
    + cbn. by apply IH.
    + apply andb_true_iff in H as [Hc H].
      apply negb_true_iff, orb_false_iff in Hc as [Hc _].
      apply orb_false_iff in Hc as [-> _]. by apply IH.
Qed.

Lemma literal_body_from_safe (body rest : str) (pending : bool) :
  literal_safe_from pending body = true →
  Reparse.literal_body_from pending (body ++ DQ :: rest) = Some (body, rest).
Proof.
  revert pending. induction body as [|c r IH]; intros pending H.
  - destruct pending; [done|]. reflexivity.
  - cbn [literal_safe_from app Reparse.literal_body_from] in *. destruct pending.
    + by rewrite IH.
    + destruct (c =? DQ)%N; [done|]. by rewrite IH.
Qed.

Lemma literal_body_safe (body rest : str) :
  literal_safe body = true →
  Reparse.literal_body (body ++ [DQ] ++ rest) = Some (body, rest).
Proof. apply literal_body_from_safe. Qed.

Lemma expect_app (literal s : str) : Reparse.expect literal (literal ++ s) = Some s.
Proof.
  unfold Reparse.expect. by rewrite starts_with_app, drop_app_length.
Qed.

Lemma params_str_cons (p : str) (ps : list str) :
  Generate.params_str (p :: ps)
  = [DQ] ++ p ++ [DQ]
    ++ match ps with [] => [] | _ :: _ => u ", " ++ Generate.params_str ps end.
Proof.
  unfold Generate.params_str, Generate.quoted. destruct ps; simpl.
  - done.
  - by rewrite <- !app_assoc.
Qed.

Lemma quoted_list_tail (ps : list str) (p rest : str) (fuel : nat) :
  literal_safe p = true → Forall (λ p, literal_safe p = true) ps → length ps < fuel →
  Reparse.quoted_list fuel
    ([DQ] ++ p ++ [DQ]
     ++ match ps with [] => [] | _ :: _ => u ", " ++ Generate.params_str ps end
     ++ u "]" ++ rest)
  = Some (S (length ps), rest).
Proof.
  revert p fuel. induction ps as [|q ps IH]; intros p fuel Hp Hs Hf.
  - destruct fuel as [|fuel]; [lia|]. cbn [Reparse.quoted_list].
    rewrite expect_app. cbn [mbind option_bind].
    rewrite literal_body_safe by done. cbn [mbind option_bind app].
    by rewrite expect_app.
  - destruct fuel as [|fuel]; [lia|]. cbn [Reparse.quoted_list].
    inversion Hs as [|? ? Hq Hps]; subst.
    rewrite expect_app. cbn [mbind option_bind].
    rewrite literal_body_safe by done. cbn [mbind option_bind].
    rewrite <- app_assoc.
    change (Reparse.expect (u "]") (u ", " ++ _)) with (@None (list N)).
    rewrite expect_app. cbn [mbind option_bind].
    rewrite params_str_cons, <- !app_assoc.
    rewrite IH; [done | done | done | simpl in Hf; lia].
Qed.

Lemma params_str_length (ps : list str) : length ps ≤ length (Generate.params_str ps).
Proof.
  induction ps as [|p ps IH]; [done|].
  rewrite params_str_cons. destruct ps as [|q ps]; rewrite !length_app; simpl in *; lia.
Qed.

Lemma parameter_list_params (ps : list str) (rest : str) :
  Forall (λ p, literal_safe p = true) ps →
  Reparse.parameter_list (Generate.params_str ps ++ u "]" ++ rest)
  = Some (length ps, rest).
Proof.
  intros Hs. unfold Reparse.parameter_list. destruct ps as [|p ps].
  - change (Generate.params_str []) with (@nil N). cbn [app]. by rewrite expect_app.
  - inversion Hs as [|? ? Hp Hps]; subst.
    pose proof (params_str_length (p :: ps)) as Hlen.
    rewrite params_str_cons in *. rewrite <- !app_assoc.
    change (Reparse.expect (u "]") ([DQ] ++ _)) with (@None (list N)).
    apply quoted_list_tail; [done | done |].
    rewrite !length_app in *. simpl in *. lia.
Qed.

Lemma entry_function_literal (name doc : str) (ps : list str) :
  literal_safe name = true → literal_safe doc = true →
  Forall (λ p, literal_safe p = true) ps →
  Reparse.entry (Generate.function_literal name ps doc)
  = Some (Reparse.ParsedFunction name (length ps) doc).
Proof.
  intros Hn Hd Hs. unfold Reparse.entry, Generate.function_literal, Generate.quoted.
  rewrite <- !app_assoc.
  rewrite (app_assoc (u ".function(name: ") [DQ]), expect_app.
  rewrite literal_body_safe by done. cbn [mbind option_bind].
  rewrite expect_app. cbn [mbind option_bind].
  change (u "], documentation: ") with (u "]" ++ u ", documentation: ").
  rewrite <- !app_assoc.
  rewrite parameter_list_params by done. cbn [mbind option_bind].
  rewrite (app_assoc (u ", documentation: ") [DQ]), expect_app. cbn [mbind option_bind].
  rewrite literal_body_safe by done. cbn [mbind option_bind]. done.
Qed.

Lemma entry_constant_literal (name value doc : str) :
  literal_safe name = true → literal_safe value = true → literal_safe doc = true →
  Reparse.entry (Generate.constant_literal name value doc)
  = Some (Reparse.ParsedConstant name value doc).
Proof.
  intros Hn Hv Hd. unfold Reparse.entry, Generate.constant_literal, Generate.quoted.
  rewrite <- !app_assoc.
  change (Reparse.expect (u ".function(name: " ++ [DQ]) (u ".constant(name: " ++ _))
    with (@None (list N)).
  rewrite (app_assoc (u ".constant(name: ") [DQ]), expect_app. cbn [mbind option_bind].
  rewrite literal_body_safe by done. cbn [mbind option_bind].
  rewrite (app_assoc (u ", value: ") [DQ]), expect_app. cbn [mbind option_bind].
  rewrite literal_body_safe by done. cbn [mbind option_bind].
  rewrite (app_assoc (u ", documentation: ") [DQ]), expect_app. cbn [mbind option_bind].
  rewrite literal_body_safe by done. cbn [mbind option_bind]. done.
Qed.

Lemma line_entry (indent : nat) (indent_free : str) :
  Reparse.line (Emitted.line (replicate indent SP) (46%N :: indent_free))
  = Reparse.entry (46%N :: indent_free).
Proof.
  unfold Reparse.line, Emitted.line.
  assert (drop_while (λ c, (c =? SP)%N)
            (replicate indent SP ++ (46%N :: indent_free) ++ u ",")
          = (46%N :: indent_free) ++ [44%N]) as ->.
  { induction indent as [|n IH]; [reflexivity | exact IH]. }
  rewrite reverse_snoc. cbn [N.eqb Pos.eqb]. by rewrite reverse_involutive.
Qed.

Lemma line_function_form (indent : nat) (it : item) :
  quotable_function it = true →
  Reparse.line (Emitted.line (replicate indent SP) (Emitted.function_entry it))
  = Some (function_form it).
Proof.
  unfold quotable_function. rewrite !andb_true_iff. intros [[[_ Hn] Hd] Hp].
  unfold Emitted.function_entry. unfold Generate.function_literal at 1.
  change (u ".function(name: " ++ ?x) with (46%N :: u "function(name: " ++ x).
  rewrite line_entry. apply entry_function_literal; [done | done |].
  by apply forallb_Forall_true.
Qed.

Lemma line_constant_form (indent : nat) (it : item) :
  quotable_constant it = true →
  Reparse.line (Emitted.line (replicate indent SP) (Emitted.constant_entry it))
  = Some (constant_form it).
Proof.
  unfold quotable_constant. rewrite !andb_true_iff. intros [[[_ Hn] Hd] Hv].
  unfold Emitted.constant_entry. unfold Generate.constant_literal at 1.
  change (u ".constant(name: " ++ ?x) with (46%N :: u "constant(name: " ++ x).
  rewrite line_entry. by apply entry_constant_literal.
Qed.

Lemma omap_function_lines (indent : nat) (items : list item) :
  forallb quotable_function items = true →
  omap Reparse.line
       (map (λ it, Emitted.line (replicate indent SP) (Emitted.function_entry it)) items)
  = map function_form items.
Proof.
  induction items as [|it items IH]; [done|]. cbn [forallb].
  rewrite andb_true_iff. intros [Hit H]. cbn [map].
  change (omap Reparse.line (?x :: ?l))
    with (match Reparse.line x with
          | Some y => y :: omap Reparse.line l
          | None => omap Reparse.line l
          end).
  by rewrite line_function_form, IH.
Qed.

Lemma omap_constant_lines (indent : nat) (items : list item) :
  forallb quotable_constant items = true →
  omap Reparse.line
       (map (λ it, Emitted.line (replicate indent SP) (Emitted.constant_entry it)) items)
  = map constant_form items.
Proof.
  induction items as [|it items IH]; [done|]. cbn [forallb].
  rewrite andb_true_iff. intros [Hit H]. cbn [map].
  change (omap Reparse.line (?x :: ?l))
    with (match Reparse.line x with
          | Some y => y :: omap Reparse.line l
          | None => omap Reparse.line l
          end).
  by rewrite line_constant_form, IH.
Qed.

Lemma line_no_entry (s rest : str) (c : N) :
  drop_while (λ c, (c =? SP)%N) s = c :: rest → c ≠ 46%N → Reparse.line s = None.
Proof.
  intros Hs Hc. unfold Reparse.line. rewrite Hs.
  destruct (reverse (c :: rest)) as [|x r] eqn:Hr; [done|].
  destruct (x =? 44)%N; [|done].
  apply (f_equal reverse) in Hr. rewrite reverse_involutive, reverse_cons in Hr.
  destruct (reverse r) as [|d r']; [done|]. injection Hr as <- _.
  unfold Reparse.entry, Reparse.expect.
  change (u ".function(name: " ++ [DQ]) with (46%N :: u "function(name: " ++ [DQ]).
  change (u ".constant(name: " ++ [DQ]) with (46%N :: u "constant(name: " ++ [DQ]).
  cbn [starts_with]. destruct (N.eqb_spec 46 c) as [Heq|_]; [congruence|]. reflexivity.
Qed.

Lemma omap_no_entries (l : list str) :
  Forall (λ s, Reparse.line s = None) l → omap Reparse.line l = [].
Proof.
  induction 1 as [|x l Hx _ IH]; [done|].
  change (omap Reparse.line (x :: l))
    with (match Reparse.line x with
          | Some y => y :: omap Reparse.line l
          | None => omap Reparse.line l
          end).
  by rewrite Hx.
Qed.

Lemma quotable_function_renderable (items : list item) :
  forallb quotable_function items = true → forallb renderable items = true.
Proof.
  rewrite !forallb_forall. intros H it Hit. specialize (H it Hit).
  unfold quotable_function in H. rewrite !andb_true_iff in H. tauto.
Qed.

Lemma quotable_member_filters (items : list item) :
  forallb quotable_member items = true →
  forallb quotable_constant (filter (λ it, is_constant it = true) items) = true
  ∧ forallb quotable_function (filter (λ it, is_function it = true) items) = true
  ∧ forallb (λ it, negb (known_kind it) || renderable it) items = true.
Proof.
  induction items as [|it items IH]; [done|]. cbn [forallb].
  rewrite andb_true_iff. intros [Hit H]. destruct (IH H) as (Hc & Hf & Hk).
  rewrite !filter_cons. unfold quotable_member, known_kind in *.
  destruct (is_constant it) eqn:Ec.
  - rewrite (kinds_disjoint it Ec). rewrite decide_True, decide_False by done.
    cbn [forallb orb negb]. rewrite Hit, Hc, Hf, Hk.
    unfold quotable_constant in Hit. rewrite !andb_true_iff in Hit.
    destruct Hit as [[[-> _] _] _]. done.
  - rewrite (decide_False (P := false = true)) by done.
    destruct (is_function it) eqn:Ef.
    + rewrite decide_True by done. cbn [forallb orb negb]. rewrite Hit, Hc, Hf, Hk.
      unfold quotable_function in Hit. rewrite !andb_true_iff in Hit.
      destruct Hit as [[[-> _] _] _]. done.
    + rewrite decide_False by done. cbn [forallb orb negb]. by rewrite Hc, Hf, Hk.
Qed.

(** Claim C9.  Reading the emitted lines back gives the items of the
    model, with name, kind, number of parameters and documentation as the
    model has them, when the fields that are put between double quotes
    can stand there (no double quote outside a backslash pair and no
    backslash left alone at the end).  The lines of the block of built-in
    functions and of a struct of type methods give back the items in the
    function form, in their order, also the block [apply_harvested_docs]
    writes when no item is called [print]; the lines of the module block
    give back the items tagged ['constant'] in the constant form followed
    by the items tagged ['function'] in the function form. *)
Theorem emitted_entry_round_trip (functions members : list item) (type_name : str) :
  (forallb quotable_function functions = true →
   (∃ lines, Generate.generate_builtin_functions functions = ok (join [LF] lines)
      ∧ omap Reparse.line lines = map function_form functions)
   ∧ (∃ lines, Generate.generate_type_methods type_name functions = ok (join [LF] lines)
        ∧ omap Reparse.line lines = map function_form functions)
   ∧ (Forall (λ it, i_name it ≠ Some (u "print")) functions →
      ∃ lines, Apply.generate_builtin_functions functions = ok (join [LF] lines)
        ∧ omap Reparse.line lines = map function_form functions))
  ∧ (forallb quotable_member members = true →
     ∃ lines, Generate.generate_math_module members = ok (join [LF] lines)
       ∧ Apply.generate_math_module members = ok (join [LF] lines)
       ∧ omap Reparse.line lines
         = map constant_form (filter (λ it, is_constant it = true) members)
           ++ map function_form (filter (λ it, is_function it = true) members)).
Proof.
  split.
  - intros Hq. pose proof (quotable_function_renderable _ Hq) as Hr.
    assert (omap Reparse.line
              ([u "    private static let builtinFunctions: [CompletionItem] = ["]
               ++ map (λ it, Emitted.line (u "        ") (Emitted.function_entry it))
                      functions
               ++ [u "    ]"])
            = map function_form functions) as Hblock.
    { rewrite !omap_app. rewrite (omap_function_lines 8) by done.
      rewrite !omap_no_entries by (repeat constructor). by rewrite app_nil_r. }
    split; [|split].
    + eexists. split; [by apply generate_builtin_functions_renderable | exact Hblock].
    + eexists. split; [by apply generate_type_methods_renderable|].
      unfold Emitted.type_block. rewrite !omap_app.
      rewrite (omap_function_lines 12) by done.
      rewrite (omap_no_entries [_; _; _]).
      * rewrite omap_no_entries by (repeat constructor). by rewrite app_nil_r.
      * constructor; [by eapply (line_no_entry _ _ 47%N)|].
        constructor; [by eapply (line_no_entry _ _ 115%N)|].
        repeat constructor.
    + intros Hp. eexists. split; [|exact Hblock].
      unfold Apply.generate_builtin_functions.
      assert (rmap Apply.builtin_line functions
              = rmap (Generate.array_line (u "        ") false) functions) as ->.
      { apply rmap_ext. pose proof (proj1 (forallb_Forall_true _ _) Hr) as Hall.
        rewrite Forall_forall in Hall, Hp. apply Forall_forall. intros it Hin.
        pose proof (Hall it Hin) as Hit. pose proof (Hp it Hin) as Hname.
        cbv beta in Hit, Hname. unfold renderable in Hit. destruct (i_name it) as [name|] eqn:Hn; [|done].
        apply (builtin_line_other_name it name Hn). congruence. }
      rewrite (proj1 (rmap_array_line _ _ Hr)). reflexivity.
  - intros Hq. destruct (quotable_member_filters _ Hq) as (Hc & Hf & Hk).
    exists (Emitted.module_lines members).
    unfold Generate.generate_math_module, Apply.generate_math_module.
    rewrite math_module_lines_renderable, apply_math_module_lines_renderable by done.
    split; [done|]. split; [done|].
    unfold Emitted.module_lines, Emitted.constants_group, Emitted.functions_group.
    cbv zeta. rewrite !omap_app.
    rewrite (omap_constant_lines 8), (omap_function_lines 8) by done.
    rewrite !omap_no_entries; [by rewrite app_nil_r| | | |].
    all: try (repeat constructor).
    all: match goal with |- Forall _ (if ?b then _ else _) => destruct b end.
    all: repeat constructor.
Qed.

(** The items of [abs], [math.pi] and [math.sin] are read back. *)
Lemma emitted_entry_round_trip_witness :
  (∃ lines, Generate.generate_builtin_functions [Sample.abs_item] = ok (join [LF] lines)
     ∧ omap Reparse.line lines = [function_form Sample.abs_item])
  ∧ (∃ lines,
       Generate.generate_math_module [Sample.sin_item; Sample.pi_item]
       = ok (join [LF] lines)
       ∧ Apply.generate_math_module [Sample.sin_item; Sample.pi_item]
         = ok (join [LF] lines)
       ∧ omap Reparse.line lines
         = [constant_form Sample.pi_item; function_form Sample.sin_item]).
Proof.
  split.
  - apply (proj1 (proj1 (emitted_entry_round_trip
                           [Sample.abs_item] [] (u "str")) eq_refl)).
  - apply (proj2 (emitted_entry_round_trip
                    [] [Sample.sin_item; Sample.pi_item] (u "str")) eq_refl).
Defined.

(** Two functions a harvester can render, with one and with two parameters, give items with the same emitted text, so that no reader gives the number of parameters of both. *)
Lemma round_trip_ambiguous :
  i_params (SampleRoundTrip.harvested SampleRoundTrip.one_parameter)
  = Some [u "a=''" ++ [DQ] ++ u ", " ++ [DQ] ++ u "b=''"]
  ∧ i_params (SampleRoundTrip.harvested SampleRoundTrip.two_parameters)
    = Some [u "a=''"; u "b=''"]
  ∧ Generate.format_swift_array_item
      (SampleRoundTrip.harvested SampleRoundTrip.one_parameter) false
    = Generate.format_swift_array_item
        (SampleRoundTrip.harvested SampleRoundTrip.two_parameters) false
  ∧ (∀ reparse : str → option nat,
       ∃ func text,
         func ∈ [SampleRoundTrip.one_parameter; SampleRoundTrip.two_parameters]
         ∧ Generate.format_swift_array_item (SampleRoundTrip.harvested func) false
           = ok text
         ∧ reparse text
           ≠ Some (length (default [] (i_params (SampleRoundTrip.harvested func))))).
Proof.
  split; [vm_compute; reflexivity|]. split; [vm_compute; reflexivity|].
  split; [vm_compute; reflexivity|].
  intros reparse.
  destruct (Generate.format_swift_array_item
              (SampleRoundTrip.harvested SampleRoundTrip.one_parameter) false)
    as [e|text] eqn:E1; [vm_compute in E1; discriminate|].
  assert (Generate.format_swift_array_item
            (SampleRoundTrip.harvested SampleRoundTrip.two_parameters) false = ok text)
    as E2.
  { unfold ok. rewrite <- E1. vm_compute. reflexivity. }
  destruct (decide (reparse text = Some 1)) as [H1|H1].
  - exists SampleRoundTrip.two_parameters, text.
    split; [set_solver|]. split; [exact E2|]. rewrite H1. vm_compute. discriminate.
  - exists SampleRoundTrip.one_parameter, text.
    split; [set_solver|]. split; [exact E1|]. exact H1.
Qed.

(** ** Missing regions in [main] *)

Lemma rmap_returns {A B} (f : A → result B) (l : list A) :
  Forall (λ x, ∃ y, f x = ok y) l → ∃ ys, rmap f l = ok ys.
Proof.
  induction 1 as [|x l [y Hy] _ [ys IH]]; [by exists []|].
  exists (y :: ys). simpl. by rewrite Hy, IH.
Qed.

Lemma apply_lines_return (items : list item) :
  forallb renderable items = true →
  (∃ lines, rmap Apply.builtin_line items = ok lines)
  ∧ (∃ lines, rmap Apply.method_line items = ok lines).
Proof.
  intros H. apply forallb_Forall_true in H.
  split; apply rmap_returns; (eapply Forall_impl; [exact H|]);
    intros it Hit; cbv beta in Hit;
    unfold renderable, Apply.builtin_line, Apply.method_line in *;
    destruct (i_name it), (i_doc it); try done; eexists; reflexivity.
Qed.

Lemma apply_type_methods_loop_returns (tm : gmap (list N) (list item))
    (types : list str) (content : str) :
  forallb (λ type_name,
             match tm !! type_name with
             | Some methods => forallb renderable methods
             | None => true
             end) types = true →
  returns_normally (Apply.type_methods_loop tm content types).
Proof.
  revert content. induction types as [|t types IH]; intros content H.
  - by exists content, [].
  - cbn [forallb] in H. apply andb_true_iff in H as [Ht H].
    cbn [Apply.type_methods_loop]. destruct (tm !! t) as [methods|]; [|by apply IH].
    unfold Apply.generate_type_methods_struct.
    destruct (default _ (Apply.type_map !! t)) as [struct_name type_desc]. cbv zeta.
    destruct (proj2 (apply_lines_return methods Ht)) as [lines ->].
    unfold ok, lift_result, lift_printing, run_ret. cbn [rbind run_bind].
    destruct (Apply.re_search _ content) as [group1|]; cbn [run_bind fst snd];
      match goal with
      | |- context [Apply.type_methods_loop tm ?c types] =>
        destruct (IH c H) as (a & out & ->)
      end; eexists _, _; reflexivity.
Qed.

Lemma apply_patch_returns (data : harvest_record) (content : str) :
  renderable_record data = true → returns_normally (Apply.patch data content).
Proof.
  unfold renderable_record. rewrite !andb_true_iff. intros [[[_ Hb] Ht] Hm].
  unfold Apply.patch, Apply.generate_builtin_functions, Apply.generate_math_module.
  cbv zeta.
  destruct (proj1 (apply_lines_return _ Hb)) as [lines ->].
  rewrite apply_math_module_lines_renderable by done.
  unfold ok, lift_result, lift_printing. cbn [rbind run_bind].
  destruct (Apply.replace_section content _ _ _) as [content1 out1]. cbn [fst snd].
  assert (returns_normally
            (Apply.type_methods_loop (type_methods data) content1 Apply.type_order))
    as (content2 & out2 & ->).
  { apply apply_type_methods_loop_returns.
    cbn [forallb Generate.type_order Apply.type_order] in *.
    rewrite !andb_true_iff in *. tauto. }
  cbn [run_bind]. destruct (Apply.replace_section content2 _ _ _) as [content3 out3].
  cbn [fst snd]. eexists _, _. reflexivity.
Qed.

Lemma re_search_absent (literal : str) (pattern : list Apply.re_item) (s : str) :
  absent_from literal s 0 → Apply.re_search (Apply.Lit literal :: pattern) s = None.
Proof.
  intros Ha. apply find0_None in Ha. induction s as [|c r IH].
  - cbn [Apply.re_search Apply.re_match find0] in *.
    by destruct (starts_with literal []).
  - cbn [Apply.re_search Apply.re_match find0] in *.
    destruct (starts_with literal (c :: r)); [done|].
    apply fmap_None in Ha. by apply IH.
Qed.

Lemma apply_type_methods_loop_absent (tm : gmap (list N) (list item))
    (types : list str) (content : str) :
  forallb (λ type_name,
             match tm !! type_name with
             | Some methods => forallb renderable methods
             | None => true
             end) types = true →
  absent_from (u "    /// ") content 0 →
  ∃ out, Apply.type_methods_loop tm content types = (inr content, out).
Proof.
  intros H Ha. induction types as [|t types IH]; [by exists []|].
  cbn [forallb] in H. apply andb_true_iff in H as [Ht H].
  cbn [Apply.type_methods_loop]. destruct (tm !! t) as [methods|]; [|by apply IH].
  unfold Apply.generate_type_methods_struct.
  destruct (default _ (Apply.type_map !! t)) as [struct_name type_desc]. cbv zeta.
  destruct (proj2 (apply_lines_return methods Ht)) as [lines ->].
  unfold ok, lift_result, lift_printing, run_ret. cbn [rbind run_bind].
  unfold Apply.struct_regex. cbn [app]. rewrite re_search_absent by done.
  cbn [run_bind fst snd]. destruct (IH H) as [out ->]. eexists. reflexivity.
Qed.

Lemma replace_section_start_absent (content start_marker end_marker new_content : str) :
  absent_from start_marker content 0 →
  Apply.replace_section content start_marker end_marker new_content
  = (content, [Apply.missing_start_msg start_marker]).
Proof.
  intros Ha. unfold Apply.replace_section. by rewrite (proj2 (find_None _ _ _) Ha).
Qed.

Lemma replace_section_end_absent (content start_marker end_marker new_content : str)
    (i : nat) :
  first_occurrence start_marker content 0 i →
  absent_from end_marker content (i + length start_marker) →
  Apply.replace_section content start_marker end_marker new_content
  = (content, [Apply.missing_end_msg end_marker]).
Proof.
  intros Hi Ha. unfold Apply.replace_section.
  assert (find content start_marker 0 = Some i) as ->.
  { apply find_Some. split; [lia | done]. }
  by rewrite (proj2 (find_None _ _ _) Ha).
Qed.

Lemma apply_main_returns (data : harvest_record) (content : str) :
  renderable_record data = true → returns_normally (Apply.main data content).
Proof.
  intros H. destruct (apply_patch_returns data content H) as (patched & out & Hp).
  unfold Apply.main, loaded_version. rewrite Hp.
  unfold renderable_record in H. rewrite !andb_true_iff in H.
  destruct H as [[[Hv _] _] _].
  destruct (split_ws (python_version data)); [done|].
  unfold ok, lift_result, run_ret. cbn [run_bind]. eexists _, _. reflexivity.
Qed.

Lemma apply_main_markers_absent (data : harvest_record) (content : str) :
  renderable_record data = true →
  absent_from Apply.builtins_start content 0 →
  absent_from Apply.math_start content 0 →
  absent_from (u "    /// ") content 0 →
  ∃ warnings,
    Apply.main data content
    = (inr None,
       [Apply.missing_start_msg Apply.builtins_start] ++ warnings
       ++ [Apply.missing_start_msg Apply.math_start]).
Proof.
  intros H Hb Hm Hs. unfold Apply.main, Apply.patch, loaded_version.
  unfold Apply.generate_builtin_functions, Apply.generate_math_module. cbv zeta.
  unfold renderable_record in H. rewrite !andb_true_iff in H.
  destruct H as [[[Hv Hbi] Ht] Hmi].
  destruct (split_ws (python_version data)); [done|].
  destruct (proj1 (apply_lines_return _ Hbi)) as [lines ->].
  rewrite apply_math_module_lines_renderable by done.
  unfold ok, lift_result, lift_printing, run_ret. cbn [rbind run_bind].
  rewrite replace_section_start_absent by done. cbn [fst snd].
  destruct (apply_type_methods_loop_absent (type_methods data) Apply.type_order content)
    as [warnings ->]; [|done|].
  { cbn [forallb Generate.type_order Apply.type_order] in *.
    rewrite !andb_true_iff in *. tauto. }
  cbn [run_bind]. rewrite replace_section_start_absent by done. cbn [fst snd].
  rewrite bool_decide_eq_false_2 by auto.
  exists warnings. cbn [app]. by rewrite app_nil_r.
Qed.

(** Claim C2.  If the start marker does not occur in the file text, or it
    occurs and the end marker does not occur after it, [replace_section]
    returns the text exactly as it was given and prints one warning that
    carries the (first fifty characters of the) missing marker.  No file
    text makes [main] raise when the record can be rendered, and on a
    text without the start markers and without a struct comment [main]
    prints its warnings and leaves the file alone. *)
Theorem replace_section_missing_marker
    (content start_marker end_marker new_content : str) :
  (absent_from start_marker content 0 →
     Apply.replace_section content start_marker end_marker new_content
     = (content,
        [(Apply.warning_sign ++ u "  Could not find start marker: ")
           ++ take 50 start_marker ++ u "..."]))
  ∧ (∀ i, first_occurrence start_marker content 0 i →
          absent_from end_marker content (i + length start_marker) →
     Apply.replace_section content start_marker end_marker new_content
     = (content,
        [(Apply.warning_sign ++ u "  Could not find end marker: ")
           ++ take 50 end_marker ++ u "..."]))
  ∧ (∀ data, renderable_record data = true →
             returns_normally (Apply.main data content))
  ∧ (∀ data, renderable_record data = true →
             absent_from Apply.builtins_start content 0 →
             absent_from Apply.math_start content 0 →
             absent_from (u "    /// ") content 0 →
             ∃ warnings,
               Apply.main data content
               = (inr None,
                  [Apply.missing_start_msg Apply.builtins_start] ++ warnings
                  ++ [Apply.missing_start_msg Apply.math_start])).
Proof.
  split; [|split; [|split]].
  - apply replace_section_start_absent.
  - apply replace_section_end_absent.
  - intros data. apply apply_main_returns.
  - intros data. apply apply_main_markers_absent.
Qed.

(** The two cases on a text without any marker and on a text with the
    start marker only. *)
Lemma replace_section_missing_marker_witness :
  Apply.replace_section (u "no markers here") (u "BEGIN-BUILTINS") (u "END-BUILTINS") (u "new")
  = (u "no markers here",
     [(Apply.warning_sign ++ u "  Could not find start marker: ")
        ++ take 50 (u "BEGIN-BUILTINS") ++ u "..."])
  ∧ Apply.replace_section (u "x BEGIN-BUILTINS y") (u "BEGIN-BUILTINS") (u "END-BUILTINS") (u "new")
  = (u "x BEGIN-BUILTINS y",
     [(Apply.warning_sign ++ u "  Could not find end marker: ")
        ++ take 50 (u "END-BUILTINS") ++ u "..."])
  ∧ returns_normally (Apply.main Sample.record (u "no markers here")).
Proof.
  split; [|split].
  - apply (proj1 (replace_section_missing_marker
                    (u "no markers here") (u "BEGIN-BUILTINS") (u "END-BUILTINS") (u "new"))).
    apply find_None. vm_compute. reflexivity.
  - apply (proj1 (proj2 (replace_section_missing_marker
                    (u "x BEGIN-BUILTINS y") (u "BEGIN-BUILTINS") (u "END-BUILTINS") (u "new")))
                 2).
    + apply find_Some. vm_compute. reflexivity.
    + apply find_None. vm_compute. reflexivity.
  - apply (proj1 (proj2 (proj2 (replace_section_missing_marker
                    (u "no markers here") [] [] []))) Sample.record).
    vm_compute. reflexivity.
Defined.

(** * Further properties *)

(** ** The harvester *)

Lemma clean_docstring_body (doc : option str) :
  escaped (Harvest.clean_docstring doc) = true.
Proof.
  destruct doc as [doc|]; [|done]. rewrite clean_docstring_unfold.
  apply escaped_from_normalize.
  rewrite <- (app_nil_r (escape _)). by rewrite escaped_from_escape.
Qed.

Lemma harvest_builtin_loop (builtins : gmap (list N) Harvesting.pyobject)
    (names : list str) (acc : list item) :
  ∃ new,
    foldl (λ functions name,
             match builtins !! name with
             | Some func =>
               let doc := Harvest.clean_docstring (Harvesting.o_doc func) in
               let '(func_name, params) := Harvesting.signature_or name func in
               functions ++ [Item None (Some func_name) (Some params) None (Some doc)]
             | None => functions
             end) acc names
    = acc ++ new
    ∧ Forall2 (λ name it, ∃ func, builtins !! name = Some func
                                  ∧ harvested_builtin name func it)
              (filter (λ name, is_Some (builtins !! name)) names) new.
Proof.
  revert acc. induction names as [|name names IH]; intros acc.
  - exists []. split; [by rewrite app_nil_r | constructor].
  - cbn [foldl]. rewrite filter_cons.
    destruct (builtins !! name) as [func|] eqn:Hl.
    + rewrite decide_True by eauto.
      destruct (Harvesting.signature_or name func) as [func_name params] eqn:Hs.
      match goal with
      | |- ∃ new, foldl _ ?a names = _ ∧ _ => destruct (IH a) as (new & Hf & Hnew)
      end.
      eexists (_ :: new). split; [refine (eq_trans Hf _); by rewrite <- app_assoc|].
      constructor; [|done]. exists func. split; [done|].
      unfold harvested_builtin, Harvesting.signature_or in *. cbn [i_type i_value i_doc i_name i_params].
      split; [done|]. split; [done|]. split; [done|].
      destruct (Harvest.get_function_signature _) as [e|[n ps]].
      * by injection Hs as <- <-.
      * by injection Hs as <- <-.
    + rewrite decide_False by (intros [? ?]; done). apply IH.
Qed.

(** The harvested built-in functions are the allow-listed names that the
    module [builtins] has, one item for each, in the order of the list.
    Each item holds the cleaned documentation, and the name and the
    parameters [get_function_signature] returns; when that raises, as it
    does for a callable without [__name__] such as [help], the item is
    written all the same, under the allow-listed name and with no
    parameters. *)
Theorem harvest_builtin_functions_items (builtins : gmap (list N) Harvesting.pyobject) :
  Forall2 (λ name it, ∃ func, builtins !! name = Some func
                                ∧ harvested_builtin name func it)
          (filter (λ name, is_Some (builtins !! name)) Harvesting.builtin_names)
          (Harvesting.harvest_builtin_functions builtins).
Proof.
  destruct (harvest_builtin_loop builtins Harvesting.builtin_names []) as (new & Hf & H).
  replace (Harvesting.harvest_builtin_functions builtins) with new
    by (symmetry; exact Hf).
  done.
Qed.

(** The sample module [builtins]: [abs] with its parameter, [help] under
    the allow-listed name and without parameters, since it has no
    [__name__], and [max], whose signature cannot be read. *)
Example harvest_builtin_functions_sample :
  Harvesting.harvest_builtin_functions (Harvesting.builtins SampleRuntime.runtime)
  = [ Item None (Some (u "abs")) (Some [u "x"]) None
           (Some (u "Return the absolute value of the argument."));
      Item None (Some (u "help")) (Some []) None (Some (u "Define the builtin 'help'."));
      Item None (Some (u "max")) (Some []) None
           (Some (u "max(iterable, *[, default=obj, key=func]) -> value")) ].
Proof. vm_compute. reflexivity. Qed.

Lemma signature_or_params (name : str) (attr : Harvesting.pyobject) :
  (Harvesting.signature_or name attr).2 = harvested_params attr.
Proof.
  unfold Harvesting.signature_or, harvested_params.
  by destruct (Harvest.get_function_signature _) as [e|[n ps]].
Qed.

Lemma harvest_type_loop (type_obj : Harvesting.namespace) (names : list str)
    (acc : list item) :
  ∃ new,
    foldl (λ methods name,
             if starts_with (u "_") name then methods
             else match Harvesting.ns_getattr type_obj name with
                  | None => methods
                  | Some attr =>
                    if Harvesting.o_callable attr then
                      let doc := Harvest.clean_docstring (Harvesting.o_doc attr) in
                      let params := (Harvesting.signature_or name attr).2 in
                      methods ++ [Item None (Some name) (Some params) None (Some doc)]
                    else methods
                  end) acc names
    = acc ++ new
    ∧ Forall2 (λ name it, ∃ attr, Harvesting.ns_getattr type_obj name = Some attr
                                  ∧ harvested_method name attr it)
              (filter (λ name, public_callable type_obj name = true) names) new.
Proof.
  revert acc. induction names as [|name names IH]; intros acc.
  - exists []. split; [by rewrite app_nil_r | constructor].
  - cbn [foldl]. rewrite filter_cons.
    destruct (starts_with (u "_") name) eqn:Hs.
    { rewrite decide_False; [apply IH|].
      unfold public_callable, public. by rewrite Hs. }
    destruct (Harvesting.ns_getattr type_obj name) as [attr|] eqn:Hg.
    2:{ rewrite decide_False; [apply IH|].
        unfold public_callable. rewrite Hg. cbn [from_option]. by rewrite andb_false_r. }
    destruct (Harvesting.o_callable attr) eqn:Hc.
    2:{ rewrite decide_False; [apply IH|].
        unfold public_callable. rewrite Hg. cbn [from_option].
        by rewrite Hc, andb_false_r. }
    rewrite decide_True
      by (unfold public_callable, public; rewrite Hs, Hg; cbn [from_option negb andb];
          by rewrite Hc).
    match goal with
    | |- ∃ new, foldl _ ?a names = _ ∧ _ => destruct (IH a) as (new & Hf & Hnew)
    end.
    eexists (_ :: new). split; [refine (eq_trans Hf _); by rewrite <- app_assoc|].
    constructor; [|done]. exists attr. split; [done|].
    unfold harvested_method. by rewrite signature_or_params.
Qed.

(** The methods harvested for a type are the public names of [dir] whose
    attribute is there and can be called, in the order of [dir]; a name
    that begins with an underscore, an attribute that raises
    [AttributeError] and an attribute that cannot be called give no item.
    Each item holds the name, the cleaned documentation and the
    parameters [get_function_signature] returns, or no parameters when
    it raises, as it does for an attribute without [__name__]. *)
Theorem harvest_type_methods_items (type_obj : Harvesting.namespace) (type_name : str) :
  Forall2 (λ name it, ∃ attr, Harvesting.ns_getattr type_obj name = Some attr
                                ∧ harvested_method name attr it)
          (filter (λ name, public_callable type_obj name = true)
                  (Harvesting.ns_dir type_obj))
          (Harvesting.harvest_type_methods type_obj type_name)
  ∧ omap i_name (Harvesting.harvest_type_methods type_obj type_name)
    = filter (λ name, public_callable type_obj name = true) (Harvesting.ns_dir type_obj).
Proof.
  destruct (harvest_type_loop type_obj (Harvesting.ns_dir type_obj) []) as (new & Hf & H).
  replace (Harvesting.harvest_type_methods type_obj type_name) with new
    by (symmetry; exact Hf).
  split; [done|]. clear Hf.
  induction H as [|name it names items (attr & _ & Hit) _ IH]; [done|].
  unfold harvested_method in Hit. subst it. rewrite <- IH. reflexivity.
Qed.

(** A namespace whose one attribute can be called, has a signature that
    can be read and has no [__name__]: as a type and as the module
    [math], it gives an item without parameters. *)
Example harvest_nameless_attribute :
  Harvesting.harvest_type_methods SampleRuntime.nameless_holder (u "holder")
  = [ Item None (Some (u "apply")) (Some []) None
           (Some (u "Define the builtin 'help'.")) ]
  ∧ Harvesting.harvest_math_module SampleRuntime.nameless_holder
    = ok [ Item (Some (JStr (u "function"))) (Some (u "math.apply")) (Some []) None
                (Some (u "Define the builtin 'help'.")) ].
Proof. split; vm_compute; reflexivity. Qed.

Lemma harvest_math_loop (math : Harvesting.namespace) (names : list str)
    (acc items : list item) :
  Harvesting.math_loop math acc names = inr items →
  ∃ new, items = acc ++ new
    ∧ Forall2 (λ name it, ∃ attr, Harvesting.ns_getattr math name = Some attr
                                  ∧ harvested_member name attr it)
              (filter (λ name, public name = true) names) new.
Proof.
  revert acc. induction names as [|name names IH]; intros acc H.
  - injection H as <-. exists []. split; [by rewrite app_nil_r | constructor].
  - cbn [Harvesting.math_loop] in H. rewrite filter_cons.
    destruct (starts_with (u "_") name) eqn:Hs.
    { rewrite decide_False; [by apply IH|]. unfold public. by rewrite Hs. }
    rewrite decide_True by (unfold public; by rewrite Hs).
    destruct (Harvesting.ns_getattr math name) as [attr|] eqn:Hg; [|done].
    cbv zeta in H. destruct (Harvesting.o_callable attr) eqn:Hc;
      apply IH in H as (new & -> & Hnew);
      (eexists (_ :: new); split; [by rewrite <- app_assoc|]);
      (constructor; [|done]); exists attr; (split; [done|]);
      unfold harvested_member; rewrite Hc, ?signature_or_params; done.
Qed.

Lemma harvest_math_loop_error (math : Harvesting.namespace) (names : list str)
    (acc : list item) (name : str) :
  Harvesting.math_loop math acc names = inl (AttributeError name) →
  name ∈ names ∧ public name = true ∧ Harvesting.ns_getattr math name = None.
Proof.
  revert acc. induction names as [|n names IH]; intros acc H; [done|].
  cbn [Harvesting.math_loop] in H. rewrite elem_of_cons.
  destruct (starts_with (u "_") n) eqn:Hs.
  - apply IH in H as (? & ? & ?). auto.
  - destruct (Harvesting.ns_getattr math n) as [attr|] eqn:Hg.
    + cbv zeta in H. destruct (Harvesting.o_callable attr);
        apply IH in H as (? & ? & ?); auto.
    + injection H as <-. unfold public. rewrite Hs. auto.
Qed.

Lemma harvest_math_loop_returns (math : Harvesting.namespace) (names : list str)
    (acc : list item) :
  Forall (λ name, public name = true → is_Some (Harvesting.ns_getattr math name)) names →
  ∃ items, Harvesting.math_loop math acc names = inr items.
Proof.
  intros H. revert acc. induction H as [|n names Hn _ IH]; intros acc; [by eexists|].
  cbn [Harvesting.math_loop]. unfold public in Hn.
  destruct (starts_with (u "_") n); [apply IH|].
  destruct (Hn eq_refl) as [attr ->]. cbv zeta.
  destruct (Harvesting.o_callable attr); apply IH.
Qed.

(** [harvest_math_module] gives one item for every public name of
    [dir(math)], in that order, when all of them can be fetched: for a
    callable a function item with the parameters [get_function_signature]
    returns, or with none when it raises, as it does for a callable
    without [__name__]; a constant item with the text of its value
    otherwise; both named [math.<name>].  It raises [AttributeError] for
    a public name that [getattr] does not find, and only then. *)
Theorem harvest_math_module_items (math : Harvesting.namespace) :
  (∀ items, Harvesting.harvest_math_module math = inr items →
     Forall2 (λ name it, ∃ attr, Harvesting.ns_getattr math name = Some attr
                                   ∧ harvested_member name attr it)
             (filter (λ name, public name = true) (Harvesting.ns_dir math)) items)
  ∧ (∀ name, Harvesting.harvest_math_module math = inl (AttributeError name) →
       name ∈ Harvesting.ns_dir math ∧ public name = true
       ∧ Harvesting.ns_getattr math name = None)
  ∧ (Forall (λ name, public name = true → is_Some (Harvesting.ns_getattr math name))
            (Harvesting.ns_dir math) →
     ∃ items, Harvesting.harvest_math_module math = inr items).
Proof.
  unfold Harvesting.harvest_math_module. split; [|split].
  - intros items H. by apply harvest_math_loop in H as (new & -> & H).
  - intros name. apply harvest_math_loop_error.
  - apply harvest_math_loop_returns.
Qed.

(** The sample module: two public names, one constant and one function. *)
Lemma harvest_math_module_items_witness :
  ∃ items, Harvesting.harvest_math_module SampleRuntime.math_module = inr items.
Proof.
  apply (proj2 (proj2 (harvest_math_module_items SampleRuntime.math_module))).
  cbn [Harvesting.ns_dir SampleRuntime.math_module].
  constructor; [intros H; vm_compute in H; discriminate|].
  constructor; [intros _; vm_compute; eauto|].
  constructor; [intros _; vm_compute; eauto|].
  constructor.
Defined.

(** ** From the harvester to the emitters *)

Lemma Forall2_Forall_right {A B} (R : A → B → Prop) (P : B → Prop)
    (l : list A) (k : list B) :
  (∀ x y, R x y → P y) → Forall2 R l k → Forall P k.
Proof. intros HR. induction 1; constructor; eauto. Qed.

Lemma harvested_builtin_sound (name : str) (func : Harvesting.pyobject) (it : item) :
  harvested_builtin name func it →
  renderable it = true
  ∧ ∃ doc, i_doc it = Some doc ∧ escaped doc = true.
Proof.
  intros (_ & _ & Hd & Hs). unfold renderable. rewrite Hd. split.
  - destruct (Harvest.get_function_signature _) as [e|[n ps]];
      destruct Hs as [-> _]; done.
  - eexists. split; [done|]. apply clean_docstring_body.
Qed.

Lemma harvested_method_sound (name : str) (attr : Harvesting.pyobject) (it : item) :
  harvested_method name attr it →
  renderable it = true
  ∧ ∃ doc, i_doc it = Some doc ∧ escaped doc = true.
Proof.
  unfold harvested_method. intros ->. split; [done|].
  eexists. split; [reflexivity|]. apply clean_docstring_body.
Qed.

Lemma harvested_member_sound (name : str) (attr : Harvesting.pyobject) (it : item) :
  harvested_member name attr it →
  renderable it = true ∧ known_kind it = true
  ∧ ∃ doc, i_doc it = Some doc ∧ escaped doc = true.
Proof.
  intros (Hn & Hd & Hk). unfold renderable, known_kind. rewrite Hn, Hd.
  split; [done|]. split.
  - destruct (Harvesting.o_callable attr); destruct Hk as (-> & _); [|done].
    apply orb_true_r.
  - eexists. split; [done|]. apply clean_docstring_body.
Qed.

Lemma harvest_builtin_functions_sound (builtins : gmap (list N) Harvesting.pyobject) :
  Forall (λ it, renderable it = true ∧ ∃ doc, i_doc it = Some doc ∧ escaped doc = true)
         (Harvesting.harvest_builtin_functions builtins).
Proof.
  destruct (harvest_builtin_loop builtins Harvesting.builtin_names []) as (new & Hf & H).
  replace (Harvesting.harvest_builtin_functions builtins) with new
    by (symmetry; exact Hf).
  eapply Forall2_Forall_right; [|exact H].
  intros name it (func & _ & Hit). by eapply harvested_builtin_sound.
Qed.

Lemma harvest_type_methods_sound (type_obj : Harvesting.namespace) (type_name : str) :
  Forall (λ it, renderable it = true ∧ ∃ doc, i_doc it = Some doc ∧ escaped doc = true)
         (Harvesting.harvest_type_methods type_obj type_name).
Proof.
  destruct (harvest_type_loop type_obj (Harvesting.ns_dir type_obj) []) as (new & Hf & H).
  replace (Harvesting.harvest_type_methods type_obj type_name) with new
    by (symmetry; exact Hf).
  eapply Forall2_Forall_right; [|exact H].
  intros name it (attr & _ & Hit). by eapply harvested_method_sound.
Qed.

Lemma harvest_math_module_sound (math : Harvesting.namespace) (items : list item) :
  Harvesting.harvest_math_module math = inr items →
  Forall (λ it, renderable it = true ∧ known_kind it = true
                ∧ ∃ doc, i_doc it = Some doc ∧ escaped doc = true) items.
Proof.
  intros H. apply harvest_math_loop in H as (new & -> & H).
  eapply Forall2_Forall_right; [|exact H].
  intros name it (attr & _ & Hit). by eapply harvested_member_sound.
Qed.

Lemma harvested_type_methods (rt : Harvesting.runtime) (data : harvest_record)
    (type_name : str) (methods : list item) :
  Harvesting.main rt = inr data → type_methods data !! type_name = Some methods →
  methods
  = Harvesting.harvest_type_methods (Harvesting.builtin_type rt type_name) type_name
  ∧ type_name ∈ Generate.type_order.
Proof.
  unfold Harvesting.main. cbv zeta.
  destruct (Harvesting.harvest_math_module _); [done|]. intros [= <-].
  cbn [type_methods]. intros H.
  repeat (apply lookup_insert_Some in H as [[<- <-] | [_ H]];
          [split; [done | unfold Generate.type_order; repeat constructor]|]).
  by rewrite lookup_empty in H.
Qed.

Lemma harvested_record_renderable (rt : Harvesting.runtime) (data : harvest_record) :
  Harvesting.main rt = inr data →
  is_empty (split_ws (Harvesting.sys_version rt)) = false →
  renderable_record data = true.
Proof.
  intros Hm Hv. unfold renderable_record. rewrite !andb_true_iff.
  split; [split; [split|]|].
  - unfold Harvesting.main in Hm. cbv zeta in Hm.
    destruct (Harvesting.harvest_math_module _); [done|]. injection Hm as <-.
    cbn [python_version]. by rewrite Hv.
  - apply forallb_Forall_true.
    unfold Harvesting.main in Hm. cbv zeta in Hm.
    destruct (Harvesting.harvest_math_module _); [done|]. injection Hm as <-.
    cbn [builtin_functions].
    eapply Forall_impl; [apply harvest_builtin_functions_sound|]. by intros it [? _].
  - apply forallb_Forall_true, Forall_forall. intros t _.
    destruct (type_methods data !! t) as [methods|] eqn:Ht; [|done].
    destruct (harvested_type_methods rt data t methods Hm Ht) as [-> _].
    apply forallb_Forall_true.
    eapply Forall_impl; [apply harvest_type_methods_sound|]. by intros it [? _].
  - apply forallb_Forall_true.
    unfold Harvesting.main in Hm. cbv zeta in Hm.
    destruct (Harvesting.harvest_math_module _) as [|items] eqn:Hh; [done|].
    injection Hm as <-. cbn [math_module].
    eapply Forall_impl; [exact (harvest_math_module_sound _ _ Hh)|].
    intros it (-> & _). apply orb_true_r.
Qed.

(** A record written by the harvester can always be emitted: when
    [sys.version] is not blank, [main] of [generate_swift_completions]
    returns its text and [main] of [apply_harvested_docs] ends without an
    exception on every file text; no key the emitters read is missing. *)
Theorem harvested_record_is_emitted (rt : Harvesting.runtime) (data : harvest_record)
    (now content : str) :
  Harvesting.main rt = inr data →
  is_empty (split_ws (Harvesting.sys_version rt)) = false →
  Generate.main now data
  = ok (join [LF] (Emitted.header now ++ Emitted.builtin_group data
                   ++ Emitted.type_groups data ++ Emitted.module_group data))
  ∧ returns_normally (Apply.main data content).
Proof.
  intros Hm Hv. pose proof (harvested_record_renderable rt data Hm Hv) as Hr.
  split; [by apply main_renderable | by apply apply_main_returns].
Qed.

(** The sample runtime is harvested and emitted. *)
Lemma harvested_record_is_emitted_witness :
  ∃ data,
    Harvesting.main SampleRuntime.runtime = inr data
    ∧ returns_normally (Apply.main data Sample.swift_file).
Proof.
  destruct (Harvesting.main SampleRuntime.runtime) as [e|data] eqn:Hm;
    [vm_compute in Hm; discriminate|].
  exists data. split; [done|].
  apply (harvested_record_is_emitted SampleRuntime.runtime data [] Sample.swift_file Hm).
  reflexivity.
Defined.

(** Every documentation string of a harvested record is the body of a
    string literal: the escaping of [clean_docstring] reaches all three
    parts of the record. *)
Theorem harvested_docs_escaped (rt : Harvesting.runtime) (data : harvest_record) :
  Harvesting.main rt = inr data →
  Forall (λ it, ∃ doc, i_doc it = Some doc ∧ escaped doc = true) (builtin_functions data)
  ∧ map_Forall (λ _ methods,
                  Forall (λ it, ∃ doc, i_doc it = Some doc ∧ escaped doc = true) methods)
               (type_methods data)
  ∧ Forall (λ it, ∃ doc, i_doc it = Some doc ∧ escaped doc = true) (math_module data).
Proof.
  intros Hm. split; [|split].
  - unfold Harvesting.main in Hm. cbv zeta in Hm.
    destruct (Harvesting.harvest_math_module _); [done|]. injection Hm as <-.
    cbn [builtin_functions].
    eapply Forall_impl; [apply harvest_builtin_functions_sound|]. by intros it [_ ?].
  - intros t methods Ht.
    destruct (harvested_type_methods rt data t methods Hm Ht) as [-> _].
    eapply Forall_impl; [apply harvest_type_methods_sound|]. by intros it [_ ?].
  - unfold Harvesting.main in Hm. cbv zeta in Hm.
    destruct (Harvesting.harvest_math_module _) as [|items] eqn:Hh; [done|].
    injection Hm as <-. cbn [math_module].
    eapply Forall_impl; [exact (harvest_math_module_sound _ _ Hh)|]. by intros it (_ & _ & ?).
Qed.

(** The sample runtime: every documentation string is escaped. *)
Lemma harvested_docs_escaped_witness :
  ∃ data,
    Harvesting.main SampleRuntime.runtime = inr data
    ∧ Forall (λ it, ∃ doc, i_doc it = Some doc ∧ escaped doc = true) (math_module data).
Proof.
  destruct (Harvesting.main SampleRuntime.runtime) as [e|data] eqn:Hm;
    [vm_compute in Hm; discriminate|].
  exists data. split; [done|].
  apply (harvested_docs_escaped SampleRuntime.runtime data Hm).
Defined.

Lemma completion_line_array_line (indent_str : str) (it : item) :
  Harvesting.completion_line indent_str it
  = Generate.array_line indent_str (bool_decide (is_Some (i_value it))) it.
Proof.
  unfold Harvesting.completion_line, Generate.array_line,
    Generate.format_swift_array_item, Generate.constant_literal,
    Generate.function_literal, Generate.quoted.
  destruct (i_value it) as [value|].
  - rewrite bool_decide_eq_true_2 by eauto.
    destruct (i_name it), (i_doc it); try done.
    unfold ok. cbn [getitem rbind ok default]. by rewrite <- !app_assoc.
  - rewrite bool_decide_eq_false_2 by (by intros [? ?]).
    destruct (i_name it), (i_doc it); try done.
    unfold ok. cbn [getitem rbind ok default]. by rewrite <- !app_assoc.
Qed.

(** The sample printer of the harvester renders every item as
    [format_swift_array_item] does, exceptions included: as a constant
    when the item has the key ['value'], as a function otherwise, behind
    [indent] spaces and before a comma. *)
Theorem completion_array_as_generator (items : list item) (indent : nat) :
  Harvesting.generate_swift_completion_array items indent
  = rbind (rmap (λ it, Generate.array_line (replicate indent SP)
                         (bool_decide (is_Some (i_value it))) it) items)
          (λ lines, ok (join [LF] lines)).
Proof.
  unfold Harvesting.generate_swift_completion_array. cbv zeta.
  rewrite (rmap_ext _ (λ it, Generate.array_line (replicate indent SP)
                               (bool_decide (is_Some (i_value it))) it)); [done|].
  apply Forall_forall. intros it _. apply completion_line_array_line.
Qed.

(** The module block of a harvested [math] has one entry for every public
    name of [dir(math)], none is lost between the harvester and the
    emitter; and the items the harvester gave a ['value'] are the ones it
    tagged as constants. *)
Theorem harvested_module_block (math : Harvesting.namespace) (items : list item) :
  Harvesting.harvest_math_module math = inr items →
  Generate.generate_math_module items = ok (join [LF] (Emitted.module_lines items))
  ∧ length (filter (λ line, is_Some (entry_of_line line)) (Emitted.module_lines items))
    = length (filter (λ name, public name = true) (Harvesting.ns_dir math))
  ∧ Forall (λ it, bool_decide (is_Some (i_value it)) = is_constant it) items.
Proof.
  intros H. pose proof (harvest_math_module_sound math items H) as Hs.
  apply harvest_math_loop in H as (new & Heq & H). cbn [app] in Heq. subst new.
  split; [|split].
  - unfold Generate.generate_math_module.
    rewrite math_module_lines_renderable; [done|].
    apply forallb_Forall_true. eapply Forall_impl; [exact Hs|].
    intros it (-> & _). apply orb_true_r.
  - rewrite module_lines_entries, length_app, !length_map, known_kind_count.
    assert (filter (λ it, known_kind it = true) items = items) as ->.
    { clear H. induction Hs as [|it items (_ & Hk & _) _ IH]; [done|].
      rewrite filter_cons, decide_True by done. by rewrite IH. }
    symmetry. apply (Forall2_length _ _ _ H).
  - eapply Forall2_Forall_right; [|exact H].
    intros name it (attr & _ & _ & _ & Hk). cbv beta.
    destruct (Harvesting.o_callable attr).
    + destruct Hk as (Hf & _ & ->). rewrite bool_decide_eq_false_2 by (by intros [? ?]).
      symmetry. destruct (is_constant it) eqn:Hc; [|done].
      by rewrite (kinds_disjoint it Hc) in Hf.
    + destruct Hk as (-> & -> & _). by rewrite bool_decide_eq_true_2 by eauto.
Qed.

(** The sample module gives a block with two entries. *)
Lemma harvested_module_block_witness :
  ∃ items,
    Harvesting.harvest_math_module SampleRuntime.math_module = inr items
    ∧ Generate.generate_math_module items = ok (join [LF] (Emitted.module_lines items)).
Proof.
  destruct (Harvesting.harvest_math_module SampleRuntime.math_module) as [e|items] eqn:Hm;
    [vm_compute in Hm; discriminate|].
  exists items. split; [done|].
  apply (harvested_module_block SampleRuntime.math_module items Hm).
Defined.

(** ** The two scripts side by side *)

(** As long as no item is called [print], [apply_harvested_docs] and
    [generate_swift_completions] write the same block of built-in
    functions, or raise the same [KeyError], for items that have a
    name. *)
Theorem builtin_blocks_agree (data : list item) :
  Forall (λ it, ∃ name, i_name it = Some name ∧ name ≠ u "print") data →
  Apply.generate_builtin_functions data = Generate.generate_builtin_functions data.
Proof.
  intros H. unfold Apply.generate_builtin_functions, Generate.generate_builtin_functions.
  cbv zeta.
  rewrite (rmap_ext Apply.builtin_line (Generate.array_line (u "        ") false)); [done|].
  eapply Forall_impl; [exact H|].
  intros it (name & Hn & Hp). by apply (builtin_line_other_name it name).
Qed.

(** The sample items [abs] and [math.sin] give the same block. *)
Lemma builtin_blocks_agree_witness :
  Apply.generate_builtin_functions [Sample.abs_item; Sample.sin_item]
  = Generate.generate_builtin_functions [Sample.abs_item; Sample.sin_item].
Proof.
  apply builtin_blocks_agree.
  repeat constructor; eexists; (split; [reflexivity | vm_compute; discriminate]).
Defined.

Lemma type_maps_agree (type_name : str) :
  type_name ≠ u "str" →
  default (capitalize type_name ++ u "Methods", type_name) (Apply.type_map !! type_name)
  = (default (capitalize type_name ++ u "Methods") (Generate.type_map !! type_name),
     type_name).
Proof.
  intros Hstr.
  destruct (decide (type_name = u "list")) as [->|?]; [reflexivity|].
  destruct (decide (type_name = u "dict")) as [->|?]; [reflexivity|].
  destruct (decide (type_name = u "set")) as [->|?]; [reflexivity|].
  destruct (decide (type_name = u "frozenset")) as [->|?]; [reflexivity|].
  destruct (decide (type_name = u "bytes")) as [->|?]; [reflexivity|].
  destruct (decide (type_name = u "bytearray")) as [->|?]; [reflexivity|].
  destruct (decide (type_name = u "tuple")) as [->|?]; [reflexivity|].
  unfold Apply.type_map, Generate.type_map. cbn [list_to_map foldr fst snd].
  rewrite !lookup_insert_ne by done. by rewrite !lookup_empty.
Qed.

Lemma apply_method_line (it : item) :
  renderable it = true →
  Apply.method_line it = Generate.array_line (u "            ") false it.
Proof.
  intros Hr. rewrite (proj1 (array_line_renderable _ it Hr)).
  unfold renderable, Apply.method_line, Emitted.line, Emitted.function_entry,
    Generate.function_literal in *.
  destruct (i_name it), (i_doc it); try done;
    unfold ok; cbn [getitem rbind ok default]; by rewrite <- !app_assoc.
Qed.

(** For every type name but [str], the two scripts write the same struct
    for a list of methods that have name and documentation; for [str] the
    comment of [apply_harvested_docs] ends in ['string'] where the one of
    [generate_swift_completions] ends in ['str'], so the two texts
    differ. *)
Theorem type_blocks_agree (type_name : str) (methods : list item) :
  forallb renderable methods = true →
  (type_name ≠ u "str" →
   Apply.generate_type_methods_struct type_name methods
   = Generate.generate_type_methods type_name methods)
  ∧ Apply.generate_type_methods_struct (u "str") methods
    ≠ Generate.generate_type_methods (u "str") methods.
Proof.
  intros Hr.
  assert (rmap Apply.method_line methods
          = rmap (Generate.array_line (u "            ") false) methods) as Hlines.
  { apply rmap_ext. apply forallb_Forall_true in Hr.
    eapply Forall_impl; [exact Hr|]. intros it Hit. by apply apply_method_line. }
  split.
  - intros Hstr. unfold Apply.generate_type_methods_struct, Generate.generate_type_methods.
    rewrite type_maps_agree by done. cbv zeta. by rewrite Hlines.
  - unfold Apply.generate_type_methods_struct, Generate.generate_type_methods.
    change (default _ (Apply.type_map !! u "str")) with (u "StringMethods", u "string").
    change (default _ (Generate.type_map !! u "str")) with (u "StringMethods").
    cbv zeta. rewrite Hlines.
    rewrite (proj1 (rmap_array_line _ _ Hr)). unfold ok. cbn [rbind].
    intros H.
    apply (f_equal (λ r : exn + list N, match r with inr s => length s | inl _ => 0 end))
      in H.
    cbn [app join] in H. rewrite !length_app in H. cbn [length] in H.
    vm_compute in H. lia.
Qed.

(** The methods of [list], with one item, are written alike. *)
Lemma type_blocks_agree_witness :
  Apply.generate_type_methods_struct (u "list") [Sample.upper_item]
  = Generate.generate_type_methods (u "list") [Sample.upper_item].
Proof.
  apply (proj1 (type_blocks_agree (u "list") [Sample.upper_item] eq_refl)).
  vm_compute. discriminate.
Defined.

(** ** More on [clean_docstring] *)

Lemma drop_while_nil_iff {A} (f : A → bool) (l : list A) :
  drop_while f l = [] ↔ Forall (λ x, f x = true) l.
Proof.
  induction l as [|x l IH]; simpl.
  - split; [constructor | done].
  - destruct (f x) eqn:E.
    + rewrite IH, Forall_cons. tauto.
    + split; [done|]. intros H. apply Forall_cons in H as [H _]. congruence.
Qed.

Lemma drop_while_head {A} (f : A → bool) (l : list A) (x : A) (t : list A) :
  drop_while f l = x :: t → f x = false.
Proof.
  induction l as [|y l IH]; simpl; [done|].
  destruct (f y) eqn:E; [done|]. by intros [= <- _].
Qed.

Lemma drop_while_snoc {A} (f : A → bool) (l : list A) (x : A) :
  f x = false → ∃ w, drop_while f (l ++ [x]) = w ++ [x].
Proof.
  intros Hx. induction l as [|y l IH]; simpl.
  - rewrite Hx. by exists [].
  - destruct (f y); [done|]. by exists (y :: l).
Qed.

Lemma rstrip_cons (c : char) (t : str) :
  is_space c = false → ∃ t', rstrip (c :: t) = c :: t'.
Proof.
  intros Hc. unfold rstrip. rewrite reverse_cons.
  destruct (drop_while_snoc is_space (reverse t) c Hc) as [w ->].
  rewrite reverse_snoc. eauto.
Qed.

Lemma strip_cons (c : char) (t : str) :
  is_space c = false → ∃ t', strip (c :: t) = c :: t'.
Proof.
  intros Hc. unfold strip, lstrip. cbn [drop_while]. rewrite Hc. by apply rstrip_cons.
Qed.

Lemma strip_nil_iff (s : str) : strip s = [] ↔ Forall (λ c, is_space c = true) s.
Proof.
  unfold strip. split.
  - intros H. apply drop_while_nil_iff. fold (lstrip s).
    destruct (lstrip s) as [|c t] eqn:El; [done|].
    apply drop_while_head in El. destruct (rstrip_cons c t El) as [t' Ht].
    congruence.
  - intros H. apply drop_while_nil_iff in H. unfold lstrip. by rewrite H.
Qed.

Lemma escape_char_head (c : char) :
  is_space c = false → ∃ c' r, escape_char c = c' :: r ∧ is_space c' = false.
Proof.
  intros Hc. unfold escape_char.
  destruct (c =? BSL)%N; [by exists BSL, [BSL]|].
  destruct (c =? DQ)%N; [by exists BSL, [DQ]|].
  destruct (N.eqb_spec c LF) as [->|_]; [done|].
  destruct (N.eqb_spec c CR) as [->|_]; [done|].
  by exists c, [].
Qed.

Lemma collect_first (line : str) (rest : list str) (c : char) (t : str) :
  strip line = c :: t → ∃ more, Harvest.collect [] (line :: rest) = (c :: t) :: more.
Proof.
  intros Hs. cbn [Harvest.collect]. rewrite Hs. cbn [is_empty negb andb app].
  destruct (300 <? length (join [SP] [c :: t])) eqn:E; [by exists []|].
  apply Nat.ltb_ge in E.
  destruct (collect_nonempty rest [c :: t]) as (n & Hc & _); [done | exact E |].
  rewrite Hc. eexists. reflexivity.
Qed.

Lemma clean_docstring_nonempty (doc : str) (c : char) (t : str) :
  strip doc = c :: t → is_space c = false → Harvest.clean_docstring (Some doc) ≠ [].
Proof.
  intros Hs Hc. rewrite clean_docstring_unfold, Hs.
  assert (N.eqb c LF = false) as Hlf.
  { destruct (N.eqb_spec c LF) as [->|]; done. }
  assert (∃ w ws, split_char LF (c :: t) = (c :: w) :: ws) as (w & ws & ->).
  { cbn [split_char]. rewrite Hlf. destruct (split_char LF t); eauto. }
  destruct (strip_cons c w Hc) as [w' Hw].
  cbn [drop_while]. unfold blank at 1. rewrite Hw. cbn [is_empty].
  destruct (collect_first (c :: w) ws c w' Hw) as [more ->].
  assert (∃ r, join [SP] ((c :: w') :: more) = c :: r) as [r ->].
  { destruct more; simpl; eauto. }
  unfold escape. cbn [flat_map].
  destruct (escape_char_head c Hc) as (c' & r' & -> & Hc').
  cbn [app]. destruct (split_ws_head c' (r' ++ flat_map escape_char r) Hc')
    as (word & words & Hw').
  pose proof (split_ws_words (c' :: r' ++ flat_map escape_char r)) as Hwords.
  rewrite Hw' in *. apply Forall_cons in Hwords as [[Hne _] _].
  destruct word; [done|]. by destruct words.
Qed.

Lemma strip_head (s : str) (c : char) (t : str) :
  strip s = c :: t → is_space c = false.
Proof.
  unfold strip. intros Hs.
  destruct (lstrip s) as [|d l] eqn:Hl; [done|].
  apply drop_while_head in Hl. destruct (rstrip_cons d l Hl) as [t' Ht].
  rewrite Ht in Hs. by injection Hs as <- _.
Qed.

(** [clean_docstring] returns the empty string for a missing docstring,
    for an empty one and for one made of whitespace only, and for no
    other. *)
Theorem clean_docstring_empty_iff (docstring : option str) :
  Harvest.clean_docstring docstring = []
  ↔ Forall (λ c, is_space c = true) (default [] docstring).
Proof.
  destruct docstring as [doc|]; [|done]. change (default [] (Some doc)) with doc. split.
  - intros H. apply strip_nil_iff. destruct (strip doc) as [|c t] eqn:Hs; [done|].
    exfalso. apply (clean_docstring_nonempty doc c t Hs); [|done].
    by apply (strip_head doc c t).
  - intros H. apply strip_nil_iff in H. rewrite clean_docstring_unfold, H. reflexivity.
Qed.

(** A docstring of spaces, a tab and a newline gives no documentation. *)
Lemma clean_docstring_empty_iff_witness :
  Harvest.clean_docstring (Some (u "  " ++ [9%N; LF] ++ u " ")) = [].
Proof.
  apply (proj2 (clean_docstring_empty_iff (Some (u "  " ++ [9%N; LF] ++ u " ")))).
  repeat constructor.
Defined.

Lemma escape_length (s : str) : length (escape s) ≤ 2 * length s.
Proof.
  unfold escape. induction s as [|c s IH]; [done|].
  cbn [flat_map]. rewrite length_app. cbn [length].
  assert (length (escape_char c) ≤ 2); [|lia].
  unfold escape_char. repeat case_match; simpl; lia.
Qed.

Lemma normalize_length_strong (s : str) :
  length (join [SP] (split_ws s)) ≤ length s
  ∧ (∀ d r, s = d :: r → is_space d = true →
            S (length (join [SP] (split_ws s))) ≤ length s).
Proof.
  induction s as [|c r [IH1 IH2]]; [split; [done | by intros]|].
  rewrite normalize_cons. cbn [length]. split.
  - destruct (is_space c); [lia|]. cbn [length].
    destruct r as [|d r]; [simpl; lia|].
    destruct (is_space d) eqn:Hd; [|lia].
    destruct (is_empty (split_ws (d :: r))); [simpl; lia|]. cbn [length].
    specialize (IH2 d r eq_refl Hd). cbn [length] in IH2. lia.
  - intros d r' [= <- <-] Hd. rewrite Hd. lia.
Qed.

Lemma join_snoc_bound (sep : str) (l : list str) (x : str) :
  length (join sep (l ++ [x])) ≤ length (join sep l) + length sep + length x.
Proof.
  induction l as [|a l IH]; [simpl; lia|].
  destruct l as [|b l]; simpl in *; rewrite ?length_app in *; simpl in *; lia.
Qed.

(** The length of the documentation.  When every stripped line of the
    first paragraph is at most [width] characters long, the documentation
    is at most [2 * (301 + width)] characters long: the lines before the
    last one taken make up at most 300 characters, one space and one line
    follow, and the escaping doubles a character at most. *)
Theorem clean_docstring_length (doc : str) (width : nat) :
  Forall (λ line, length line ≤ width) (first_paragraph doc) →
  length (Harvest.clean_docstring (Some doc)) ≤ 2 * (301 + width).
Proof.
  intros Hw. rewrite clean_docstring_unfold.
  destruct (collect_nil (drop_while blank (split_char LF (strip doc))))
    as (n & Hc & Hn & _ & Hprev).
  rewrite drop_while_idem in Hc, Hn, Hprev. fold (first_paragraph doc) in Hc, Hn, Hprev.
  rewrite Hc.
  etrans; [apply normalize_length_strong|]. etrans; [apply escape_length|].
  assert (length (join [SP] (take n (first_paragraph doc))) ≤ 301 + width); [|lia].
  destruct n as [|m]; [simpl; lia|].
  destruct (first_paragraph doc !! m) as [x|] eqn:Hx.
  - rewrite (take_S_r _ _ _ Hx). etrans; [apply join_snoc_bound|].
    specialize (Hprev m ltac:(lia)). cbn [length].
    assert (length x ≤ width); [|lia].
    rewrite Forall_forall in Hw. apply Hw. by eapply list_elem_of_lookup_2.
  - apply lookup_ge_None in Hx. lia.
Qed.

(** A docstring of lines of at most 22 characters. *)
Lemma clean_docstring_length_witness :
  length (Harvest.clean_docstring
            (Some (u "Return the absolute" ++ [LF] ++ u "value of the argument.")))
  ≤ 2 * (301 + 22).
Proof.
  apply clean_docstring_length.
  replace (first_paragraph _) with [u "Return the absolute"; u "value of the argument."]
    by (vm_compute; reflexivity).
  repeat (constructor; [vm_compute; lia|]). constructor.
Defined.

(** ** More on [replace_section] *)

Lemma first_occurrence_split (sub s : str) (start i : nat) :
  first_occurrence sub s start i →
  ∃ post, s = take i s ++ sub ++ post ∧ length (take i s) = i ∧ drop i s = sub ++ post.
Proof.
  intros (_ & Ho & _). apply occurs_at_drop in Ho as [Hle Ho].
  apply starts_with_spec in Ho as [post Hpost]. exists post.
  split; [by rewrite <- Hpost, take_drop|]. split; [rewrite length_take; lia | done].
Qed.

Lemma replace_section_split (content start_marker end_marker new_content : str)
    (i j : nat) :
  first_occurrence start_marker content 0 i →
  first_occurrence end_marker content (i + length start_marker) j →
  ∃ old rest,
    content = take i content ++ start_marker ++ old ++ end_marker ++ rest
    ∧ length old = j - (i + length start_marker)
    ∧ Apply.replace_section content start_marker end_marker new_content
      = (take i content ++ new_content ++ end_marker ++ rest, []).
Proof.
  intros Hi Hj. rewrite (replace_section_found _ _ _ _ i j Hi Hj).
  destruct (first_occurrence_split _ _ _ _ Hi) as (post & Hc & Hli & Hdi).
  destruct (first_occurrence_split _ _ _ _ Hj) as (rest & _ & Hlj & Hdj).
  destruct Hj as (Hle & _ & _).
  exists (take (j - (i + length start_marker)) post), rest.
  assert (drop (j - (i + length start_marker)) post = end_marker ++ rest) as Hpost.
  { rewrite <- Hdj.
    replace j with (i + (length start_marker + (j - (i + length start_marker)))) at 2
      by lia.
    rewrite <- drop_drop, Hdi, <- drop_drop, drop_app_length. done. }
  split; [|split].
  - rewrite <- Hpost, take_drop. exact Hc.
  - rewrite length_take. apply (f_equal length) in Hc.
    rewrite !length_app, Hli in Hc. rewrite length_take in Hlj. lia.
  - by rewrite Hdj.
Qed.

(** When both markers are found, the file text reads: a part before the
    start marker, the start marker, the old region, the end marker and a
    rest.  [replace_section] returns the part before the start marker,
    the snippet, the end marker and the rest: the start marker and the
    old region are replaced, the end marker stays. *)
Theorem replace_section_region (content start_marker end_marker new_content : str)
    (i j : nat) :
  first_occurrence start_marker content 0 i →
  first_occurrence end_marker content (i + length start_marker) j →
  ∃ old rest,
    content = take i content ++ start_marker ++ old ++ end_marker ++ rest
    ∧ length old = j - (i + length start_marker)
    ∧ Apply.replace_section content start_marker end_marker new_content
      = (take i content ++ new_content ++ end_marker ++ rest, []).
Proof. apply replace_section_split. Qed.

(** The usual file text: both markers once, the region between them. *)
Lemma replace_section_region_witness :
  ∃ old rest,
    Sample.marked_text
    = take 11 Sample.marked_text ++ u "BEGIN-BUILTINS" ++ old ++ u "END-BUILTINS" ++ rest
    ∧ length old = 38 - (11 + length (u "BEGIN-BUILTINS"))
    ∧ Apply.replace_section Sample.marked_text (u "BEGIN-BUILTINS") (u "END-BUILTINS")
                            (u "NEW")
      = (take 11 Sample.marked_text ++ u "NEW" ++ u "END-BUILTINS" ++ rest, []).
Proof.
  apply (replace_section_region Sample.marked_text (u "BEGIN-BUILTINS")
           (u "END-BUILTINS") (u "NEW") 11 38).
  - apply find_Some. vm_compute. reflexivity.
  - apply find_Some. vm_compute. reflexivity.
Defined.

Lemma starts_with_long_prefix (sub a x y : str) :
  length sub ≤ length a → starts_with sub (a ++ x) = starts_with sub (a ++ y).
Proof.
  revert a. induction sub as [|c sub IH]; intros a Hl; [done|].
  destruct a as [|d a]; [simpl in Hl; lia|].
  cbn [app starts_with]. rewrite (IH a); [done | simpl in Hl; lia].
Qed.

Lemma find0_occurs (sub s : str) (n : nat) :
  occurs_at sub s n → ∃ k, find0 sub s = Some k ∧ k ≤ n.
Proof.
  intros Ho. destruct (find0 sub s) as [k|] eqn:Hf.
  - exists k. split; [done|]. apply find0_Some in Hf as (_ & _ & Hmin).
    destruct (decide (k ≤ n)); [done|]. destruct (Hmin n); [lia | lia | done].
  - apply find0_None in Hf. destruct (Hf n); [lia | done].
Qed.

(** Replacing a region twice.  When the snippet begins with the start
    marker and ends with the end marker, as the snippets of [main] do, a
    second replacement on the result of the first finds the region again
    and gives a longer text, by the length of the end marker at least:
    with such a snippet [replace_section] has no fixed point among the
    texts it changes. *)
Theorem replace_section_twice_grows (content start_marker end_marker body : str)
    (i j : nat) :
  first_occurrence start_marker content 0 i →
  first_occurrence end_marker content (i + length start_marker) j →
  length (Apply.replace_section content start_marker end_marker
            (start_marker ++ body ++ end_marker)).1
  + length end_marker
  ≤ length (Apply.replace_section
              (Apply.replace_section content start_marker end_marker
                 (start_marker ++ body ++ end_marker)).1
              start_marker end_marker (start_marker ++ body ++ end_marker)).1.
Proof.
  intros Hi Hj.
  destruct (replace_section_split content start_marker end_marker
              (start_marker ++ body ++ end_marker) i j Hi Hj)
    as (old & rest & Hc & _ & ->).
  cbn [fst]. set (pre := take i content) in *.
  assert (length pre = i) as Hpre.
  { destruct (first_occurrence_split _ _ _ _ Hi) as (_ & _ & H & _). exact H. }
  set (once := pre ++ (start_marker ++ body ++ end_marker) ++ end_marker ++ rest).
  assert (first_occurrence start_marker once 0 i) as Hi1.
  { split; [lia|]. split.
    - exists pre, (body ++ end_marker ++ end_marker ++ rest). split; [|done].
      unfold once. by rewrite <- !app_assoc.
    - intros k _ Hk Ho. destruct Hi as (_ & _ & Hmin). apply (Hmin k); [lia | done|].
      apply occurs_at_drop in Ho as [_ Ho]. apply occurs_at_drop.
      split; [rewrite Hc, length_app; lia|].
      rewrite <- Ho, Hc. unfold once. rewrite !drop_app_le by lia.
      rewrite <- !app_assoc, !(app_assoc (drop k pre)).
      apply starts_with_long_prefix. rewrite length_app. lia. }
  assert (drop (i + length start_marker) once
          = body ++ end_marker ++ end_marker ++ rest) as Hd.
  { unfold once. rewrite <- !app_assoc, (app_assoc pre).
    rewrite drop_app_length'; [done|]. rewrite length_app. lia. }
  destruct (find0_occurs end_marker (drop (i + length start_marker) once) (length body))
    as (k & Hk & Hkb).
  { rewrite Hd. by exists body, (end_marker ++ rest). }
  assert (i + length start_marker ≤ length once) as Hlen.
  { unfold once. rewrite !length_app. lia. }
  unfold Apply.replace_section.
  rewrite (proj2 (find_Some once start_marker 0 i)) by (split; [lia | done]).
  unfold find at 1. rewrite decide_True by done. rewrite Hk. cbn [fmap option_fmap option_map fst].
  rewrite !length_app, length_take, length_drop.
  assert (i + length start_marker + k + length end_marker ≤ length once).
  { apply find0_Some in Hk as (_ & Ho & _). rewrite Hd in Ho.
    destruct Ho as (p & q & Hpq & Hp). apply (f_equal length) in Hpq.
    unfold once. rewrite !length_app in *. lia. }
  unfold once in *. rewrite !length_app in *. lia.
Qed.

(** The sample text with a snippet that carries both markers. *)
Lemma replace_section_twice_grows_witness :
  length (Apply.replace_section Sample.marked_text (u "BEGIN-BUILTINS") (u "END-BUILTINS")
            (u "BEGIN-BUILTINS" ++ u " new " ++ u "END-BUILTINS")).1
  + length (u "END-BUILTINS")
  ≤ length (Apply.replace_section
              (Apply.replace_section Sample.marked_text (u "BEGIN-BUILTINS")
                 (u "END-BUILTINS")
                 (u "BEGIN-BUILTINS" ++ u " new " ++ u "END-BUILTINS")).1
              (u "BEGIN-BUILTINS") (u "END-BUILTINS")
              (u "BEGIN-BUILTINS" ++ u " new " ++ u "END-BUILTINS")).1.
Proof.
  apply (replace_section_twice_grows Sample.marked_text (u "BEGIN-BUILTINS")
           (u "END-BUILTINS") (u " new ") 11 38).
  - apply find_Some. vm_compute. reflexivity.
  - apply find_Some. vm_compute. reflexivity.
Defined.

(** ** The struct regions of [main] *)

Lemma any_plus_sound (k : str → option str) (s rest : str) :
  Apply.any_plus k s = Some rest → ∃ x w, s = x ++ w ∧ x ≠ [] ∧ k w = Some rest.
Proof.
  induction s as [|c r IH]; [done|]. cbn [Apply.any_plus].
  destruct (Apply.any_plus k r) as [rest'|] eqn:E.
  - intros [= <-]. destruct (IH eq_refl) as (x & w & -> & _ & Hk).
    by exists (c :: x), w.
  - intros Hk. by exists [c], r.
Qed.

Lemma any_plus_lazy_sound (k : str → option str) (s rest : str) :
  Apply.any_plus_lazy k s = Some rest → ∃ x w, s = x ++ w ∧ x ≠ [] ∧ k w = Some rest.
Proof.
  induction s as [|c r IH]; [done|]. cbn [Apply.any_plus_lazy].
  destruct (k r) as [rest'|] eqn:E.
  - intros [= <-]. by exists [c], r.
  - intros H. destruct (IH H) as (x & w & -> & _ & Hk). by exists (c :: x), w.
Qed.

Lemma any_plus_complete (k : str → option str) (x w rest : str) :
  x ≠ [] → k w = Some rest → is_Some (Apply.any_plus k (x ++ w)).
Proof.
  intros Hx Hk. induction x as [|c x IH]; [done|]. cbn [app Apply.any_plus].
  destruct x as [|d x].
  - cbn [app]. destruct (Apply.any_plus k w); [eauto|]. rewrite Hk. eauto.
  - destruct (IH ltac:(done)) as [r ->]. eauto.
Qed.

Lemma any_plus_lazy_complete (k : str → option str) (x w rest : str) :
  x ≠ [] → k w = Some rest → is_Some (Apply.any_plus_lazy k (x ++ w)).
Proof.
  intros Hx Hk. induction x as [|c x IH]; [done|]. cbn [app Apply.any_plus_lazy].
  destruct (k (x ++ w)) eqn:E; [eauto|].
  destruct x as [|d x]; [cbn [app] in E; congruence|]. by apply IH.
Qed.

Lemma re_match_sound (pattern : list Apply.re_item) (s rest : str) :
  Apply.re_match pattern s = Some rest → ∃ m, s = m ++ rest ∧ re_matches pattern m.
Proof.
  revert s. induction pattern as [|[l| |] p IH]; intros s; cbn [Apply.re_match].
  - intros [= <-]. exists []. split; [done | constructor].
  - destruct (starts_with l s) eqn:E; [|done].
    apply starts_with_spec in E as [post ->]. rewrite drop_app_length.
    intros H. destruct (IH _ H) as (m & -> & Hm).
    exists (l ++ m). split; [by rewrite <- app_assoc | by constructor].
  - intros H. apply any_plus_sound in H as (x & w & -> & Hx & H).
    destruct (IH _ H) as (m & -> & Hm).
    exists (x ++ m). split; [by rewrite <- app_assoc | by constructor].
  - intros H. apply any_plus_lazy_sound in H as (x & w & -> & Hx & H).
    destruct (IH _ H) as (m & -> & Hm).
    exists (x ++ m). split; [by rewrite <- app_assoc | by constructor].
Qed.

Lemma re_match_complete (pattern : list Apply.re_item) (m post : str) :
  re_matches pattern m → is_Some (Apply.re_match pattern (m ++ post)).
Proof.
  induction 1 as [|l p m Hm IH|x p m Hx Hm IH|x p m Hx Hm IH]; cbn [Apply.re_match].
  - eauto.
  - rewrite <- app_assoc, starts_with_app, drop_app_length. exact IH.
  - rewrite <- app_assoc. destruct IH as [r Hr]. by eapply any_plus_complete.
  - rewrite <- app_assoc. destruct IH as [r Hr]. by eapply any_plus_lazy_complete.
Qed.

Lemma re_match_take (pattern : list Apply.re_item) (s rest : str) :
  Apply.re_match pattern s = Some rest →
  s = take (length s - length rest) s ++ rest
  ∧ re_matches pattern (take (length s - length rest) s).
Proof.
  intros H. apply re_match_sound in H as (m & -> & Hm).
  rewrite length_app.
  replace (length m + length rest - length rest) with (length m) by lia.
  by rewrite take_app_length.
Qed.

Lemma re_search_sound (pattern : list Apply.re_item) (s group : str) :
  Apply.re_search pattern s = Some group →
  ∃ pre post, s = pre ++ group ++ post ∧ re_matches pattern group.
Proof.
  induction s as [|c r IH]; cbn [Apply.re_search].
  - destruct (Apply.re_match pattern []) as [rest|] eqn:E; [|done].
    intros [= <-]. apply re_match_take in E as [Hs Hm]. by exists [], rest.
  - destruct (Apply.re_match pattern (c :: r)) as [rest|] eqn:E.
    + intros [= <-]. apply re_match_take in E as [Hs Hm]. by exists [], rest.
    + intros H. destruct (IH H) as (pre & post & -> & Hm). by exists (c :: pre), post.
Qed.

Lemma re_search_head (pattern : list Apply.re_item) (s rest : str) :
  Apply.re_match pattern s = Some rest →
  Apply.re_search pattern s = Some (take (length s - length rest) s).
Proof. intros H. destruct s; cbn [Apply.re_search]; by rewrite H. Qed.

Lemma re_search_first_literal (literal : str) (pattern : list Apply.re_item)
    (pre m post : str) :
  first_occurrence literal (pre ++ m ++ post) 0 (length pre) →
  re_matches (Apply.Lit literal :: pattern) m →
  ∃ group rest,
    Apply.re_search (Apply.Lit literal :: pattern) (pre ++ m ++ post) = Some group
    ∧ m ++ post = group ++ rest
    ∧ re_matches (Apply.Lit literal :: pattern) group.
Proof.
  intros (_ & _ & Hmin) Hm. induction pre as [|c pre IH].
  - destruct (re_match_complete _ m post Hm) as [rest Hr]. cbn [app].
    destruct (re_match_take _ _ _ Hr) as [Hs Hg].
    exists (take (length (m ++ post) - length rest) (m ++ post)), rest.
    split; [by apply re_search_head | done].
  - cbn [app Apply.re_search Apply.re_match].
    destruct (starts_with literal (c :: pre ++ m ++ post)) eqn:E.
    + exfalso. apply (Hmin 0); [lia | simpl; lia |].
      apply occurs_at_drop. split; [simpl; lia | done].
    + apply IH. intros k _ Hk Ho. apply (Hmin (S k)); [lia | simpl; lia |].
      by apply (proj2 (occurs_at_cons literal c _ k)).
Qed.

Lemma struct_regex_shape (type_name : str) :
  Apply.struct_regex type_name
  = [ Apply.Lit (u "    /// "); Apply.AnyPlus; Apply.Lit (u " type methods");
      Apply.AnyPlus; Apply.Lit ([LF] ++ u "    struct ");
      Apply.Lit (searched_struct_name type_name); Apply.Lit (u " {");
      Apply.AnyPlusLazy; Apply.Lit ([LF] ++ u "        ]" ++ [LF] ++ u "    }") ].
Proof. reflexivity. Qed.

Lemma re_matches_end_inv (g : str) : re_matches [] g → g = [].
Proof. by inversion 1. Qed.

Lemma re_matches_literal_inv (l : str) (p : list Apply.re_item) (g : str) :
  re_matches (Apply.Lit l :: p) g → ∃ m, g = l ++ m ∧ re_matches p m.
Proof. inversion 1; subst. eauto. Qed.

Lemma re_matches_any_inv (p : list Apply.re_item) (g : str) :
  re_matches (Apply.AnyPlus :: p) g → ∃ x m, x ≠ [] ∧ g = x ++ m ∧ re_matches p m.
Proof. inversion 1; subst. eauto. Qed.

Lemma re_matches_any_lazy_inv (p : list Apply.re_item) (g : str) :
  re_matches (Apply.AnyPlusLazy :: p) g → ∃ x m, x ≠ [] ∧ g = x ++ m ∧ re_matches p m.
Proof. inversion 1; subst. eauto. Qed.

Lemma struct_regex_matches (type_name : str) (group : str) :
  re_matches (Apply.struct_regex type_name) group
  ↔ ∃ x y z, x ≠ [] ∧ y ≠ [] ∧ z ≠ []
      ∧ group = u "    /// " ++ x ++ u " type methods" ++ y
                ++ ([LF] ++ u "    struct ") ++ searched_struct_name type_name ++ u " {"
                ++ z ++ ([LF] ++ u "        ]" ++ [LF] ++ u "    }").
Proof.
  rewrite struct_regex_shape. split.
  - intros H.
    apply re_matches_literal_inv in H as (m1 & -> & H).
    apply re_matches_any_inv in H as (x & m2 & Hx & -> & H).
    apply re_matches_literal_inv in H as (m3 & -> & H).
    apply re_matches_any_inv in H as (y & m4 & Hy & -> & H).
    apply re_matches_literal_inv in H as (m5 & -> & H).
    apply re_matches_literal_inv in H as (m6 & -> & H).
    apply re_matches_literal_inv in H as (m7 & -> & H).
    apply re_matches_any_lazy_inv in H as (z & m8 & Hz & -> & H).
    apply re_matches_literal_inv in H as (m9 & -> & H).
    apply re_matches_end_inv in H as ->.
    exists x, y, z. by rewrite app_nil_r.
  - intros (x & y & z & Hx & Hy & Hz & ->).
    apply re_matches_literal, re_matches_any; [done|].
    apply re_matches_literal, re_matches_any; [done|].
    apply re_matches_literal, re_matches_literal, re_matches_literal.
    apply re_matches_any_lazy; [done|].
    rewrite <- (app_nil_r ([LF] ++ _)).
    apply re_matches_literal, re_matches_end.
Qed.

Lemma type_step (tm : gmap (list N) (list item)) (content type_name : str)
    (methods : list item) (new_struct : str) :
  tm !! type_name = Some methods →
  Apply.generate_type_methods_struct type_name methods = ok new_struct →
  Apply.type_methods_loop tm content [type_name]
  = match Apply.re_search (Apply.struct_regex type_name) content with
    | Some group1 => (inr (replace content group1 new_struct), [])
    | None =>
      (inr content,
       [(u "   " ++ Apply.warning_sign) ++ u "  Could not find "
          ++ Apply.struct_pattern type_name])
    end.
Proof.
  intros Ht Hg. cbn [Apply.type_methods_loop]. rewrite Ht, Hg.
  unfold ok, lift_result, lift_printing, run_ret. cbn [run_bind].
  by destruct (Apply.re_search _ content).
Qed.

Lemma re_search_complete (pattern : list Apply.re_item) (pre m post : str) :
  re_matches pattern m → is_Some (Apply.re_search pattern (pre ++ m ++ post)).
Proof.
  intros Hm. induction pre as [|c pre IH].
  - destruct (re_match_complete _ m post Hm) as [rest Hr]. cbn [app].
    rewrite (re_search_head _ _ _ Hr). eauto.
  - cbn [app Apply.re_search]. destruct (Apply.re_match pattern _); eauto.
Qed.

(** One step of the loop over the types, for a type of [type_order].
    Either some part of the file text reads: [    /// ], some text,
    [ type methods], some text, the header of the struct looked for, some
    text, and the closing bracket and brace; then such a part is
    replaced, wherever it occurs, by the new struct and no warning is
    logged.  Or no part of the file reads so, and the text is left as it
    is, with one warning. *)
Theorem type_step_outcome (tm : gmap (list N) (list item)) (content type_name : str)
    (methods : list item) (new_struct : str) :
  type_name ∈ Apply.type_order →
  tm !! type_name = Some methods →
  Apply.generate_type_methods_struct type_name methods = ok new_struct →
  (∃ pre group post,
     content = pre ++ group ++ post
     ∧ re_matches (Apply.struct_regex type_name) group
     ∧ Apply.type_methods_loop tm content [type_name]
       = (inr (replace content group new_struct), []))
  ∨ ((∀ pre group post, content = pre ++ group ++ post →
        ¬ re_matches (Apply.struct_regex type_name) group)
     ∧ Apply.type_methods_loop tm content [type_name]
       = (inr content,
          [(u "   " ++ Apply.warning_sign) ++ u "  Could not find "
             ++ Apply.struct_pattern type_name])).
Proof.
  intros _ Ht Hg. rewrite (type_step tm content type_name methods new_struct Ht Hg).
  destruct (Apply.re_search (Apply.struct_regex type_name) content) as [group|] eqn:Hs.
  - left. apply re_search_sound in Hs as (pre & post & -> & Hm). by exists pre, group, post.
  - right. split; [|done]. intros pre group post -> Hm.
    destruct (re_search_complete _ pre group post Hm) as [g Hg']. congruence.
Qed.

(** The step for [str] on a file without any struct comment. *)
Lemma type_step_outcome_witness :
  ∃ new_struct,
    Apply.generate_type_methods_struct (u "str") [Sample.upper_item] = ok new_struct
    ∧ ((∃ pre group post,
          u "no markers here" = pre ++ group ++ post
          ∧ re_matches (Apply.struct_regex (u "str")) group
          ∧ Apply.type_methods_loop (<[u "str" := [Sample.upper_item]]> ∅)
              (u "no markers here") [u "str"]
            = (inr (replace (u "no markers here") group new_struct), []))
       ∨ ((∀ pre group post, u "no markers here" = pre ++ group ++ post →
             ¬ re_matches (Apply.struct_regex (u "str")) group)
          ∧ Apply.type_methods_loop (<[u "str" := [Sample.upper_item]]> ∅)
              (u "no markers here") [u "str"]
            = (inr (u "no markers here"),
               [(u "   " ++ Apply.warning_sign) ++ u "  Could not find "
                  ++ Apply.struct_pattern (u "str")]))).
Proof.
  eexists. split; [vm_compute; reflexivity|].
  apply (type_step_outcome _ _ _ [Sample.upper_item]);
    [left | reflexivity | vm_compute; reflexivity].
Defined.

Lemma starts_with_app_left (a b s : str) :
  starts_with (a ++ b) s = true → starts_with a s = true.
Proof.
  rewrite !starts_with_spec. intros [post ->]. exists (b ++ post). by rewrite app_assoc.
Qed.

Lemma replace_from_skip (old new a s : str) :
  replace_from old new (length a) (a ++ s) = replace_from old new 0 s.
Proof. induction a as [|c a IH]; [done|]. exact IH. Qed.

Lemma replace_at_first (literal tail pre rest new : str) :
  literal ≠ [] →
  first_occurrence literal (pre ++ (literal ++ tail) ++ rest) 0 (length pre) →
  replace (pre ++ (literal ++ tail) ++ rest) (literal ++ tail) new
  = pre ++ new ++ replace rest (literal ++ tail) new.
Proof.
  intros Hl. unfold replace.
  destruct (literal ++ tail) as [|a g] eqn:Eg; [by destruct literal|].
  intros (_ & _ & Hmin). induction pre as [|c pre IH].
  - pose proof (starts_with_app (a :: g) rest) as Hs.
    cbn [app] in Hs. cbn [app replace_from]. rewrite Hs.
    replace (length (a :: g) - 1) with (length g) by (simpl; lia).
    by rewrite replace_from_skip.
  - rewrite <- !(app_comm_cons pre). cbn [replace_from].
    destruct (starts_with (a :: g) (c :: pre ++ (a :: g) ++ rest)) eqn:E.
    + exfalso. apply (Hmin 0); [lia | simpl; lia |].
      apply occurs_at_drop. split; [simpl; lia|].
      apply (starts_with_app_left literal tail). rewrite Eg. exact E.
    + f_equal. apply IH. intros k _ Hk Ho. apply (Hmin (S k)); [lia | simpl; lia |].
      by apply (proj2 (occurs_at_cons literal c _ k)).
Qed.

(** Where the replaced text begins, for a type of [type_order].  Let the
    first [    /// ] of the file be followed, at some distance, by [ type methods], later by the
    header of the struct looked for and later by a closing bracket and
    brace.  Then the step replaces a text that begins at that first
    comment, whatever stands between the comment and the struct: the file
    before the comment is kept, and the new struct follows it directly. *)
Theorem type_step_starts_at_first_comment (tm : gmap (list N) (list item))
    (type_name : str) (methods : list item) (new_struct pre x y z post : str) :
  type_name ∈ Apply.type_order →
  tm !! type_name = Some methods →
  Apply.generate_type_methods_struct type_name methods = ok new_struct →
  x ≠ [] → y ≠ [] → z ≠ [] →
  first_occurrence (u "    /// ")
    (pre ++ (u "    /// " ++ x ++ u " type methods" ++ y
             ++ ([LF] ++ u "    struct ") ++ searched_struct_name type_name ++ u " {"
             ++ z ++ ([LF] ++ u "        ]" ++ [LF] ++ u "    }")) ++ post)
    0 (length pre) →
  ∃ group rest,
    u "    /// " ++ x ++ u " type methods" ++ y
      ++ ([LF] ++ u "    struct ") ++ searched_struct_name type_name ++ u " {"
      ++ z ++ ([LF] ++ u "        ]" ++ [LF] ++ u "    }") ++ post
    = group ++ rest
    ∧ re_matches (Apply.struct_regex type_name) group
    ∧ Apply.type_methods_loop tm
        (pre ++ (u "    /// " ++ x ++ u " type methods" ++ y
                 ++ ([LF] ++ u "    struct ") ++ searched_struct_name type_name ++ u " {"
                 ++ z ++ ([LF] ++ u "        ]" ++ [LF] ++ u "    }")) ++ post)
        [type_name]
      = (inr (pre ++ new_struct ++ replace rest group new_struct), []).
Proof.
  intros _ Ht Hg Hx Hy Hz Hfirst.
  rewrite (type_step tm _ type_name methods new_struct Ht Hg).
  set (m := u "    /// " ++ x ++ u " type methods" ++ y
            ++ ([LF] ++ u "    struct ") ++ searched_struct_name type_name ++ u " {"
            ++ z ++ ([LF] ++ u "        ]" ++ [LF] ++ u "    }")) in *.
  assert (re_matches (Apply.struct_regex type_name) m) as Hm.
  { apply struct_regex_matches. by exists x, y, z. }
  rewrite struct_regex_shape in *.
  destruct (re_search_first_literal _ _ pre m post Hfirst Hm)
    as (group & rest & -> & Heq & Hmg).
  exists group, rest. split; [by rewrite <- Heq; unfold m; rewrite <- !app_assoc|].
  split; [done|]. f_equal. f_equal.
  inversion Hmg as [|l p g' Hg' Hl Hgroup| |]; subst.
  rewrite Heq. rewrite Heq in Hfirst.
  apply (replace_at_first (u "    /// ") g' pre rest new_struct); [done | exact Hfirst].
Qed.

(** A file where a hand-written struct for [Int] stands before the
    struct of [str]: the text replaced begins at the comment of the [Int]
    struct, which is lost with it. *)
Lemma type_step_starts_at_first_comment_witness :
  ∃ new_struct,
    Apply.generate_type_methods_struct (u "str") [Sample.upper_item] = ok new_struct
    ∧ ∃ group rest,
        u "    /// " ++ u "Int" ++ u " type methods" ++ SampleStructs.int_part
          ++ ([LF] ++ u "    struct ") ++ searched_struct_name (u "str") ++ u " {"
          ++ SampleStructs.string_body ++ ([LF] ++ u "        ]" ++ [LF] ++ u "    }")
          ++ SampleStructs.tail
        = group ++ rest
        ∧ re_matches (Apply.struct_regex (u "str")) group
        ∧ Apply.type_methods_loop (<[u "str" := [Sample.upper_item]]> ∅)
            (SampleStructs.head
               ++ (u "    /// " ++ u "Int" ++ u " type methods" ++ SampleStructs.int_part
                   ++ ([LF] ++ u "    struct ") ++ searched_struct_name (u "str") ++ u " {"
                   ++ SampleStructs.string_body
                   ++ ([LF] ++ u "        ]" ++ [LF] ++ u "    }"))
               ++ SampleStructs.tail)
            [u "str"]
          = (inr (SampleStructs.head ++ new_struct ++ replace rest group new_struct), []).
Proof.
  eexists. split; [vm_compute; reflexivity|].
  apply (type_step_starts_at_first_comment _ (u "str") [Sample.upper_item]).
  - left.
  - reflexivity.
  - vm_compute. reflexivity.
  - done.
  - done.
  - done.
  - apply find_Some. vm_compute. reflexivity.
Defined.

(** The struct of [bytes].  The name looked for is [BytessMethods], the
    capitalized type name with one [s] too many: in a file that does not
    hold this name the step for [bytes] leaves the text as it is and
    warns, whatever struct for [bytes] the file has. *)
Theorem bytes_struct_not_found (tm : gmap (list N) (list item)) (content : str)
    (methods : list item) (new_struct : str) :
  tm !! u "bytes" = Some methods →
  Apply.generate_type_methods_struct (u "bytes") methods = ok new_struct →
  absent_from (u "BytessMethods") content 0 →
  Apply.type_methods_loop tm content [u "bytes"]
  = (inr content,
     [(u "   " ++ Apply.warning_sign) ++ u "  Could not find struct (Bytess)Methods"]).
Proof.
  intros Ht Hg Ha. rewrite (type_step tm content _ methods new_struct Ht Hg).
  destruct (Apply.re_search (Apply.struct_regex (u "bytes")) content) as [group|] eqn:Hs.
  - exfalso. apply re_search_sound in Hs as (pre & post & -> & Hm).
    apply struct_regex_matches in Hm as (x & y & z & _ & _ & _ & ->).
    apply (Ha (length (pre ++ u "    /// " ++ x ++ u " type methods" ++ y
                       ++ ([LF] ++ u "    struct ")))); [lia|].
    eexists _, _. split; [|reflexivity].
    change (searched_struct_name (u "bytes")) with (u "BytessMethods").
    rewrite <- !app_assoc. reflexivity.
  - reflexivity.
Qed.

(** A file whose struct for [bytes] is called [BytesMethods]. *)
Lemma bytes_struct_not_found_witness :
  Apply.type_methods_loop (<[u "bytes" := [Sample.upper_item]]> ∅)
    SampleStructs.bytes_file [u "bytes"]
  = (inr SampleStructs.bytes_file,
     [(u "   " ++ Apply.warning_sign) ++ u "  Could not find struct (Bytess)Methods"]).
Proof.
  eapply (bytes_struct_not_found _ _ [Sample.upper_item]).
  - reflexivity.
  - vm_compute. reflexivity.
  - apply find_None. vm_compute. reflexivity.
Defined.

(** ** The struct written and the struct looked for *)

Lemma join_cons_tail (sep h : str) (l : list str) (d e : str) :
  join sep (h :: l ++ [d; e])
  = (h ++ concat (map (λ line, sep ++ line) l)) ++ sep ++ d ++ sep ++ e.
Proof.
  revert h. induction l as [|a l IH]; intros h.
  - cbn [app map concat join]. by rewrite app_nil_r.
  - change (join sep (h :: (a :: l) ++ [d; e]))
      with (h ++ sep ++ join sep (a :: l ++ [d; e])).
    rewrite IH. cbn [map concat]. by rewrite <- !app_assoc.
Qed.

Lemma join_struct_lines (sep a b c : str) (l : list str) (d e : str) :
  join sep ((([a; b; c] ++ l) ++ [d]) ++ [e])
  = a ++ sep ++ b ++ sep
    ++ (c ++ concat (map (λ line, sep ++ line) l)) ++ sep ++ d ++ sep ++ e.
Proof.
  rewrite <- !app_assoc.
  change (join sep ([a; b; c] ++ l ++ [d] ++ [e]))
    with (a ++ sep ++ b ++ sep ++ join sep (c :: l ++ [d; e])).
  rewrite join_cons_tail. by rewrite <- !app_assoc.
Qed.

Lemma generated_struct_shape (type_name : str) (methods : list item)
    (struct_name type_desc : str) (lines : list str) :
  default (capitalize type_name ++ u "Methods", type_name) (Apply.type_map !! type_name)
  = (struct_name, type_desc) →
  rmap Apply.method_line methods = ok lines →
  Apply.generate_type_methods_struct type_name methods
  = ok (u "    /// " ++ capitalize type_name ++ u " type methods"
        ++ (u " - for use when type inference determines an object is a " ++ type_desc)
        ++ ([LF] ++ u "    struct ") ++ struct_name ++ u " {"
        ++ ([LF] ++ u "        static let methods: [CompletionItem] = ["
            ++ concat (map (λ line, [LF] ++ line) lines))
        ++ ([LF] ++ u "        ]" ++ [LF] ++ u "    }")).
Proof.
  intros Hmap Hlines. unfold Apply.generate_type_methods_struct.
  rewrite Hmap, Hlines. unfold ok. cbn [rbind]. cbv zeta. f_equal.
  rewrite join_struct_lines.
  change (u " type methods - for use when type inference determines an object is a ")
    with (u " type methods"
          ++ u " - for use when type inference determines an object is a ").
  by rewrite <- !app_assoc.
Qed.

(** What one run writes, the next run finds.  For every type of the loop
    of [main] but [bytes], and methods that have name and documentation,
    the struct that [generate_type_methods_struct] writes is itself a text
    the pattern of [main] for that type matches. *)
Theorem generated_struct_is_matched (type_name : str) (methods : list item) :
  type_name ∈ Apply.type_order →
  type_name ≠ u "bytes" →
  forallb renderable methods = true →
  ∃ new_struct,
    Apply.generate_type_methods_struct type_name methods = ok new_struct
    ∧ re_matches (Apply.struct_regex type_name) new_struct.
Proof.
  intros Hin Hbytes Hr.
  destruct (proj2 (apply_lines_return methods Hr)) as [lines Hlines].
  unfold Apply.type_order in Hin.
  repeat (apply elem_of_cons in Hin as [->|Hin];
          [try done; eexists;
           (split; [eapply generated_struct_shape; [vm_compute; reflexivity | exact Hlines]|]);
           match goal with
           | |- re_matches _ (_ ++ ?x ++ _ ++ ?y ++ _ ++ _ ++ _ ++ ?z ++ _) =>
             apply struct_regex_matches; exists x, y, z
           end;
           (split; [done|]); (split; [done|]); (split; [done|]); reflexivity|]).
  by apply elem_of_nil in Hin.
Qed.

(** The struct written for [list] is matched by the pattern for [list]. *)
Lemma generated_struct_is_matched_witness :
  ∃ new_struct,
    Apply.generate_type_methods_struct (u "list") [Sample.upper_item] = ok new_struct
    ∧ re_matches (Apply.struct_regex (u "list")) new_struct.
Proof.
  apply generated_struct_is_matched.
  - right. left.
  - vm_compute. discriminate.
  - reflexivity.
Defined.
